(** * Presentation scheduler of the slideshow fork of manim

    A shallow embedding of

    - [manim/scene/slide_scene.py]      (the presentation state machine),
    - [manim/renderer/slide_renderer.py] (the two frame sources),
    - [manim/slides/slideshow_host.py]  (the host: pacing, delivery, idle loop),
    - [manim/slides/main.py]            (the prerender pass),

    as computations in a state-and-exception monad over one record holding
    the scene, its renderer and the host.  Everything the Python code obtains
    from outside (the wall clock, the SDL event queue, the verdicts of stop
    conditions and of [should_update_mobjects], the configuration) is read
    from an environment of oracles, so that the theorems quantify over every
    possible behaviour of the outside world.

    Python floats are modelled by exact rationals. *)

From Stdlib Require Import List Bool Arith ZArith QArith Lia.
Import ListNotations.

Local Open Scope Q_scope.

(** ** Enumerations of the source *)

(** [PresentationState] of slide_scene.py. *)
Inductive PresentationState : Type :=
| NOT_READY
| ANIMATING
| IDLE.

(** [AnimationGroupEndAction] of slide_scene.py: the tokens a script yields. *)
Inductive AnimationGroupEndAction : Type :=
| SUBSLIDE
| EXIT.

(** [SlideshowEvent] of slideshow_host.py. *)
Inductive SlideshowEvent : Type :=
| EV_EXIT
| EV_ADVANCE
| EV_PREVIOUS.

Definition PresentationState_eqb (a b : PresentationState) : bool :=
  match a, b with
  | NOT_READY, NOT_READY | ANIMATING, ANIMATING | IDLE, IDLE => true
  | _, _ => false
  end.

Definition AnimationGroupEndAction_eqb (a b : AnimationGroupEndAction) : bool :=
  match a, b with
  | SUBSLIDE, SUBSLIDE | EXIT, EXIT => true
  | _, _ => false
  end.

(** [NON_SLIDESHOW_SUBSLIDE_DELAY = 2.0] *)
Definition NON_SLIDESHOW_SUBSLIDE_DELAY : Q := 2.

(** ** Data *)

(** A frame is a freshly allocated pixel array; only its identity matters
    here, so a frame is the serial number of the [get_frame] call that
    allocated it. *)
Definition Frame : Type := nat.

(** The keys [sieve_events] looks at. *)
Inductive Keysym : Type :=
| SDLK_RIGHT | SDLK_DOWN | SDLK_SPACE | SDLK_RETURN | SDLK_OTHER.

(** Raw SDL events, as far as [sieve_events] inspects them. *)
Inductive RawEvent : Type :=
| SDL_QUIT
| SDL_KEYDOWN (windowID : Z) (sym : Keysym)
| SDL_OTHER.

(** Modelled from the spec: the result of the animation engine's
    [compile_animation_data] ("compileAnimationGroup(spec...) ->
    AnimationGroup | null"), which is not part of the sources at hand.  A
    compiled group has a duration and, optionally, a stop condition. *)
Record AnimationGroup : Type := mkGroup {
  group_duration : Q;
  group_has_stop_condition : bool
}.

(** One [self.play(...)] of a script, given by what it compiles to
    ([None]: nothing to animate). *)
Definition PlayCall : Type := option AnimationGroup.

(** One stretch of a generator script: the plays up to a [yield], and the
    token yielded there. *)
Record Segment : Type := mkSegment {
  seg_plays : list PlayCall;
  seg_token : AnimationGroupEndAction
}.

(** The author's [construct] method: either a generator function (its
    stretches, then the plays after the last [yield]) or a plain method. *)
Inductive Construct : Type :=
| GeneratorFunction (segments : list Segment) (rest : list PlayCall)
| PlainFunction (body : list PlayCall).

(** A generator object: suspended with the remaining stretches, or
    finished (every later [next] raises [StopIteration] at once). *)
Inductive Generator : Type :=
| Suspended (segments : list Segment) (rest : list PlayCall)
| Finished.

(** Which list of mobjects a caller passes to [update_frame]. *)
Inductive MobjectsArg : Type :=
| AllMobjects        (* mobjects=None: scene.mobjects + foreground *)
| MovingMobjects     (* scene.moving_mobjects *)
| StaticMobjects.    (* scene.static_mobjects *)

Inductive LogLevel : Type := LDebug | LInfo | LWarn | LError | LCritical.

(** What the program does to the outside world, in order.  Rasterization
    events carry the presentation state of the scene at that moment. *)
Inductive Event : Type :=
| ELog (lvl : LogLevel)
| EDelay (ms : Z)                       (* sdl2.SDL_Delay *)
| EBlit (f : Frame)                     (* send_frame_to_window *)
| EWindowShow
| ECapture (ps : PresentationState) (m : MobjectsArg) (background : option Frame)
                                        (* camera.capture_mobjects *)
| EGetFrame (ps : PresentationState) (f : Frame)
| ESetup
| ECompile (skip_rendering : bool) (p : PlayCall)
| EUpdateToTime (t : Q)
| EUpdateMobjects (dt : Q)
| EMovingAndStatic                      (* get_moving_and_static_mobjects([]) *)
| ECloseProgression                     (* time_progression.close() *)
| EFinishAnimations                     (* finish + clean_up_from_scene *)
| EGenYield (tok : AnimationGroupEndAction)  (* next() returned a token *)
| EGenStop.                             (* next() raised StopIteration *)

Inductive RendererKind : Type := DummySlideRenderer | CairoLiveSlideshowRenderer.

(** The attributes of a [SlideScene]. *)
Record SceneState : Type := mkScene {
  construct : Construct;
  is_skipping_to_end : bool;
  anim_generator : option Generator;
  presentation_state : PresentationState;
  is_at_end : bool;
  duration : Q;
  stop_condition : bool;          (* [self.stop_condition is not None] *)
  last_t : Q                      (* object state is the state at this time *)
}.

(** The attributes of the scene's renderer (either class). *)
Record RendererState : Type := mkRenderer {
  kind : RendererKind;
  renderer_id : Z;                (* id(renderer) *)
  static_image : option Frame;
  num_plays : nat;
  thumbnail_start : option Frame;
  thumbnail_end : option Frame;
  slideshow_host : bool;          (* init_host has been called *)
  frames_made : nat               (* how many arrays get_frame allocated *)
}.

(** The attributes of the [SlideshowHost]. *)
Record HostState : Type := mkHost {
  current_slide_source : option Z;
  last_frame_at : option Q;
  active_scene : bool;            (* [self.active_scene is not None] *)
  last_frame_data : option Frame;
  avg_fps : Q
}.

(** Everything, with the read positions of the oracles and the trace. *)
Record World : Type := mkWorld {
  scene : SceneState;
  renderer : RendererState;
  host : HostState;
  clock_reads : nat;
  polls : nat;
  stop_calls : nat;
  update_calls : nat;
  trace : list Event
}.

(** The outside world. *)
Record Env : Type := mkEnv {
  clock : nat -> Q;                       (* k-th value of time.time() *)
  sdl_events : nat -> list RawEvent;      (* k-th sdl2.ext.get_events() *)
  stop_condition_result : nat -> bool;    (* k-th call of a stop condition *)
  should_update_mobjects_result : nat -> bool;
  compile_wait : Q -> PlayCall;           (* what self.wait(d) compiles to *)
  frame_rate : Q;                         (* config.frame_rate *)
  window_id : Z;                          (* SDL_GetWindowID(window) *)
  disable_caching : bool;                 (* config.disable_caching *)
  instance_has_qualname : bool            (* does self.__qualname__ resolve *)
}.

(** ** Field updates *)

Definition with_scene (f : SceneState -> SceneState) (w : World) : World :=
  mkWorld (f (scene w)) (renderer w) (host w)
          (clock_reads w) (polls w) (stop_calls w) (update_calls w) (trace w).

Definition with_renderer (f : RendererState -> RendererState) (w : World) : World :=
  mkWorld (scene w) (f (renderer w)) (host w)
          (clock_reads w) (polls w) (stop_calls w) (update_calls w) (trace w).

Definition with_host (f : HostState -> HostState) (w : World) : World :=
  mkWorld (scene w) (renderer w) (f (host w))
          (clock_reads w) (polls w) (stop_calls w) (update_calls w) (trace w).

Definition with_trace (e : Event) (w : World) : World :=
  mkWorld (scene w) (renderer w) (host w)
          (clock_reads w) (polls w) (stop_calls w) (update_calls w) (trace w ++ [e]).

Definition set_is_skipping_to_end (b : bool) (s : SceneState) : SceneState :=
  mkScene (construct s) b (anim_generator s) (presentation_state s)
          (is_at_end s) (duration s) (stop_condition s) (last_t s).

Definition set_anim_generator (g : option Generator) (s : SceneState) : SceneState :=
  mkScene (construct s) (is_skipping_to_end s) g (presentation_state s)
          (is_at_end s) (duration s) (stop_condition s) (last_t s).

Definition set_presentation_state (p : PresentationState) (s : SceneState) : SceneState :=
  mkScene (construct s) (is_skipping_to_end s) (anim_generator s) p
          (is_at_end s) (duration s) (stop_condition s) (last_t s).

Definition set_is_at_end (b : bool) (s : SceneState) : SceneState :=
  mkScene (construct s) (is_skipping_to_end s) (anim_generator s)
          (presentation_state s) b (duration s) (stop_condition s) (last_t s).

Definition set_group (g : AnimationGroup) (s : SceneState) : SceneState :=
  mkScene (construct s) (is_skipping_to_end s) (anim_generator s)
          (presentation_state s) (is_at_end s)
          (group_duration g) (group_has_stop_condition g) (last_t s).

Definition set_last_t (t : Q) (s : SceneState) : SceneState :=
  mkScene (construct s) (is_skipping_to_end s) (anim_generator s)
          (presentation_state s) (is_at_end s) (duration s) (stop_condition s) t.

Definition set_static_image (f : option Frame) (r : RendererState) : RendererState :=
  mkRenderer (kind r) (renderer_id r) f (num_plays r) (thumbnail_start r)
             (thumbnail_end r) (slideshow_host r) (frames_made r).

Definition set_num_plays (n : nat) (r : RendererState) : RendererState :=
  mkRenderer (kind r) (renderer_id r) (static_image r) n (thumbnail_start r)
             (thumbnail_end r) (slideshow_host r) (frames_made r).

Definition set_thumbnail_end (f : option Frame) (r : RendererState) : RendererState :=
  mkRenderer (kind r) (renderer_id r) (static_image r) (num_plays r)
             (thumbnail_start r) f (slideshow_host r) (frames_made r).

Definition set_slideshow_host (b : bool) (r : RendererState) : RendererState :=
  mkRenderer (kind r) (renderer_id r) (static_image r) (num_plays r)
             (thumbnail_start r) (thumbnail_end r) b (frames_made r).

Definition set_frames_made (n : nat) (r : RendererState) : RendererState :=
  mkRenderer (kind r) (renderer_id r) (static_image r) (num_plays r)
             (thumbnail_start r) (thumbnail_end r) (slideshow_host r) n.

Definition set_current_slide_source (i : option Z) (h : HostState) : HostState :=
  mkHost i (last_frame_at h) (active_scene h) (last_frame_data h) (avg_fps h).

Definition set_last_frame_at (t : option Q) (h : HostState) : HostState :=
  mkHost (current_slide_source h) t (active_scene h) (last_frame_data h) (avg_fps h).

Definition set_active_scene_field (b : bool) (h : HostState) : HostState :=
  mkHost (current_slide_source h) (last_frame_at h) b (last_frame_data h) (avg_fps h).

Definition set_last_frame_data (f : option Frame) (h : HostState) : HostState :=
  mkHost (current_slide_source h) (last_frame_at h) (active_scene h) f (avg_fps h).

Definition set_avg_fps (a : Q) (h : HostState) : HostState :=
  mkHost (current_slide_source h) (last_frame_at h) (active_scene h)
         (last_frame_data h) a.

(** ** The monad: state, exceptions, fuel *)

Inductive exn : Type :=
| ZeroDivisionError
| AttributeError
| TypeError
| SystemExit
| IndexError.

Inductive res (A : Type) : Type :=
| Ok (a : A)
| Raise (e : exn)
| OutOfFuel.

Arguments Ok {A} a.
Arguments Raise {A} e.
Arguments OutOfFuel {A}.

(** A computation maps the world to the world it leaves behind and to how
    it ended; the world is kept also when an exception escapes. *)
Definition M (A : Type) : Type := World -> World * res A.

Definition ret {A} (a : A) : M A := fun w => (w, Ok a).

Definition bind {A B} (m : M A) (k : A -> M B) : M B :=
  fun w =>
    match m w with
    | (w1, Ok a) => k a w1
    | (w1, Raise e) => (w1, Raise e)
    | (w1, OutOfFuel) => (w1, OutOfFuel)
    end.

Definition raise {A} (e : exn) : M A := fun w => (w, Raise e).
Definition out_of_fuel {A} : M A := fun w => (w, OutOfFuel).
Definition get : M World := fun w => (w, Ok w).
Definition modify (f : World -> World) : M unit := fun w => (f w, Ok tt).
Definition emit (e : Event) : M unit := modify (with_trace e).

Declare Scope py_scope.
Delimit Scope py_scope with py.
Notation "x <- m ;; k" := (bind m (fun x => k))
  (at level 61, m at next level, right associativity) : py_scope.
Notation "m ;; k" := (bind m (fun _ => k))
  (at level 61, right associativity) : py_scope.
Local Open Scope py_scope.

(** ** Python arithmetic *)

(** [a / b] on floats: raises [ZeroDivisionError] when [b] is zero. *)
Definition py_div (a b : Q) : M Q :=
  if Qeq_bool b 0 then raise ZeroDivisionError else ret (a / b).

(** [a < b] *)
Definition Qlt_bool (a b : Q) : bool := negb (Qle_bool b a).

(** [int(x)]: truncation toward zero. *)
Definition py_int (x : Q) : Z := Z.quot (Qnum x) (Zpos (Qden x)).

Section Program.

Variable env : Env.

(** ** slideshow_host.py: the frame-pacing clock *)

(** [time.time()] *)
Definition time_time : M Q :=
  fun w =>
    (mkWorld (scene w) (renderer w) (host w)
             (S (clock_reads w)) (polls w) (stop_calls w) (update_calls w) (trace w),
     Ok (clock env (clock_reads w))).

(** [SlideshowHost.update_framerate_clock] *)
Definition update_framerate_clock : M Q :=
  w <- get ;;
  match last_frame_at (host w) with
  | None =>
      now <- time_time ;;
      modify (with_host (set_last_frame_at (Some now))) ;;
      ret 0
  | Some last =>
      current_time <- time_time ;;
      sample <- py_div 1 (current_time - last) ;;
      modify (with_host (fun h =>
        set_avg_fps ((1 # 10) * avg_fps h + (9 # 10) * sample) h)) ;;
      emit (ELog LDebug) ;;
      period <- py_div 1 (frame_rate env) ;;
      (if Qlt_bool (current_time - last) period then
         period' <- py_div 1 (frame_rate env) ;;
         emit (EDelay (py_int ((period' - (current_time - last)) * 1000)))
       else ret tt) ;;
      now <- time_time ;;
      modify (with_host (set_last_frame_at (Some now))) ;;
      ret (now - last)
  end.


(** ** slideshow_host.py: events and delivery *)

Definition sieve_one (e : RawEvent) : list SlideshowEvent :=
  match e with
  | SDL_QUIT => [EV_EXIT]
  | SDL_KEYDOWN wid sym =>
      if negb (Z.eqb wid (window_id env)) then []
      else match sym with
           | SDLK_RIGHT | SDLK_DOWN | SDLK_SPACE | SDLK_RETURN => [EV_ADVANCE]
           | SDLK_OTHER => []
           end
  | SDL_OTHER => []
  end.

(** [SlideshowHost.sieve_events]: one [sdl2.ext.get_events()], mapped to
    logical events. *)
Definition sieve_events : M (list SlideshowEvent) :=
  fun w =>
    (mkWorld (scene w) (renderer w) (host w)
             (clock_reads w) (S (polls w)) (stop_calls w) (update_calls w) (trace w),
     Ok (flat_map sieve_one (sdl_events env (polls w)))).

(** [for x in l: body(x)] *)
Fixpoint for_each {A} (l : list A) (body : A -> M unit) : M unit :=
  match l with
  | [] => ret tt
  | x :: l' => body x ;; for_each l' body
  end.

(** [SlideshowHost.send_frame_to_window] *)
Definition send_frame_to_window (frame : Frame) : M unit := emit (EBlit frame).

(** [SlideScene.skip_to_next_idle_phase] *)
Definition skip_to_next_idle_phase : M unit :=
  modify (with_scene (set_is_skipping_to_end true)).

(** [id(slide_source) != self.current_slide_source] *)
Definition other_source (slide_source : Z) (h : HostState) : bool :=
  match current_slide_source h with
  | Some i => negb (Z.eqb slide_source i)
  | None => true
  end.

(** [SlideshowHost.update_with_rendered_frame] *)
Definition update_with_rendered_frame (slide_source : Z) (frame_data : Frame) : M unit :=
  w <- get ;;
  if other_source slide_source (host w) then emit (ELog LWarn)
  else
    evts <- sieve_events ;;
    for_each evts (fun evt =>
      match evt with
      | EV_EXIT => emit (ELog LCritical)
      | EV_ADVANCE =>
          emit (ELog LInfo) ;;
          w1 <- get ;;
          if active_scene (host w1) then skip_to_next_idle_phase
          else raise AttributeError
      | EV_PREVIOUS => ret tt
      end) ;;
    update_framerate_clock ;;
    send_frame_to_window frame_data ;;
    modify (with_host (set_last_frame_data None)).

(** ** slide_renderer.py *)

(** The [skip_animations] attribute (dummy renderer: constantly [True]) or
    property (live renderer: the active scene's fast-forward flag). *)
Definition skip_animations : M bool :=
  w <- get ;;
  match kind (renderer w) with
  | DummySlideRenderer => ret true
  | CairoLiveSlideshowRenderer =>
      if slideshow_host (renderer w) then
        if active_scene (host w) then ret (is_skipping_to_end (scene w))
        else raise AttributeError
      else ret false
  end.

(** [update_frame(scene, mobjects, ignore_skipping=...)] of both renderers. *)
Definition update_frame (mobjects : MobjectsArg) (ignore_skipping : bool) : M unit :=
  skip <- skip_animations ;;
  w <- get ;;
  let have_thumbnail :=
    match kind (renderer w), thumbnail_start (renderer w) with
    | DummySlideRenderer, None => false
    | _, _ => true
    end in
  if skip && negb ignore_skipping && have_thumbnail then ret tt
  else emit (ECapture (presentation_state (scene w)) mobjects
                      (static_image (renderer w))).

(** [get_frame()]: a fresh copy of the camera's pixel array. *)
Definition get_frame : M Frame :=
  w <- get ;;
  let f := frames_made (renderer w) in
  modify (with_renderer (set_frames_made (S f))) ;;
  emit (EGetFrame (presentation_state (scene w)) f) ;;
  ret f.

(** [CairoLiveSlideshowRenderer.add_frame(frame)] *)
Definition add_frame (frame : Frame) : M unit :=
  skip <- skip_animations ;;
  if skip then ret tt
  else
    w <- get ;;
    if slideshow_host (renderer w)
    then update_with_rendered_frame (renderer_id (renderer w)) frame
    else raise AttributeError.

(** [CairoLiveSlideshowRenderer.render]; the dummy renderer has no such
    method. *)
Definition renderer_render : M unit :=
  w <- get ;;
  match kind (renderer w) with
  | DummySlideRenderer => raise AttributeError
  | CairoLiveSlideshowRenderer =>
      update_frame MovingMobjects true ;;
      f <- get_frame ;;
      add_frame f
  end.

(** [save_static_frame_data] of both renderers. *)
Definition save_static_frame_data : M Frame :=
  update_frame StaticMobjects true ;;
  f <- get_frame ;;
  modify (with_renderer (set_static_image (Some f))) ;;
  ret f.

(** [scene_finished] of both renderers. *)
Definition scene_finished : M unit :=
  w <- get ;;
  match kind (renderer w) with
  | DummySlideRenderer =>
      update_frame AllMobjects true ;;
      f <- get_frame ;;
      modify (with_renderer (set_thumbnail_end (Some f)))
  | CairoLiveSlideshowRenderer => ret tt
  end.

(** ** The animation engine, at its boundary *)

(** Modelled from the spec: [Scene.update_to_time] ("objectStateAt(t)"),
    missing from the sources: the objects take their state at time [t]. *)
Definition update_to_time (t : Q) : M unit :=
  modify (with_scene (set_last_t t)) ;;
  emit (EUpdateToTime t).

(** Modelled from the spec: [Scene.update_mobjects(dt)], missing from the
    sources. *)
Definition update_mobjects (dt : Q) : M unit := emit (EUpdateMobjects dt).

(** Modelled from the spec: [Scene.should_update_mobjects]
    ("shouldUpdateObjects() -> bool"), missing from the sources. *)
Definition should_update_mobjects : M bool :=
  fun w =>
    (mkWorld (scene w) (renderer w) (host w)
             (clock_reads w) (polls w) (stop_calls w) (S (update_calls w)) (trace w),
     Ok (should_update_mobjects_result env (update_calls w))).

(** [self.stop_condition()] *)
Definition call_stop_condition : M bool :=
  fun w =>
    (mkWorld (scene w) (renderer w) (host w)
             (clock_reads w) (polls w) (S (stop_calls w)) (update_calls w) (trace w),
     Ok (stop_condition_result env (stop_calls w))).

(** Modelled from the spec: [Scene.compile_animation_data]
    ("compileAnimationGroup(spec...) -> AnimationGroup | null"), missing
    from the sources: it leaves the group's duration and stop condition in
    the scene and tells whether there is anything to play. *)
Definition compile_animation_data (skip_rendering : bool) (p : PlayCall) : M bool :=
  emit (ECompile skip_rendering p) ;;
  match p with
  | Some g => modify (with_scene (set_group g)) ;; ret true
  | None => ret false
  end.

(** ** slide_scene.py: playback *)

(** The [while t < self.duration] loop of [play_internal]; the result is
    [need_last_run]. *)
Fixpoint play_loop (fuel : nat) (skip_rendering : bool) (t_0 t : Q) : M bool :=
  w <- get ;;
  if Qlt_bool t (duration (scene w)) then
    match fuel with
    | O => out_of_fuel
    | S fuel' =>
        now <- time_time ;;
        let t' := now - t_0 in
        update_to_time t' ;;
        (if negb skip_rendering then renderer_render else ret tt) ;;
        w1 <- get ;;
        stop <- (if stop_condition (scene w1) then call_stop_condition
                 else ret false) ;;
        if stop then emit ECloseProgression ;; ret false
        else
          skip <- skip_animations ;;
          if skip then ret true
          else play_loop fuel' skip_rendering t_0 t'
    end
  else ret false.

(** [SlideScene.play_internal] *)
Definition play_internal (fuel : nat) (skip_rendering : bool) : M unit :=
  t_0 <- time_time ;;
  need_last_run <- play_loop fuel skip_rendering t_0 0 ;;
  (if need_last_run && negb skip_rendering then
     w <- get ;;
     update_to_time (duration (scene w)) ;;
     renderer_render
   else ret tt) ;;
  emit EFinishAnimations ;;
  modify (with_renderer (set_static_image None)).

(** [play] of both renderers. *)
Definition renderer_play (fuel : nat) (p : PlayCall) : M unit :=
  w <- get ;;
  match kind (renderer w) with
  | CairoLiveSlideshowRenderer =>
      s <- compile_animation_data false p ;;
      if s then play_internal fuel false else ret tt
  | DummySlideRenderer =>
      modify (with_renderer (fun r => set_num_plays (S (num_plays r)) r)) ;;
      w1 <- get ;;
      if Nat.eqb (num_plays (renderer w1)) 1 then
        s <- compile_animation_data false p ;;
        if s then play_internal fuel true else ret tt
      else
        s <- compile_animation_data true p ;;
        if s then play_internal fuel true else ret tt
  end.

(** Modelled from the spec: [Scene.play], missing from the sources, hands
    the animations to the renderer's [play]. *)
Definition scene_play (fuel : nat) (p : PlayCall) : M unit := renderer_play fuel p.

(** Modelled from the spec: [Scene.wait(d)], missing from the sources,
    plays a wait of [d] seconds. *)
Definition scene_wait (fuel : nat) (d : Q) : M unit :=
  scene_play fuel (compile_wait env d).

Definition run_plays (fuel : nat) (ps : list PlayCall) : M unit :=
  for_each ps (scene_play fuel).

(** ** slide_scene.py: the script generator *)

(** An exception leaving a generator's frame finishes the generator. *)
Definition generator_frame {A} (m : M A) : M A :=
  fun w =>
    match m w with
    | (w1, Raise e) => (with_scene (set_anim_generator (Some Finished)) w1, Raise e)
    | r => r
    end.

(** [next(self.anim_generator)]; [None] stands for [StopIteration]. *)
Definition gen_next (fuel : nat) : M (option AnimationGroupEndAction) :=
  w <- get ;;
  match anim_generator (scene w) with
  | None => raise TypeError
  | Some Finished => emit EGenStop ;; ret None
  | Some (Suspended [] rest) =>
      generator_frame (run_plays fuel rest) ;;
      modify (with_scene (set_anim_generator (Some Finished))) ;;
      emit EGenStop ;;
      ret None
  | Some (Suspended (seg :: segs) rest) =>
      generator_frame (run_plays fuel (seg_plays seg)) ;;
      modify (with_scene (set_anim_generator (Some (Suspended segs rest)))) ;;
      emit (EGenYield (seg_token seg)) ;;
      ret (Some (seg_token seg))
  end.

(** The generator object made by calling [construct], after the wrapping
    of [start_render]: the wrapper of a plain method runs it and returns
    before its only [yield]. *)
Definition make_generator (c : Construct) : Generator :=
  match c with
  | GeneratorFunction segs rest => Suspended segs rest
  | PlainFunction body => Suspended [] body
  end.

(** [SlideScene.start_render] *)
Definition start_render : M unit :=
  emit ESetup ;;
  w <- get ;;
  (match construct (scene w) with
   | GeneratorFunction _ _ => ret tt
   | PlainFunction _ =>
       (* the warning formats self.__qualname__ *)
       if instance_has_qualname env then emit (ELog LWarn)
       else raise AttributeError
   end) ;;
  modify (with_scene (set_anim_generator (Some (make_generator (construct (scene w)))))) ;;
  modify (with_scene (set_presentation_state ANIMATING)).

(** [SlideScene.animate_to_next_subslide] *)
Definition animate_to_next_subslide (fuel : nat) : M bool :=
  modify (with_scene (set_is_skipping_to_end false)) ;;
  modify (with_renderer (set_static_image None)) ;;
  modify (with_scene (set_presentation_state ANIMATING)) ;;
  r <- gen_next fuel ;;
  result_code <-
    (match r with
     | Some tok => ret (Some tok)
     | None =>
         w <- get ;;
         if is_at_end (scene w) then ret None
         else modify (with_scene (set_is_at_end true)) ;; ret (Some SUBSLIDE)
     end) ;;
  match result_code with
  | None => ret false
  | Some code =>
      if AnimationGroupEndAction_eqb code EXIT then ret false
      else
        modify (with_scene (set_presentation_state IDLE)) ;;
        update_mobjects 0 ;;
        emit EMovingAndStatic ;;
        save_static_frame_data ;;
        ret true
  end.

(** ** slideshow_host.py: the idle phase and the main loop *)

(** [SlideshowHost.render_idle_frame] *)
Definition render_idle_frame : M unit :=
  w <- get ;;
  redraw <-
    (match last_frame_data (host w) with
     | None => ret true
     | Some _ =>
         if active_scene (host w) then should_update_mobjects
         else raise AttributeError
     end) ;;
  if redraw then
    (if active_scene (host w) then ret tt else raise AttributeError) ;;
    dt <- update_framerate_clock ;;
    update_mobjects dt ;;
    update_frame MovingMobjects true ;;
    frame <- get_frame ;;
    send_frame_to_window frame ;;
    modify (with_host (set_last_frame_data (Some frame)))
  else
    update_framerate_clock ;;
    w1 <- get ;;
    match last_frame_data (host w1) with
    | Some frame => send_frame_to_window frame
    | None => raise TypeError
    end.

(** [SlideshowHost.set_active_scene] *)
Definition set_active_scene : M unit :=
  modify (with_host (set_active_scene_field true)) ;;
  w <- get ;;
  match kind (renderer w) with
  | DummySlideRenderer => raise AttributeError
  | CairoLiveSlideshowRenderer =>
      modify (with_renderer (set_slideshow_host true)) ;;
      modify (with_host (set_current_slide_source (Some (renderer_id (renderer w))))) ;;
      emit (ELog LInfo)
  end.

(** The [for event in self.sieve_events()] of [run]; [true] when [run]
    returns from inside it. *)
Fixpoint handle_events (fuel : nat) (evts : list SlideshowEvent) : M bool :=
  match evts with
  | [] => ret false
  | EV_EXIT :: _ => ret true
  | EV_ADVANCE :: evts' =>
      more <- animate_to_next_subslide fuel ;;
      if more then emit (ELog LInfo) ;; handle_events fuel evts'
      else emit (ELog LError) ;; ret true
  | EV_PREVIOUS :: evts' => handle_events fuel evts'
  end.

(** The [while True] of [run]. *)
Fixpoint idle_loop (rounds fuel : nat) : M unit :=
  match rounds with
  | O => out_of_fuel
  | S rounds' =>
      w <- get ;;
      if PresentationState_eqb (presentation_state (scene w)) IDLE then
        render_idle_frame ;;
        evts <- sieve_events ;;
        done <- handle_events fuel evts ;;
        if done then ret tt else idle_loop rounds' fuel
      else emit (ELog LCritical) ;; raise SystemExit
  end.

Definition new_scene (c : Construct) : SceneState :=
  mkScene c false None NOT_READY false 0 false 0.

Definition new_renderer (k : RendererKind) (i : Z) : RendererState :=
  mkRenderer k i None 0 None None false 0.

Definition new_host : HostState := mkHost None None false None 1.

(** [SlideshowHost.run], for a slideshow whose first slide has the given
    script; [i] is the identity of its fresh live renderer. *)
Definition host_run (rounds fuel : nat) (c : Construct) (i : Z) : M unit :=
  modify (with_scene (fun _ => new_scene c)) ;;
  modify (with_renderer (fun _ => new_renderer CairoLiveSlideshowRenderer i)) ;;
  emit EWindowShow ;;
  set_active_scene ;;
  start_render ;;
  more <- animate_to_next_subslide fuel ;;
  if more then idle_loop rounds fuel else ret tt.

(** [SlideshowHost.run(slides)]: every slide class is instantiated with a
    fresh live renderer, the window is shown, and [self.slides[0]] is made
    active and presented; without any slide that subscript raises
    [IndexError].  The slides after the first are never used. *)
Definition run (rounds fuel : nat) (slides : list Construct) (i : Z) : M unit :=
  match slides with
  | [] => emit EWindowShow ;; raise IndexError
  | c :: _ => host_run rounds fuel c i
  end.

(** ** slide_scene.py and main.py: the prerender pass *)

(** The wrapper [SlideScene.render] puts around a generator script. *)
Fixpoint render_wrapper (fuel : nat) (segs : list Segment) (rest : list PlayCall)
  : M unit :=
  match segs with
  | [] =>
      run_plays fuel rest ;;
      scene_wait fuel NON_SLIDESHOW_SUBSLIDE_DELAY
  | seg :: segs' =>
      run_plays fuel (seg_plays seg) ;;
      if AnimationGroupEndAction_eqb (seg_token seg) EXIT then ret tt
      else scene_wait fuel NON_SLIDESHOW_SUBSLIDE_DELAY ;;
           render_wrapper fuel segs' rest
  end.

(** Modelled from the spec: [Scene.render], the parent implementation, is
    missing from the sources.  The prerender pass runs the script to its
    end and has the headless frame source capture the "final frame after
    the full script completes" (its [scene_finished]). *)
Definition Scene_render (construct_body : M unit) : M unit :=
  construct_body ;;
  scene_finished.

(** [SlideScene.render] *)
Definition SlideScene_render (fuel : nat) : M unit :=
  w <- get ;;
  match construct (scene w) with
  | GeneratorFunction segs rest => Scene_render (render_wrapper fuel segs rest)
  | PlainFunction body => Scene_render (run_plays fuel body)
  end.

(** The prerender loop body of [main], for one slide class; [i] is the
    identity of the fresh dummy renderer. *)
Definition prerender (fuel : nat) (c : Construct) (i : Z) : M unit :=
  modify (with_scene (fun _ => new_scene c)) ;;
  modify (with_renderer (fun _ => new_renderer DummySlideRenderer i)) ;;
  if disable_caching env then ret tt else SlideScene_render fuel.

End Program.

Definition new_world (c : Construct) (k : RendererKind) (i : Z) : World :=
  mkWorld (new_scene c) (new_renderer k i) new_host 0 0 0 0 [].

(** ** slide_scene.py: the tokens a script yields *)

(** [SlideScene.subslide] *)
Definition subslide : AnimationGroupEndAction := SUBSLIDE.

(** [SlideScene.advance] *)
Definition advance : AnimationGroupEndAction := EXIT.

(** ** slide_renderer.py: the frame bookkeeping of the headless renderer *)




(** ** Vocabulary of the statements *)

(** The world after a reading of the clock. *)
Definition ticked (w : World) : World :=
  mkWorld (scene w) (renderer w) (host w)
          (S (clock_reads w)) (polls w) (stop_calls w) (update_calls w) (trace w).

(** What a pacing call other than the first adds to the trace. *)
Definition pacing_events (env : Env) (elapsed : Q) : list Event :=
  if Qeq_bool elapsed 0 then []
  else if Qeq_bool (frame_rate env) 0 then [ELog LDebug]
  else if Qlt_bool elapsed (1 / frame_rate env)
       then [ELog LDebug;
             EDelay (py_int ((1 / frame_rate env - elapsed) * 1000))]
       else [ELog LDebug].

(** The delays requested in a stretch of trace, in milliseconds. *)
Fixpoint delays (tr : list Event) : list Z :=
  match tr with
  | [] => []
  | EDelay ms :: tr' => ms :: delays tr'
  | _ :: tr' => delays tr'
  end.

(** The moving average as the specification words it: weight 0.1 on the
    new sample [1/e], weight 0.9 on the old estimate. *)
Definition average_weighs_new_sample_one_tenth (env : Env) (w : World) : Prop :=
  forall last,
    last_frame_at (host w) = Some last ->
    ~ clock env (clock_reads w) - last == 0 ->
    avg_fps (host (fst (update_framerate_clock env w))) ==
    (1 # 10) * (1 / (clock env (clock_reads w) - last))
    + (9 # 10) * avg_fps (host w).

(** A concrete outside world: the clock advances by half a second per
    reading, nothing is ever pressed, 60 frames per second. *)
Definition quiet_env : Env :=
  mkEnv (fun n => (Z.of_nat n + 1) # 2) (fun _ => []) (fun _ => false)
        (fun _ => false) (fun d => Some (mkGroup d false)) 60 1 false true.

(** A clock that advances by a millisecond per reading. *)
Definition brisk_env : Env :=
  mkEnv (fun n => (Z.of_nat n + 1) # 1000) (fun _ => []) (fun _ => false)
        (fun _ => false) (fun d => Some (mkGroup d false)) 60 1 false true.

(** A host that has paced once already, at time 0. *)
Definition paced_world : World :=
  with_host (set_last_frame_at (Some 0))
            (new_world (GeneratorFunction [] []) CairoLiveSlideshowRenderer 7).

(** What a pacing call adds to the trace, and whether it returns. *)
Definition pacing_trace (env : Env) (w : World) : list Event :=
  match last_frame_at (host w) with
  | None => []
  | Some last => pacing_events env (clock env (clock_reads w) - last)
  end.

Definition pacing_returns (env : Env) (w : World) : bool :=
  match last_frame_at (host w) with
  | None => true
  | Some last =>
      negb (Qeq_bool (clock env (clock_reads w) - last) 0)
      && negb (Qeq_bool (frame_rate env) 0)
  end.

(** The bound on the delay as the specification words it: the delay of a
    pacing call is never negative and never longer than the frame period,
    whatever the clock says. *)
Definition delay_is_a_remainder_of_the_period (env : Env) (w : World) : Prop :=
  forall new ms,
    trace (fst (update_framerate_clock env w)) = trace w ++ new ->
    In ms (delays new) ->
    (0 <= ms)%Z /\ inject_Z ms <= (1 / frame_rate env) * 1000.

(** A host whose last frame was recorded at second 60. *)
Definition late_world : World :=
  with_host (set_last_frame_at (Some 60))
            (new_world (GeneratorFunction [] []) CairoLiveSlideshowRenderer 7).

(** An outside world whose clock has been set back to 0 and stays there. *)
Definition rewound_env : Env :=
  mkEnv (fun _ => 0) (fun _ => []) (fun _ => false)
        (fun _ => false) (fun d => Some (mkGroup d false)) 60 1 false true.

(** Events of the frame source making a frame: [update_frame] reaching
    the camera, and [get_frame]. *)
Definition is_rasterization (e : Event) : bool :=
  match e with
  | ECapture _ _ _ | EGetFrame _ _ => true
  | _ => false
  end.

(** A host with an active scene, and the world after it has shown one
    idle frame. *)
Definition attached_world : World :=
  with_host (set_active_scene_field true)
    (new_world (GeneratorFunction [] []) CairoLiveSlideshowRenderer 7).

Definition idle_world : World :=
  fst (render_idle_frame quiet_env attached_world).

(** What delivering a frame to the host may put on the trace, for a scene
    in presentation state [ps]. *)
Definition delivery_event (ps : PresentationState) (e : Event) : Prop :=
  match e with
  | ELog _ | EDelay _ | EBlit _ => True
  | ECapture ps' _ _ | EGetFrame ps' _ => ps' = ps
  | _ => False
  end.

(** What rendering a frame and handing it to the host may change: the
    fast-forward flag (only upwards, and only for an active scene), the
    frame counter, the host's frame bookkeeping, the read positions of the
    clock and of the event queue, and the trace. *)
Record delivery_rel (w w' : World) : Prop := mkDelivery {
  dl_scene : scene w' = set_is_skipping_to_end (is_skipping_to_end (scene w')) (scene w);
  dl_renderer : renderer w' = set_frames_made (frames_made (renderer w')) (renderer w);
  dl_active : active_scene (host w') = active_scene (host w);
  dl_source : current_slide_source (host w') = current_slide_source (host w);
  dl_stop_calls : stop_calls w' = stop_calls w;
  dl_update_calls : update_calls w' = update_calls w;
  dl_flag_kept : is_skipping_to_end (scene w) = true ->
                 is_skipping_to_end (scene w') = true;
  dl_flag_set : is_skipping_to_end (scene w') = true ->
                is_skipping_to_end (scene w) = true \/ active_scene (host w) = true;
  dl_trace : exists new, trace w' = trace w ++ new /\
                         Forall (delivery_event (presentation_state (scene w))) new
}.

(** A computation respects a relation when the world it leaves is always
    related to the world it found, however it ends. *)
Definition respects (R : World -> World -> Prop) {A} (m : M A) : Prop :=
  forall w, R w (fst (m w)).

(** What playing animation groups may put on the trace. *)
Definition play_event (ps : PresentationState) (e : Event) : Prop :=
  match e with
  | ELog _ | EDelay _ | EBlit _ | ECompile _ _ | EUpdateToTime _
  | ECloseProgression | EFinishAnimations => True
  | ECapture ps' _ _ | EGetFrame ps' _ => ps' = ps
  | _ => False
  end.

(** What playing animation groups leaves alone: the script and its
    generator, the presentation state, the end-of-script flag, which
    renderer the scene has and whether it is attached to the host, and the
    host's active scene. *)
Record play_rel (w w' : World) : Prop := mkPlay {
  pl_construct : construct (scene w') = construct (scene w);
  pl_generator : anim_generator (scene w') = anim_generator (scene w);
  pl_state : presentation_state (scene w') = presentation_state (scene w);
  pl_at_end : is_at_end (scene w') = is_at_end (scene w);
  pl_kind : kind (renderer w') = kind (renderer w);
  pl_id : renderer_id (renderer w') = renderer_id (renderer w);
  pl_attached : slideshow_host (renderer w') = slideshow_host (renderer w);
  pl_active : active_scene (host w') = active_scene (host w);
  pl_source : current_slide_source (host w') = current_slide_source (host w);
  pl_trace : exists new, trace w' = trace w ++ new /\
                         Forall (play_event (presentation_state (scene w))) new
}.



(** The active scene of a host, about to play the group [g]. *)
Definition playing_world (g : AnimationGroup) : World :=
  fst (compile_animation_data false (Some g)
         (fst (set_active_scene
                 (new_world (GeneratorFunction [] []) CairoLiveSlideshowRenderer 7)))).

(** The opening of [animate_to_next_subslide]: fast-forward flag and
    static background cleared, presentation state ANIMATING. *)
Definition entering_animation (w : World) : World :=
  with_scene (set_presentation_state ANIMATING)
    (with_renderer (set_static_image None)
       (with_scene (set_is_skipping_to_end false) w)).

(** The close of [animate_to_next_subslide] when a new IDLE phase begins:
    state IDLE, the mobjects updated with [dt = 0], the moving and static
    sets recomputed, the static snapshot drawn afresh and kept. *)
Definition idle_phase_begun (w : World) : World :=
  let n := frames_made (renderer w) in
  mkWorld (set_presentation_state IDLE (scene w))
          (set_static_image (Some n) (set_frames_made (S n) (renderer w)))
          (host w) (clock_reads w) (polls w) (stop_calls w) (update_calls w)
          (trace w ++ [EUpdateMobjects 0; EMovingAndStatic;
                       ECapture IDLE StaticMobjects (static_image (renderer w));
                       EGetFrame IDLE n]).

(** A live renderer that knows the host belongs to the host's active
    scene ([init_host] is only called by [set_active_scene]). *)
Definition renderer_wired (w : World) : Prop :=
  kind (renderer w) = CairoLiveSlideshowRenderer ->
  slideshow_host (renderer w) = true ->
  active_scene (host w) = true.


(** What a [next] on the generator puts on the trace when it returns. *)
Definition gen_events (r : res (option AnimationGroupEndAction)) : list Event :=
  match r with
  | Ok (Some tok) => [EGenYield tok]
  | Ok None => [EGenStop]
  | _ => []
  end.

(** The last lines of [animate_to_next_subslide] ("setup for IDLE
    state"), as a computation of their own. *)
Definition begin_idle_phase : M bool :=
  modify (with_scene (set_presentation_state IDLE)) ;;
  update_mobjects 0 ;;
  emit EMovingAndStatic ;;
  save_static_frame_data ;;
  ret true.

(** A presentation run: [animate_to_next_subslide] is called again and
    again until it returns [False] (within [calls] calls); the result is
    the number of calls that returned [True]. *)
Fixpoint present (env : Env) (calls fuel : nat) : M nat :=
  match calls with
  | O => out_of_fuel
  | S calls' =>
      more <- animate_to_next_subslide env fuel ;;
      if more then n <- present env calls' fuel ;; ret (S n)
      else ret O
  end.

(** Counting events of a kind in a stretch of trace. *)
Definition count_events (p : Event -> bool) (tr : list Event) : nat :=
  length (filter p tr).

Definition is_idle_entry (e : Event) : bool :=
  match e with EMovingAndStatic => true | _ => false end.

Definition is_subslide_yield (e : Event) : bool :=
  match e with EGenYield SUBSLIDE => true | _ => false end.

Definition is_exit_yield (e : Event) : bool :=
  match e with EGenYield EXIT => true | _ => false end.

(** The tokens a generator has yet to yield. *)
Definition pending_tokens (g : Generator) : list AnimationGroupEndAction :=
  match g with
  | Suspended segs _ => map seg_token segs
  | Finished => []
  end.

(** From the pending tokens: the IDLE phases still to come, the SUBSLIDE
    tokens that will be yielded, and whether EXIT will be. *)
Fixpoint idle_phases_to_come (toks : list AnimationGroupEndAction) (at_end : bool)
  : nat :=
  match toks with
  | [] => if at_end then 0 else 1
  | EXIT :: _ => 0
  | SUBSLIDE :: toks' => S (idle_phases_to_come toks' at_end)
  end.

Fixpoint subslides_to_come (toks : list AnimationGroupEndAction) : nat :=
  match toks with
  | [] => 0
  | EXIT :: _ => 0
  | SUBSLIDE :: toks' => S (subslides_to_come toks')
  end.

Fixpoint exit_to_come (toks : list AnimationGroupEndAction) : bool :=
  match toks with
  | [] => false
  | EXIT :: _ => true
  | SUBSLIDE :: toks' => exit_to_come toks'
  end.

(** A scene made active and started, as [SlideshowHost.run] does. *)
Definition started_world (c : Construct) : World :=
  fst (start_render quiet_env
         (fst (set_active_scene (new_world c CairoLiveSlideshowRenderer 7)))).

(** A script of two one-second groups with one [yield self.subslide()]
    between them. *)
Definition two_group_script : Construct :=
  GeneratorFunction [mkSegment [Some (mkGroup 1 false)] SUBSLIDE]
                    [Some (mkGroup 1 false)].

(** The treatment of plain scripts as the specification words it: the
    presentation ends as if the script had signalled EXIT, without a
    closing IDLE phase. *)
Definition plain_script_ends_like_exit
    (env : Env) (calls fuel : nat) (body : list PlayCall) : Prop :=
  forall w1 w' n,
    start_render env
      (fst (set_active_scene
              (new_world (PlainFunction body) CairoLiveSlideshowRenderer 7)))
    = (w1, Ok tt) ->
    present env calls fuel w1 = (w', Ok n) ->
    n = 0%nat.

(** A plain [construct] with a single one-second group. *)
Definition one_group_method : Construct := PlainFunction [Some (mkGroup 1 false)].

(** The rasterization events of a stretch of trace all happen in a
    presentation state satisfying [P]. *)
Definition frame_state_is (P : PresentationState -> Prop) (e : Event) : Prop :=
  match e with
  | ECapture ps _ _ | EGetFrame ps _ => P ps
  | _ => True
  end.

(** The invariant of the specification: no frame is made for a scene
    whose presentation state is NOT_READY. *)
Definition no_frame_while_not_ready (tr : list Event) : Prop :=
  Forall (frame_state_is (fun ps => ps <> NOT_READY)) tr.

(** The scene has left NOT_READY and no frame was made for it before. *)
Definition ready (w : World) : Prop :=
  presentation_state (scene w) <> NOT_READY /\
  no_frame_while_not_ready (trace w).

(** No frame was made for a NOT_READY scene so far. *)
Definition quiet (w : World) : Prop := no_frame_while_not_ready (trace w).

(** From worlds satisfying [P], the computation leaves worlds satisfying
    [Q], however it ends. *)
Definition hoare {A} (P : World -> Prop) (m : M A) (Q : World -> Prop) : Prop :=
  forall w, P w -> Q (fst (m w)).

(** The script as [SlideScene.render] runs it in place of [construct]. *)
Definition rendered_script (env : Env) (fuel : nat) (c : Construct) : M unit :=
  match c with
  | GeneratorFunction segs rest => render_wrapper env fuel segs rest
  | PlainFunction body => run_plays env fuel body
  end.

(** The prerender pass of an empty generator script. *)
Definition prerendered_world : World :=
  fst (prerender quiet_env 5 (GeneratorFunction [] []) 9
         (new_world (GeneratorFunction [] []) DummySlideRenderer 9)).

(** A script none of whose plays has anything to animate. *)
Definition static_script (segs : list Segment) (rest : list PlayCall) : Prop :=
  Forall (fun seg => Forall (fun p => p = None) (seg_plays seg)) segs /\
  Forall (fun p => p = None) rest.

(** ** Vocabulary of the further properties *)

(** The world after a poll of the event queue. *)
Definition polled (w : World) : World :=
  mkWorld (scene w) (renderer w) (host w)
          (clock_reads w) (S (polls w)) (stop_calls w) (update_calls w) (trace w).

(** A key press that [sieve_events] turns into ADVANCE. *)
Definition advancing_key (env : Env) (e : RawEvent) : bool :=
  match e with
  | SDL_KEYDOWN wid sym =>
      Z.eqb wid (window_id env) &&
      match sym with SDLK_OTHER => false | _ => true end
  | _ => false
  end.

Definition is_quit (e : RawEvent) : bool :=
  match e with SDL_QUIT => true | _ => false end.

(** Consecutive pacing calls, as the idle loop and the delivery of frames
    make them; the result lists what they returned. *)
Fixpoint pace (env : Env) (n : nat) : M (list Q) :=
  match n with
  | O => ret []
  | S n' =>
      dt <- update_framerate_clock env ;;
      dts <- pace env n' ;;
      ret (dt :: dts)
  end.

Definition Qsum (l : list Q) : Q := fold_right Qplus 0 l.

(** The body of the event pump of [update_with_rendered_frame]. *)
Definition pump_event (evt : SlideshowEvent) : M unit :=
  match evt with
  | EV_EXIT => emit (ELog LCritical)
  | EV_ADVANCE =>
      emit (ELog LInfo) ;;
      w1 <- get ;;
      if active_scene (host w1) then skip_to_next_idle_phase
      else raise AttributeError
  | EV_PREVIOUS => ret tt
  end.

(** What the pump logs for the events it is given. *)
Definition pump_log (evts : list SlideshowEvent) : list Event :=
  flat_map (fun evt =>
              match evt with
              | EV_EXIT => [ELog LCritical]
              | EV_ADVANCE => [ELog LInfo]
              | EV_PREVIOUS => []
              end) evts.

Definition is_advance (evt : SlideshowEvent) : bool :=
  match evt with EV_ADVANCE => true | _ => false end.

(** [n] idle frame steps in a row. *)
Fixpoint idle_frames (env : Env) (n : nat) : M unit :=
  match n with
  | O => ret tt
  | S n' => render_idle_frame env ;; idle_frames env n'
  end.

(** Every rasterization of a stretch of trace draws the moving mobjects,
    in state [ps], over the background [bg]. *)
Definition painted_over (ps : PresentationState) (bg : option Frame) (e : Event) : Prop :=
  match e with
  | ECapture ps' m bg' => ps' = ps /\ m = MovingMobjects /\ bg' = bg
  | EGetFrame ps' _ => ps' = ps
  | _ => True
  end.


(** Events of the animation engine proper: moving the objects along,
    closing the progress display, finishing the animations. *)
Definition is_engine_event (e : Event) : bool :=
  match e with
  | EUpdateToTime _ | ECloseProgression | EFinishAnimations => true
  | _ => false
  end.

Definition is_compile (e : Event) : bool :=
  match e with ECompile _ _ => true | _ => false end.

(** The compilations the headless renderer asks for, when [n] plays came
    before: only the very first play of a scene is compiled for rendering. *)
Fixpoint dummy_compiles (n : nat) (ps : list PlayCall) : list Event :=
  match ps with
  | [] => []
  | p :: ps' => ECompile (negb (Nat.eqb n 0)) p :: dummy_compiles (S n) ps'
  end.

(** Events that reach the window or the log. *)
Definition is_window_event (e : Event) : bool :=
  match e with
  | EBlit _ | EDelay _ | ELog _ | EWindowShow => true
  | _ => false
  end.

(** The scene of a running slideshow, fast-forwarding. *)
Definition fast_forwarding (w : World) : Prop :=
  kind (renderer w) = CairoLiveSlideshowRenderer /\
  slideshow_host (renderer w) = true /\
  active_scene (host w) = true /\
  is_skipping_to_end (scene w) = true.

(** The scene of a running slideshow: a live renderer attached to the
    host, the scene active, its script started. *)
Definition running (w : World) : Prop :=
  kind (renderer w) = CairoLiveSlideshowRenderer /\
  slideshow_host (renderer w) = true /\
  active_scene (host w) = true /\
  anim_generator (scene w) <> None.

(** From running worlds the computation leaves running worlds, and the
    only exception that escapes it is [ZeroDivisionError]. *)
Definition only_zero_division {A} (m : M A) : Prop :=
  forall w, running w ->
    running (fst (m w)) /\
    forall e, snd (m w) = Raise e -> e = ZeroDivisionError.

(** The world in which [SlideshowHost.run] starts its first slide: fresh
    scene and live renderer, the window shown, the scene made active. *)
Definition activated (c : Construct) (i : Z) (w : World) : World :=
  with_trace (ELog LInfo)
    (with_host (set_current_slide_source (Some i))
       (with_renderer (set_slideshow_host true)
          (with_host (set_active_scene_field true)
             (with_trace EWindowShow
                (with_renderer (fun _ => new_renderer CairoLiveSlideshowRenderer i)
                   (with_scene (fun _ => new_scene c) w)))))).

(** The plays of the video render of a generator script, in order: the
    plays of each stretch, a wait after every SUBSLIDE and after the end of
    the script, nothing after the first EXIT. *)
Fixpoint video_plays (env : Env) (segs : list Segment) (rest : list PlayCall)
  : list PlayCall :=
  match segs with
  | [] => rest ++ [compile_wait env NON_SLIDESHOW_SUBSLIDE_DELAY]
  | seg :: segs' =>
      seg_plays seg ++
      match seg_token seg with
      | EXIT => []
      | SUBSLIDE =>
          compile_wait env NON_SLIDESHOW_SUBSLIDE_DELAY :: video_plays env segs' rest
      end
  end.

(** The plays of the script itself, up to its first EXIT. *)
Fixpoint script_plays (segs : list Segment) (rest : list PlayCall) : list PlayCall :=
  match segs with
  | [] => rest
  | seg :: segs' =>
      seg_plays seg ++
      match seg_token seg with
      | EXIT => []
      | SUBSLIDE => script_plays segs' rest
      end
  end.

(** The computation never turns the clock back, keeps the duration of the
    group being played, and cannot run out of fuel. *)
Definition steady {A} (m : M A) : Prop :=
  forall w,
    (clock_reads w <= clock_reads (fst (m w)))%nat /\
    duration (scene (fst (m w))) = duration (scene w) /\
    snd (m w) <> OutOfFuel.

(** A play whose group, if any, lasts at most [bound] seconds. *)
Definition play_within (bound : Q) (p : PlayCall) : Prop :=
  match p with
  | Some g => group_duration g <= bound
  | None => True
  end.

(** A script all of whose plays last at most [bound] seconds. *)
Definition script_within (bound : Q) (segs : list Segment) (rest : list PlayCall) : Prop :=
  Forall (fun seg => Forall (play_within bound) (seg_plays seg)) segs /\
  Forall (play_within bound) rest.

(** The same of the script a generator has yet to run. *)
Definition generator_within (bound : Q) (g : Generator) : Prop :=
  match g with
  | Suspended segs rest => script_within bound segs rest
  | Finished => True
  end.

(** How many calls of [animate_to_next_subslide] a presentation can still
    take, at most, before one returns [False]. *)
Definition calls_to_come (g : Generator) (at_end : bool) : nat :=
  match g with
  | Suspended segs _ => length segs + 2
  | Finished => if at_end then 1 else 2
  end.

(** A live scene made active, as [run] does before starting it. *)
Definition active_world : World :=
  fst (set_active_scene (new_world (GeneratorFunction [] []) CairoLiveSlideshowRenderer 7)).

(** An outside world in which the window is being closed at every poll. *)
Definition quitting_env : Env :=
  mkEnv (fun n => (Z.of_nat n + 1) # 2) (fun _ => [SDL_QUIT; SDL_OTHER])
        (fun _ => false) (fun _ => false) (fun d => Some (mkGroup d false))
        60 1 false true.

(** An outside world whose clock stands still. *)
Definition frozen_env : Env :=
  mkEnv (fun _ => 0) (fun _ => []) (fun _ => false)
        (fun _ => false) (fun d => Some (mkGroup d false)) 60 1 false true.

(** A script of two stretches without any play. *)
Definition still_script : Construct :=
  GeneratorFunction [mkSegment [] subslide; mkSegment [] subslide] [].


(** A script of one group and one [yield]. *)
Definition one_group_script : Construct :=
  GeneratorFunction [mkSegment [Some (mkGroup 1 false)] subslide] [].

(** A scene whose script ran to its end before. *)
Definition finished_world : World :=
  with_scene (set_is_at_end true) (started_world two_group_script).

(** A script that yields [self.advance()] and then [self.subslide()]. *)
Definition leaving_script : Construct :=
  GeneratorFunction [mkSegment [] advance; mkSegment [] subslide] [].

(** An outside world in which instances have no [__qualname__]. *)
Definition bare_env : Env :=
  mkEnv (fun n => (Z.of_nat n + 1) # 2) (fun _ => []) (fun _ => false)
        (fun _ => false) (fun d => Some (mkGroup d false)) 60 1 false false.

(** The active scene with the fast-forward flag up. *)
Definition skipping_world : World :=
  with_scene (set_is_skipping_to_end true) active_world.

(** * Properties *)

(** ** Tools *)

Lemma Qlt_bool_iff (a b : Q) : Qlt_bool a b = true <-> a < b.
Proof.
  unfold Qlt_bool. rewrite negb_true_iff. split; intro H.
  - apply Qnot_le_lt. intro L. apply Qle_bool_iff in L. congruence.
  - destruct (Qle_bool b a) eqn:E; [|reflexivity].
    apply Qle_bool_iff in E. exfalso. exact (Qlt_not_le _ _ H E).
Qed.

Lemma py_int_nonneg (x : Q) : 0 <= x -> (0 <= py_int x)%Z.
Proof.
  unfold py_int, Qle. simpl. intro H.
  apply Z.quot_pos; lia.
Qed.

Lemma py_int_below (x : Q) : 0 <= x -> inject_Z (py_int x) <= x.
Proof.
  unfold py_int, Qle. simpl. intro H.
  rewrite Z.quot_div_nonneg by lia.
  rewrite Z.mul_1_r, Z.mul_comm.
  apply Z.mul_div_le. lia.
Qed.

Lemma py_int_above (x : Q) : 0 <= x -> x < inject_Z (py_int x) + 1.
Proof.
  unfold py_int, Qle, Qlt, Qplus, inject_Z. simpl. intro H.
  rewrite Z.quot_div_nonneg by lia.
  rewrite !Z.mul_1_r in *.
  pose proof (Z.mul_succ_div_gt (Qnum x) (Zpos (Qden x))) as G.
  lia.
Qed.

(** Running a sequence: the three ways its first part can end. *)
Lemma bind_run {A B} (m : M A) (k : A -> M B) (w : World) :
  bind m k w =
  match m w with
  | (w1, Ok a) => k a w1
  | (w1, Raise e) => (w1, Raise e)
  | (w1, OutOfFuel) => (w1, OutOfFuel)
  end.
Proof. reflexivity. Qed.

(** ** The frame-pacing clock *)

Section Pacing.

Variable env : Env.

(** The first pacing call records the time and does nothing else. *)
Lemma update_framerate_clock_first (w : World) :
  last_frame_at (host w) = None ->
  update_framerate_clock env w =
  (with_host (set_last_frame_at (Some (clock env (clock_reads w)))) (ticked w), Ok 0).
Proof.
  intro H. unfold update_framerate_clock. rewrite bind_run. simpl.
  rewrite H. reflexivity.
Qed.

(** The average is untouched when the elapsed time is zero, and is the
    weighted sum with 0.1 on the old value otherwise, whatever happens
    afterwards. *)
Lemma update_framerate_clock_avg (w : World) (last : Q) :
  last_frame_at (host w) = Some last ->
  avg_fps (host (fst (update_framerate_clock env w))) =
  if Qeq_bool (clock env (clock_reads w) - last) 0 then avg_fps (host w)
  else (1 # 10) * avg_fps (host w)
       + (9 # 10) * (1 / (clock env (clock_reads w) - last)).
Proof.
  intro H. unfold update_framerate_clock. rewrite bind_run. simpl.
  rewrite H. unfold bind, py_div, time_time. simpl.
  destruct (Qeq_bool (clock env (clock_reads w) - last) 0); simpl; [reflexivity|].
  destruct (Qeq_bool (frame_rate env) 0); simpl; [reflexivity|].
  destruct (Qlt_bool _ _); reflexivity.
Qed.

Lemma update_framerate_clock_trace (w : World) (last : Q) :
  last_frame_at (host w) = Some last ->
  trace (fst (update_framerate_clock env w)) =
  trace w ++ pacing_events env (clock env (clock_reads w) - last).
Proof.
  intro H. unfold update_framerate_clock, pacing_events. rewrite bind_run. simpl.
  rewrite H. unfold bind, py_div, time_time. simpl.
  destruct (Qeq_bool (clock env (clock_reads w) - last) 0); simpl;
    [now rewrite app_nil_r|].
  destruct (Qeq_bool (frame_rate env) 0); simpl; [reflexivity|].
  destruct (Qlt_bool _ _); simpl; [|reflexivity].
  now rewrite <- app_assoc.
Qed.

End Pacing.

(** ** Claims about the pacing clock *)

Section PacingClaims.

Variable env : Env.

(** C4 (as the code has it).  On every call of [update_framerate_clock]
    but the first, with elapsed time [e = now - last_frame_at]: if [e] is
    zero the division raises [ZeroDivisionError] and the estimate is kept;
    otherwise the estimate becomes [0.1 * avg + 0.9 * (1/e)], that is,
    weight 0.9 on the new inverted-elapsed sample and 0.1 on the old
    estimate. *)
Theorem update_framerate_clock_moving_average (w : World) (last : Q) :
  last_frame_at (host w) = Some last ->
  let e := clock env (clock_reads w) - last in
  (e == 0 ->
   snd (update_framerate_clock env w) = Raise ZeroDivisionError /\
   avg_fps (host (fst (update_framerate_clock env w))) = avg_fps (host w)) /\
  (~ e == 0 ->
   avg_fps (host (fst (update_framerate_clock env w))) =
   (1 # 10) * avg_fps (host w) + (9 # 10) * (1 / e)).
Proof.
  intros H e. pose proof (update_framerate_clock_avg env w last H) as A.
  fold e in A. split; intro E.
  - apply Qeq_bool_iff in E. rewrite E in A. split; [|exact A].
    unfold update_framerate_clock. rewrite bind_run. simpl. rewrite H.
    unfold bind, py_div, time_time. simpl. fold e. now rewrite E.
  - destruct (Qeq_bool e 0) eqn:B; [|exact A].
    apply Qeq_bool_iff in B. contradiction.
Qed.

(** C7.  The first call of [update_framerate_clock] only reads the clock,
    records it and returns 0; every later call requests at most one delay,
    and only when the elapsed time is strictly below the frame period
    [1/frame_rate]; the delay is [int((period - elapsed) * 1000)]
    milliseconds, never negative.  It is at most one period provided the
    clock did not run backwards between the two calls; when the clock was
    set back by a millisecond or more, the delay is longer than a
    period. *)
Theorem update_framerate_clock_delay (w : World) :
  match last_frame_at (host w) with
  | None =>
      update_framerate_clock env w =
      (with_host (set_last_frame_at (Some (clock env (clock_reads w)))) (ticked w),
       Ok 0)
  | Some last =>
      let elapsed := clock env (clock_reads w) - last in
      let period := 1 / frame_rate env in
      exists new,
        trace (fst (update_framerate_clock env w)) = trace w ++ new /\
        (length (delays new) <= 1)%nat /\
        forall ms, In ms (delays new) ->
          ~ frame_rate env == 0 /\
          elapsed < period /\
          ms = py_int ((period - elapsed) * 1000) /\
          (0 <= ms)%Z /\
          (0 <= elapsed -> inject_Z ms <= period * 1000) /\
          (elapsed <= - (1 # 1000) -> period * 1000 < inject_Z ms)
  end.
Proof.
  destruct (last_frame_at (host w)) as [last|] eqn:H.
  - cbv zeta. exists (pacing_events env (clock env (clock_reads w) - last)).
    split; [now apply update_framerate_clock_trace|].
    unfold pacing_events.
    set (e := clock env (clock_reads w) - last).
    destruct (Qeq_bool e 0); [simpl; split; [lia|tauto]|].
    destruct (Qeq_bool (frame_rate env) 0) eqn:F; [simpl; split; [lia|tauto]|].
    destruct (Qlt_bool e (1 / frame_rate env)) eqn:L; [|simpl; split; [lia|tauto]].
    simpl. split; [lia|]. intros ms [<-|[]].
    apply Qlt_bool_iff in L.
    assert (P : 0 <= (1 / frame_rate env - e) * 1000).
    { apply Qmult_le_0_compat; [|discriminate].
      apply Qlt_le_weak. unfold Qminus. rewrite <- Qlt_minus_iff. exact L. }
    repeat split.
    + intro Z0. apply Qeq_bool_iff in Z0. congruence.
    + exact L.
    + now apply py_int_nonneg.
    + intro E. eapply Qle_trans; [now apply py_int_below|].
      apply Qmult_le_compat_r; [|discriminate].
      rewrite <- (Qplus_0_r (1 / frame_rate env)) at 2.
      unfold Qminus. apply Qplus_le_r.
      apply (Qopp_le_compat 0 e) in E. exact E.
    + intro E. pose proof (py_int_above _ P) as A.
      apply Qplus_lt_l with (z := 1).
      eapply Qle_lt_trans; [|exact A].
      apply Qle_trans with ((1 / frame_rate env + (1 # 1000)) * 1000).
      * rewrite Qmult_plus_distr_l. apply Qplus_le_r. discriminate.
      * apply Qmult_le_compat_r; [|discriminate].
        unfold Qminus. apply Qplus_le_r.
        apply Qopp_le_compat in E. rewrite Qopp_involutive in E. exact E.
  - now apply update_framerate_clock_first.
Qed.

End PacingClaims.

(** The moving average of the specification's wording fails already for
    an estimate of 1 and half a second elapsed: the code gives 19/10, the
    wording 11/10. *)
Lemma average_weighs_new_sample_one_tenth_fails :
  ~ average_weighs_new_sample_one_tenth quiet_env paced_world.
Proof.
  intro H. specialize (H 0 eq_refl).
  assert (N : ~ clock quiet_env (clock_reads paced_world) - 0 == 0) by discriminate.
  specialize (H N). vm_compute in H. discriminate.
Qed.

(** One millisecond after the last frame, at 60 frames per second, the
    pacing call waits for [int((1/60 - 1/1000) * 1000) = 15] ms. *)
Lemma update_framerate_clock_delay_witness :
  exists new,
    trace (fst (update_framerate_clock brisk_env paced_world))
    = trace paced_world ++ new /\
    delays new = [15%Z] /\
    (inject_Z 15 <= (1 / frame_rate brisk_env) * 1000)%Q.
Proof.
  pose proof (update_framerate_clock_delay brisk_env paced_world) as H.
  change (last_frame_at (host paced_world)) with (Some 0) in H.
  cbv beta iota zeta in H.
  destruct H as (new & T & _ & B).
  exists new. split; [exact T|].
  assert (N : new = [ELog LDebug; EDelay 15]).
  { apply (app_inv_head (trace paced_world)). rewrite <- T.
    vm_compute. reflexivity. }
  subst new. split; [reflexivity|].
  refine (proj1 (proj2 (proj2 (proj2 (proj2 (B 15%Z _))))) _).
  - left. reflexivity.
  - discriminate.
Defined.

(** With the clock set back by 60 seconds the pacing call asks for a delay
    of [int((1/60 + 60) * 1000) = 60016] ms, against a period of under
    17 ms. *)
Lemma delay_is_a_remainder_of_the_period_fails :
  ~ delay_is_a_remainder_of_the_period rewound_env late_world.
Proof.
  intro H. destruct (H [ELog LDebug; EDelay 60016] 60016%Z) as [_ B].
  - vm_compute. reflexivity.
  - left. reflexivity.
  - vm_compute in B. now apply B.
Qed.

Lemma update_framerate_clock_moving_average_witness :
  last_frame_at (host paced_world) = Some 0 /\
  avg_fps (host (fst (update_framerate_clock quiet_env paced_world))) =
  (1 # 10) * avg_fps (host paced_world) + (9 # 10) * (1 / ((1 # 2) - 0)).
Proof.
  split; [reflexivity|].
  apply (update_framerate_clock_moving_average quiet_env paced_world 0 eq_refl).
  discriminate.
Defined.

(** ** The host: delivery and the idle frame *)

Section Host.

Variable env : Env.

(** Pacing touches the clock position, [last_frame_at], [avg_fps] and the
    trace, and nothing else. *)
Lemma update_framerate_clock_cases (w : World) :
  exists h' n' r,
    update_framerate_clock env w =
    (mkWorld (scene w) (renderer w) h' n' (polls w) (stop_calls w)
             (update_calls w) (trace w ++ pacing_trace env w), r) /\
    current_slide_source h' = current_slide_source (host w) /\
    active_scene h' = active_scene (host w) /\
    last_frame_data h' = last_frame_data (host w) /\
    (if pacing_returns env w then exists dt, r = Ok dt /\ last_frame_at h' <> None
     else r = Raise ZeroDivisionError).
Proof.
  unfold update_framerate_clock, pacing_trace, pacing_returns, pacing_events.
  rewrite bind_run. simpl.
  destruct (last_frame_at (host w)) as [last|].
  - unfold bind, py_div, time_time. simpl.
    destruct (Qeq_bool (clock env (clock_reads w) - last) 0); simpl.
    { do 3 eexists. rewrite app_nil_r. repeat split. }
    destruct (Qeq_bool (frame_rate env) 0); simpl.
    { do 3 eexists. repeat split. }
    destruct (Qlt_bool _ _); simpl.
    + do 3 eexists. rewrite <- app_assoc. simpl. repeat split.
      eexists. split; [reflexivity|discriminate].
    + do 3 eexists. repeat split.
      eexists. split; [reflexivity|discriminate].
  - unfold bind, time_time. simpl.
    do 3 eexists. rewrite app_nil_r. repeat split.
    eexists. split; [reflexivity|discriminate].
Qed.

Lemma pacing_events_no_rasterization (e : Q) :
  forallb (fun ev => negb (is_rasterization ev)) (pacing_events env e) = true.
Proof.
  unfold pacing_events.
  destruct (Qeq_bool e 0); [reflexivity|].
  destruct (Qeq_bool (frame_rate env) 0); [reflexivity|].
  destruct (Qlt_bool _ _); reflexivity.
Qed.

Lemma pacing_trace_no_rasterization (w : World) :
  forallb (fun ev => negb (is_rasterization ev)) (pacing_trace env w) = true.
Proof.
  unfold pacing_trace. destruct (last_frame_at (host w)); [|reflexivity].
  apply pacing_events_no_rasterization.
Qed.

(** [skip_animations] only reads. *)
Lemma skip_animations_run (w : World) :
  skip_animations w =
  (w, match kind (renderer w) with
      | DummySlideRenderer => Ok true
      | CairoLiveSlideshowRenderer =>
          if slideshow_host (renderer w) then
            if active_scene (host w) then Ok (is_skipping_to_end (scene w))
            else Raise AttributeError
          else Ok false
      end).
Proof.
  unfold skip_animations. rewrite bind_run. simpl.
  destruct (kind (renderer w)); [reflexivity|].
  destruct (slideshow_host (renderer w)); [|reflexivity].
  destruct (active_scene (host w)); reflexivity.
Qed.

(** [update_frame] as the sources call it (never skippable): it reaches
    the camera unless reading the skip flag fails. *)
Lemma update_frame_run (m : MobjectsArg) (w : World) :
  update_frame m true w =
  match snd (skip_animations w) with
  | Ok _ => (with_trace (ECapture (presentation_state (scene w)) m
                                  (static_image (renderer w))) w, Ok tt)
  | Raise e => (w, Raise e)
  | OutOfFuel => (w, OutOfFuel)
  end.
Proof.
  unfold update_frame. rewrite bind_run, skip_animations_run. simpl.
  destruct (kind (renderer w)).
  - reflexivity.
  - destruct (slideshow_host (renderer w)); [|reflexivity].
    destruct (active_scene (host w)); [|reflexivity].
    rewrite bind_run. simpl. now rewrite andb_false_r.
Qed.

Lemma get_frame_run (w : World) :
  get_frame w =
  (with_trace (EGetFrame (presentation_state (scene w)) (frames_made (renderer w)))
     (with_renderer (set_frames_made (S (frames_made (renderer w)))) w),
   Ok (frames_made (renderer w))).
Proof. reflexivity. Qed.

(** The redrawing branch of the idle frame step. *)
Lemma redraw_returns (b : bool) (wa w1 : World) :
  b = active_scene (host wa) ->
  ((if b then ret tt else raise AttributeError) ;;
   dt <- update_framerate_clock env ;;
   update_mobjects dt ;;
   update_frame MovingMobjects true ;;
   frame <- get_frame ;;
   send_frame_to_window frame ;;
   modify (with_host (set_last_frame_data (Some frame)))) wa = (w1, Ok tt) ->
  exists f tr,
    last_frame_data (host w1) = Some f /\ trace w1 = tr ++ [EBlit f] /\
    active_scene (host w1) = true.
Proof.
  intros Eb. rewrite bind_run.
  destruct b; simpl; [|discriminate].
  rewrite bind_run.
  destruct (update_framerate_clock_cases wa) as (ha & na & ra & Ua & _ & Aa & _ & Ra).
  rewrite Ua. rewrite <- Eb in Aa.
  destruct ra as [dt| |]; [|discriminate|discriminate].
  rewrite bind_run. unfold update_mobjects, emit, modify.
  rewrite bind_run, update_frame_run, skip_animations_run. cbn [snd].
  match goal with |- context [match ?r with Ok _ => _ | Raise _ => _ | OutOfFuel => _ end] =>
    destruct r as [sk| |] eqn:Sk end; [|discriminate|discriminate].
  rewrite bind_run, get_frame_run.
  unfold send_frame_to_window, emit, modify, bind. cbn.
  intro E. injection E as <-. cbn. do 2 eexists. repeat split. exact Aa.
Qed.

(** An idle frame step that returns leaves a cached frame, blitted last,
    and an active scene. *)
Lemma render_idle_frame_returns (w w1 : World) :
  render_idle_frame env w = (w1, Ok tt) ->
  exists f tr,
    last_frame_data (host w1) = Some f /\
    trace w1 = tr ++ [EBlit f] /\
    active_scene (host w1) = true.
Proof.
  unfold render_idle_frame. rewrite bind_run. simpl.
  destruct (last_frame_data (host w)) as [f0|] eqn:L.
  - destruct (active_scene (host w)) eqn:Act; [|discriminate].
    rewrite bind_run. unfold should_update_mobjects at 1.
    destruct (should_update_mobjects_result env (update_calls w)).
    + apply (redraw_returns true). cbn. now rewrite Act.
    + rewrite bind_run.
      match goal with |- context [update_framerate_clock env ?x] =>
        destruct (update_framerate_clock_cases x)
          as (hb & nb & rb & Ub & _ & Ab & Db & Rb); rewrite Ub end.
      cbn in Ab, Db.
      destruct rb as [dt| |]; [|discriminate|discriminate].
      rewrite bind_run. cbn. rewrite Db, L.
      unfold send_frame_to_window, emit, modify. intro E. injection E as <-.
      cbn. do 2 eexists. repeat split; [exact (eq_trans Db L)|].
      now rewrite Ab.
  - rewrite bind_run. unfold ret at 1. apply redraw_returns. reflexivity.
Qed.

End Host.

Section HostClaims.

Variable env : Env.

(** C6.  A frame delivered by a source other than the host's current
    slide source is dropped before anything else happens: the call only
    logs a warning and returns.  The host ([last_frame_at], [avg_fps], the
    cached frame), the scene, the renderer and the read positions of the
    clock and of the event queue are unchanged, and the trace gains the
    warning only: no delay, no blit. *)
Theorem stale_frame_is_dropped (w : World) (slide_source : Z) (frame_data : Frame) :
  current_slide_source (host w) <> Some slide_source ->
  let w' := fst (update_with_rendered_frame env slide_source frame_data w) in
  snd (update_with_rendered_frame env slide_source frame_data w) = Ok tt /\
  host w' = host w /\
  scene w' = scene w /\
  renderer w' = renderer w /\
  polls w' = polls w /\
  clock_reads w' = clock_reads w /\
  trace w' = trace w ++ [ELog LWarn].
Proof.
  intro H.
  assert (O : other_source slide_source (host w) = true).
  { unfold other_source. destruct (current_slide_source (host w)) as [i|]; [|reflexivity].
    destruct (Z.eqb_spec slide_source i); [|reflexivity].
    subst. now elim H. }
  unfold update_with_rendered_frame. rewrite bind_run. cbn [get].
  rewrite O. cbn. repeat split.
Qed.

(** The reusing branch of the idle frame step, run. *)
Lemma render_idle_frame_reuse_run (w1 : World) (f : Frame) :
  last_frame_data (host w1) = Some f ->
  active_scene (host w1) = true ->
  should_update_mobjects_result env (update_calls w1) = false ->
  exists h' n',
    render_idle_frame env w1 =
    (mkWorld (scene w1) (renderer w1) h' n' (polls w1) (stop_calls w1)
             (S (update_calls w1))
             (trace w1 ++ pacing_trace env w1
                ++ (if pacing_returns env w1 then [EBlit f] else [])),
     if pacing_returns env w1 then Ok tt else Raise ZeroDivisionError) /\
    last_frame_data h' = Some f.
Proof.
  intros L A Hs.
  unfold render_idle_frame. rewrite bind_run. cbn [get].
  rewrite L, A. rewrite bind_run. unfold should_update_mobjects at 1.
  rewrite Hs. rewrite bind_run.
  match goal with |- context [update_framerate_clock env ?x] =>
    destruct (update_framerate_clock_cases env x)
      as (hb & nb & rb & Ub & _ & Ab & Db & Rb); rewrite Ub end.
  change (pacing_trace env (mkWorld (scene w1) (renderer w1) (host w1)
            (clock_reads w1) (polls w1) (stop_calls w1) (S (update_calls w1))
            (trace w1))) with (pacing_trace env w1) in *.
  change (pacing_returns env (mkWorld (scene w1) (renderer w1) (host w1)
            (clock_reads w1) (polls w1) (stop_calls w1) (S (update_calls w1))
            (trace w1))) with (pacing_returns env w1) in *.
  cbn in Db. cbn [trace scene renderer polls stop_calls update_calls].
  exists hb, nb. split; [|congruence].
  destruct (pacing_returns env w1).
  - destruct Rb as (dt & -> & _). rewrite bind_run. cbn [get].
    cbn [host]. rewrite Db, L. cbn.
    unfold send_frame_to_window, emit, modify, with_trace. cbn.
    now rewrite <- app_assoc.
  - subst rb. now rewrite app_nil_r.
Qed.

(** C8.  When an idle frame step has returned and the scene then reports
    that nothing needs updating, the next idle frame step makes no frame:
    the renderer is untouched and no rasterization event occurs.  It runs
    the pacing clock and, unless that raises [ZeroDivisionError], blits the
    very frame the first step blitted last and left in the cache. *)
Theorem render_idle_frame_reuses_frame (w0 w1 : World) :
  render_idle_frame env w0 = (w1, Ok tt) ->
  should_update_mobjects_result env (update_calls w1) = false ->
  exists f tr,
    last_frame_data (host w1) = Some f /\
    trace w1 = tr ++ [EBlit f] /\
    let w2 := fst (render_idle_frame env w1) in
    let new := pacing_trace env w1
               ++ (if pacing_returns env w1 then [EBlit f] else []) in
    trace w2 = trace w1 ++ new /\
    forallb (fun ev => negb (is_rasterization ev)) new = true /\
    renderer w2 = renderer w1 /\
    last_frame_data (host w2) = Some f /\
    snd (render_idle_frame env w1) =
      (if pacing_returns env w1 then Ok tt else Raise ZeroDivisionError).
Proof.
  intros R1 Hs.
  destruct (render_idle_frame_returns env w0 w1 R1) as (f & tr & L & T & A).
  exists f, tr. split; [exact L|]. split; [exact T|].
  destruct (render_idle_frame_reuse_run w1 f L A Hs) as (h' & n' & E & L').
  rewrite E. cbn. repeat split; [|exact L'].
  rewrite forallb_app, pacing_trace_no_rasterization.
  now destruct (pacing_returns env w1).
Qed.

End HostClaims.

Lemma stale_frame_is_dropped_witness :
  current_slide_source (host paced_world) <> Some 8%Z /\
  trace (fst (update_with_rendered_frame quiet_env 8 0%nat paced_world)) =
  trace paced_world ++ [ELog LWarn].
Proof.
  assert (H : current_slide_source (host paced_world) <> Some 8%Z) by discriminate.
  split; [exact H|].
  apply (stale_frame_is_dropped quiet_env paced_world 8%Z 0%nat H).
Defined.

Lemma render_idle_frame_reuses_frame_witness :
  render_idle_frame quiet_env attached_world = (idle_world, Ok tt) /\
  should_update_mobjects_result quiet_env (update_calls idle_world) = false /\
  exists f tr,
    last_frame_data (host idle_world) = Some f /\
    trace idle_world = tr ++ [EBlit f] /\
    trace (fst (render_idle_frame quiet_env idle_world)) =
    trace idle_world ++ [ELog LDebug; EBlit f].
Proof.
  split; [reflexivity|]. split; [reflexivity|].
  destruct (render_idle_frame_reuses_frame quiet_env attached_world idle_world
              eq_refl eq_refl)
    as (f & tr & L & T & H).
  exists f, tr. split; [exact L|]. split; [exact T|].
  exact (proj1 H).
Defined.

(** ** Relations respected by computations *)

Section Respects.

Variable R : World -> World -> Prop.
Hypothesis R_refl : forall w, R w w.
Hypothesis R_trans : forall w1 w2 w3, R w1 w2 -> R w2 w3 -> R w1 w3.

Lemma respects_ret {A} (a : A) : respects R (ret a).
Proof. intro w. apply R_refl. Qed.

Lemma respects_raise {A} (e : exn) : respects R (@raise A e).
Proof. intro w. apply R_refl. Qed.

Lemma respects_out_of_fuel {A} : respects R (@out_of_fuel A).
Proof. intro w. apply R_refl. Qed.

Lemma respects_bind {A B} (m : M A) (k : A -> M B) :
  respects R m -> (forall a, respects R (k a)) -> respects R (bind m k).
Proof.
  intros Hm Hk w. rewrite bind_run. specialize (Hm w).
  destruct (m w) as [w1 [a| |]]; cbn in *; try exact Hm.
  eapply R_trans; [exact Hm|apply Hk].
Qed.

Lemma respects_get {A} (k : World -> M A) :
  (forall w0, respects R (k w0)) -> respects R (bind get k).
Proof. intros H w. rewrite bind_run. cbn. apply H. Qed.

Lemma respects_modify (f : World -> World) :
  (forall w, R w (f w)) -> respects R (modify f).
Proof. intros H w. apply H. Qed.

Lemma respects_if {A} (b : bool) (m1 m2 : M A) :
  respects R m1 -> respects R m2 -> respects R (if b then m1 else m2).
Proof. now destruct b. Qed.

Lemma respects_for_each {A} (l : list A) (body : A -> M unit) :
  (forall x, respects R (body x)) -> respects R (for_each l body).
Proof.
  intro H. induction l as [|x l IH]; cbn [for_each].
  - apply respects_ret.
  - apply respects_bind; [apply H|intros _; exact IH].
Qed.

End Respects.

(** ** Delivery of frames *)

Lemma delivery_rel_refl (w : World) : delivery_rel w w.
Proof.
  constructor; try reflexivity; try tauto.
  - now destruct (scene w).
  - now destruct (renderer w).
  - exists []. now rewrite app_nil_r.
Qed.

Lemma delivery_rel_trans (w1 w2 w3 : World) :
  delivery_rel w1 w2 -> delivery_rel w2 w3 -> delivery_rel w1 w3.
Proof.
  intros [S1 R1 A1 C1 P1 U1 K1 F1 (n1 & T1 & E1)] [S2 R2 A2 C2 P2 U2 K2 F2 (n2 & T2 & E2)].
  constructor; try congruence; try tauto.
  - rewrite S2, S1. reflexivity.
  - rewrite R2, R1. reflexivity.
  - intro H. destruct (F2 H) as [H2|H2]; [auto|right; congruence].
  - exists (n1 ++ n2). rewrite T2, T1, app_assoc. split; [reflexivity|].
    apply Forall_app. split; [exact E1|].
    replace (presentation_state (scene w1)) with (presentation_state (scene w2));
      [exact E2|].
    rewrite S1. reflexivity.
Qed.

Section Delivery.

Variable env : Env.

Lemma delivery_rel_emit (e : Event) (w : World) :
  delivery_event (presentation_state (scene w)) e ->
  delivery_rel w (with_trace e w).
Proof.
  intro H. constructor; cbn; try reflexivity; try tauto.
  - now destruct (scene w).
  - now destruct (renderer w).
  - exists [e]. split; [reflexivity|]. now constructor.
Qed.

Lemma respects_delivery_emit (e : Event) :
  (forall ps, delivery_event ps e) -> respects delivery_rel (emit e).
Proof. intros H w. apply delivery_rel_emit, H. Qed.

Lemma respects_delivery_clock : respects delivery_rel (update_framerate_clock env).
Proof.
  intro w.
  destruct (update_framerate_clock_cases env w) as (h' & n' & r & U & C & A & _ & _).
  rewrite U. constructor; cbn; try reflexivity; try tauto; try assumption.
  - now destruct (scene w).
  - now destruct (renderer w).
  - eexists. split; [reflexivity|].
    unfold pacing_trace. destruct (last_frame_at (host w)); [|constructor].
    unfold pacing_events.
    destruct (Qeq_bool _ 0); [constructor|].
    destruct (Qeq_bool (frame_rate env) 0); [repeat constructor|].
    destruct (Qlt_bool _ _); repeat constructor.
Qed.

Lemma respects_delivery_sieve : respects delivery_rel (sieve_events env).
Proof.
  intro w. constructor; cbn; try reflexivity; try tauto.
  - now destruct (scene w).
  - now destruct (renderer w).
  - exists []. now rewrite app_nil_r.
Qed.

Lemma respects_delivery_skip_request :
  respects delivery_rel
    (w1 <- get ;;
     if active_scene (host w1) then skip_to_next_idle_phase
     else raise AttributeError).
Proof.
  intro w. rewrite bind_run. cbn [get].
  destruct (active_scene (host w)) eqn:A; [|apply delivery_rel_refl].
  constructor; cbn; try reflexivity; try tauto.
  - now destruct (renderer w).
  - exists []. now rewrite app_nil_r.
Qed.

Lemma respects_delivery_update_with_rendered_frame (src : Z) (frame : Frame) :
  respects delivery_rel (update_with_rendered_frame env src frame).
Proof.
  unfold update_with_rendered_frame.
  apply respects_get. intro w0.
  apply respects_if.
  - apply respects_delivery_emit. intro; exact I.
  - apply (respects_bind delivery_rel delivery_rel_trans); [apply respects_delivery_sieve|]. intro evts.
    apply (respects_bind delivery_rel delivery_rel_trans).
    + apply respects_for_each; [exact delivery_rel_refl|exact delivery_rel_trans|].
      intros [| |].
      * apply respects_delivery_emit. intro; exact I.
      * apply (respects_bind delivery_rel delivery_rel_trans); [apply respects_delivery_emit; intro; exact I|].
        intros _. apply respects_delivery_skip_request.
      * apply respects_ret. exact delivery_rel_refl.
    + intros _. apply (respects_bind delivery_rel delivery_rel_trans); [apply respects_delivery_clock|]. intros _.
      apply (respects_bind delivery_rel delivery_rel_trans); [apply respects_delivery_emit; intro; exact I|]. intros _.
      intro w. constructor; cbn; try reflexivity; try tauto.
      * now destruct (scene w).
      * now destruct (renderer w).
      * exists []. now rewrite app_nil_r.
Qed.

Lemma respects_delivery_skip_animations : respects delivery_rel skip_animations.
Proof. intro w. rewrite skip_animations_run. apply delivery_rel_refl. Qed.

Lemma respects_delivery_update_frame (m : MobjectsArg) :
  respects delivery_rel (update_frame m true).
Proof.
  intro w. rewrite update_frame_run.
  destruct (snd (skip_animations w)); cbn; try apply delivery_rel_refl.
  apply delivery_rel_emit. reflexivity.
Qed.

Lemma respects_delivery_get_frame : respects delivery_rel get_frame.
Proof.
  intro w. rewrite get_frame_run. constructor; cbn; try reflexivity; try tauto.
  - now destruct (scene w).
  - exists [EGetFrame (presentation_state (scene w)) (frames_made (renderer w))].
    split; [reflexivity|]. now constructor.
Qed.

Lemma respects_delivery_add_frame (frame : Frame) :
  respects delivery_rel (add_frame env frame).
Proof.
  unfold add_frame.
  apply (respects_bind delivery_rel delivery_rel_trans); [apply respects_delivery_skip_animations|]. intro skip.
  apply respects_if; [apply respects_ret; exact delivery_rel_refl|].
  apply respects_get. intro w0.
  apply respects_if; [apply respects_delivery_update_with_rendered_frame|].
  apply respects_raise. exact delivery_rel_refl.
Qed.

Lemma respects_delivery_render : respects delivery_rel (renderer_render env).
Proof.
  unfold renderer_render.
  apply respects_get. intro w0.
  destruct (kind (renderer w0)).
  - apply respects_raise. exact delivery_rel_refl.
  - apply (respects_bind delivery_rel delivery_rel_trans); [apply respects_delivery_update_frame|]. intros _.
    apply (respects_bind delivery_rel delivery_rel_trans); [apply respects_delivery_get_frame|]. intro f.
    apply respects_delivery_add_frame.
Qed.

End Delivery.

(** ** Playback *)

Lemma play_rel_refl (w : World) : play_rel w w.
Proof.
  constructor; try reflexivity. exists []. now rewrite app_nil_r.
Qed.

Lemma play_rel_trans (w1 w2 w3 : World) :
  play_rel w1 w2 -> play_rel w2 w3 -> play_rel w1 w3.
Proof.
  intros [C1 G1 S1 E1 K1 I1 H1 A1 O1 (n1 & T1 & F1)]
         [C2 G2 S2 E2 K2 I2 H2 A2 O2 (n2 & T2 & F2)].
  constructor; try congruence.
  exists (n1 ++ n2). rewrite T2, T1, app_assoc. split; [reflexivity|].
  apply Forall_app. split; [exact F1|]. now rewrite <- S1.
Qed.

Lemma delivery_event_play (ps : PresentationState) (e : Event) :
  delivery_event ps e -> play_event ps e.
Proof. destruct e; cbn; tauto. Qed.

Lemma delivery_rel_play (w w' : World) : delivery_rel w w' -> play_rel w w'.
Proof.
  intros [S1 R1 A1 C1 P1 U1 K1 F1 (n1 & T1 & E1)].
  constructor; try assumption; try (rewrite S1; reflexivity);
    try (rewrite R1; reflexivity).
  exists n1. split; [exact T1|].
  eapply Forall_impl; [|exact E1]. apply delivery_event_play.
Qed.

Lemma play_rel_emit (e : Event) (w : World) :
  play_event (presentation_state (scene w)) e -> play_rel w (with_trace e w).
Proof.
  intro H. constructor; try reflexivity.
  exists [e]. split; [reflexivity|]. now constructor.
Qed.

Section Playback.

Variable env : Env.

Lemma respects_play_delivery {A} (m : M A) :
  respects delivery_rel m -> respects play_rel m.
Proof. intros H w. apply delivery_rel_play, H. Qed.

Lemma respects_play_emit (e : Event) :
  (forall ps, play_event ps e) -> respects play_rel (emit e).
Proof. intros H w. apply play_rel_emit, H. Qed.

Lemma respects_play_quiet (f : World -> World) :
  (forall w, scene (f w) = scene w /\ renderer (f w) = renderer w /\
             host (f w) = host w /\ trace (f w) = trace w) ->
  forall w, play_rel w (f w).
Proof.
  intros H w. destruct (H w) as (Hs & Hr & Hh & Ht).
  constructor; rewrite ?Hs, ?Hr, ?Hh; try reflexivity.
  exists []. now rewrite Ht, app_nil_r.
Qed.

Lemma respects_play_time : respects play_rel (time_time env).
Proof. intro w. now apply (respects_play_quiet ticked). Qed.

Lemma respects_play_stop_condition : respects play_rel (call_stop_condition env).
Proof.
  intro w. cbn.
  now apply (respects_play_quiet (fun w =>
    mkWorld (scene w) (renderer w) (host w) (clock_reads w) (polls w)
            (S (stop_calls w)) (update_calls w) (trace w))).
Qed.

Lemma respects_play_update_to_time (t : Q) : respects play_rel (update_to_time t).
Proof.
  intro w. cbn. constructor; try reflexivity.
  exists [EUpdateToTime t]. split; [reflexivity|]. now constructor.
Qed.

Lemma respects_play_clear_static :
  respects play_rel (modify (with_renderer (set_static_image None))).
Proof.
  intro w. cbn. constructor; try reflexivity.
  exists []. now rewrite app_nil_r.
Qed.

Lemma respects_play_loop (fuel : nat) (skip_rendering : bool) (t_0 : Q) :
  forall t, respects play_rel (play_loop env fuel skip_rendering t_0 t).
Proof.
  induction fuel as [|fuel IH]; intro t; cbn [play_loop];
    apply respects_get; intro w0; apply respects_if;
    try (apply respects_ret; exact play_rel_refl).
  - apply respects_out_of_fuel. exact play_rel_refl.
  - apply (respects_bind play_rel play_rel_trans); [apply respects_play_time|]. intro now.
    apply (respects_bind play_rel play_rel_trans); [apply respects_play_update_to_time|]. intros _.
    apply (respects_bind play_rel play_rel_trans).
    { apply respects_if; [|apply respects_ret; exact play_rel_refl].
      apply respects_play_delivery, respects_delivery_render. }
    intros _. apply respects_get. intro w1.
    apply (respects_bind play_rel play_rel_trans).
    { apply respects_if; [apply respects_play_stop_condition|].
      apply respects_ret. exact play_rel_refl. }
    intro stop. apply respects_if.
    + apply (respects_bind play_rel play_rel_trans); [apply respects_play_emit; intro; exact I|].
      intros _. apply respects_ret. exact play_rel_refl.
    + apply (respects_bind play_rel play_rel_trans);
        [apply respects_play_delivery, respects_delivery_skip_animations|].
      intro skip. apply respects_if; [|apply IH].
      apply respects_ret. exact play_rel_refl.
Qed.

Lemma respects_play_internal (fuel : nat) (skip_rendering : bool) :
  respects play_rel (play_internal env fuel skip_rendering).
Proof.
  unfold play_internal.
  apply (respects_bind play_rel play_rel_trans); [apply respects_play_time|]. intro t_0.
  apply (respects_bind play_rel play_rel_trans); [apply respects_play_loop|]. intro need_last_run.
  apply (respects_bind play_rel play_rel_trans).
  { apply respects_if; [|apply respects_ret; exact play_rel_refl].
    apply respects_get. intro w0.
    apply (respects_bind play_rel play_rel_trans); [apply respects_play_update_to_time|]. intros _.
    apply respects_play_delivery, respects_delivery_render. }
  intros _. apply (respects_bind play_rel play_rel_trans); [apply respects_play_emit; intro; exact I|].
  intros _. apply respects_play_clear_static.
Qed.

Lemma respects_play_compile (skip_rendering : bool) (p : PlayCall) :
  respects play_rel (compile_animation_data skip_rendering p).
Proof.
  unfold compile_animation_data.
  apply (respects_bind play_rel play_rel_trans); [apply respects_play_emit; intro; exact I|]. intros _.
  destruct p as [g|]; [|apply respects_ret; exact play_rel_refl].
  apply (respects_bind play_rel play_rel_trans); [|intros _; apply respects_ret; exact play_rel_refl].
  intro w. cbn. constructor; try reflexivity.
  exists []. now rewrite app_nil_r.
Qed.

Lemma respects_play_renderer_play (fuel : nat) (p : PlayCall) :
  respects play_rel (renderer_play env fuel p).
Proof.
  unfold renderer_play. apply respects_get. intro w0.
  assert (H : forall sr sk,
    respects play_rel (s <- compile_animation_data sr p ;;
                       if s then play_internal env fuel sk else ret tt)).
  { intros sr sk. apply (respects_bind play_rel play_rel_trans); [apply respects_play_compile|]. intro s.
    apply respects_if; [apply respects_play_internal|].
    apply respects_ret. exact play_rel_refl. }
  destruct (kind (renderer w0)); [|apply H].
  apply (respects_bind play_rel play_rel_trans).
  { intro w. cbn. constructor; try reflexivity.
    exists []. now rewrite app_nil_r. }
  intros _. apply respects_get. intro w1.
  apply respects_if; apply H.
Qed.

Lemma respects_play_run_plays (fuel : nat) (ps : list PlayCall) :
  respects play_rel (run_plays env fuel ps).
Proof.
  apply respects_for_each; [exact play_rel_refl|exact play_rel_trans|].
  intro p. apply respects_play_renderer_play.
Qed.

End Playback.

(** ** Fast-forward *)

Section FastForward.

Variable env : Env.






(** A live render while fast-forwarding: the frame is drawn and fetched
    but not delivered. *)
Lemma render_while_skipping (w : World) :
  kind (renderer w) = CairoLiveSlideshowRenderer ->
  slideshow_host (renderer w) = true ->
  active_scene (host w) = true ->
  is_skipping_to_end (scene w) = true ->
  renderer_render env w =
  (with_trace (EGetFrame (presentation_state (scene w)) (frames_made (renderer w)))
     (with_renderer (set_frames_made (S (frames_made (renderer w))))
        (with_trace (ECapture (presentation_state (scene w)) MovingMobjects
                              (static_image (renderer w))) w)),
   Ok tt).
Proof.
  intros K H A F. unfold renderer_render. rewrite bind_run. cbn [get].
  rewrite K, bind_run, update_frame_run, skip_animations_run, K, H, A.
  cbn [snd]. rewrite bind_run, get_frame_run. unfold add_frame.
  rewrite bind_run, skip_animations_run. cbn. now rewrite K, H, A, F.
Qed.


End FastForward.



(** ** The script generator and the state machine *)

Section StateMachine.

Variable env : Env.

Lemma play_rel_wired (w w' : World) :
  play_rel w w' -> renderer_wired w -> renderer_wired w'.
Proof.
  intros [_ _ _ _ K _ H A _ _] W. unfold renderer_wired in *.
  rewrite K, H, A. exact W.
Qed.

(** A frame of the generator's body: what the plays leave alone, the
    generator frame leaves alone too, except the generator. *)
Lemma generator_frame_run_plays (fuel : nat) (ps : list PlayCall) (w : World) :
  exists wp,
    play_rel w wp /\
    (generator_frame (run_plays env fuel ps) w =
       (wp, snd (run_plays env fuel ps w)) \/
     exists e, snd (run_plays env fuel ps w) = Raise e /\
       generator_frame (run_plays env fuel ps) w =
       (with_scene (set_anim_generator (Some Finished)) wp, Raise e)).
Proof.
  pose proof (respects_play_run_plays env fuel ps w) as P.
  unfold generator_frame.
  destruct (run_plays env fuel ps w) as [wp [[]|e|]]; cbn [fst snd] in *;
    exists wp; (split; [exact P|]); eauto.
Qed.

(** The effect of [next(self.anim_generator)]. *)
Lemma gen_next_effect (fuel : nat) (w : World) :
  let wg := fst (gen_next env fuel w) in
  let rg := snd (gen_next env fuel w) in
  construct (scene wg) = construct (scene w) /\
  presentation_state (scene wg) = presentation_state (scene w) /\
  is_at_end (scene wg) = is_at_end (scene w) /\
  kind (renderer wg) = kind (renderer w) /\
  slideshow_host (renderer wg) = slideshow_host (renderer w) /\
  active_scene (host wg) = active_scene (host w) /\
  exists body,
    Forall (play_event (presentation_state (scene w))) body /\
    trace wg = trace w ++ body ++ gen_events rg.
Proof.
  unfold gen_next. rewrite bind_run. cbn [get].
  destruct (anim_generator (scene w)) as [[[|seg segs] rest|]|].
  - rewrite bind_run.
    destruct (generator_frame_run_plays fuel rest w)
      as (wp & [C G S E K I H A O (body & T & F)] & [R|(e & Re & R)]);
      rewrite R; [destruct (snd (run_plays env fuel rest w)) as [[]|e|]|];
      cbn; repeat (split; [assumption|]); exists body; (split; [exact F|]);
      rewrite T, ?app_nil_r; try reflexivity.
    now rewrite <- app_assoc.
  - rewrite bind_run.
    destruct (generator_frame_run_plays fuel (seg_plays seg) w)
      as (wp & [C G S E K I H A O (body & T & F)] & [R|(e & Re & R)]);
      rewrite R;
      [destruct (snd (run_plays env fuel (seg_plays seg) w)) as [[]|e|]|];
      cbn; repeat (split; [assumption|]); exists body; (split; [exact F|]);
      rewrite T, ?app_nil_r; try reflexivity.
    now rewrite <- app_assoc.
  - cbn. repeat (split; [reflexivity|]). exists []. split; [constructor|].
    reflexivity.
  - cbn. repeat (split; [reflexivity|]). exists []. split; [constructor|].
    now rewrite app_nil_r.
Qed.

(** [animate_to_next_subslide], by the outcome of the [next] it makes. *)
Lemma animate_run (fuel : nat) (w : World) :
  animate_to_next_subslide env fuel w =
  match gen_next env fuel (entering_animation w) with
  | (wg, Ok (Some SUBSLIDE)) => begin_idle_phase wg
  | (wg, Ok (Some EXIT)) => (wg, Ok false)
  | (wg, Ok None) =>
      if is_at_end (scene wg) then (wg, Ok false)
      else begin_idle_phase (with_scene (set_is_at_end true) wg)
  | (wg, Raise e) => (wg, Raise e)
  | (wg, OutOfFuel) => (wg, OutOfFuel)
  end.
Proof.
  unfold animate_to_next_subslide. do 3 (rewrite bind_run; cbn [modify]).
  rewrite bind_run. fold (entering_animation w).
  destruct (gen_next env fuel (entering_animation w)) as [wg [[[]|]|e|]];
    try reflexivity.
  rewrite bind_run, bind_run. cbn [get].
  destruct (is_at_end (scene wg)); reflexivity.
Qed.

(** Beginning an IDLE phase always succeeds for a wired renderer. *)
Lemma begin_idle_phase_run (w : World) :
  renderer_wired w -> begin_idle_phase w = (idle_phase_begun w, Ok true).
Proof.
  intro W. unfold begin_idle_phase.
  rewrite bind_run. cbn [modify]. rewrite bind_run. cbn [update_mobjects emit modify].
  rewrite bind_run. cbn [emit modify]. rewrite bind_run.
  unfold save_static_frame_data. rewrite bind_run, update_frame_run.
  assert (Sk : exists b, snd (skip_animations
     (with_trace EMovingAndStatic
        (with_trace (EUpdateMobjects 0)
           (with_scene (set_presentation_state IDLE) w)))) = Ok b).
  { rewrite skip_animations_run. cbn. unfold renderer_wired in W.
    destruct (kind (renderer w)); [eauto|].
    destruct (slideshow_host (renderer w)); [|eauto].
    rewrite W by reflexivity. eauto. }
  destruct Sk as [b ->]. rewrite bind_run, get_frame_run.
  unfold idle_phase_begun, ret, with_renderer, with_trace, with_scene. cbn.
  f_equal. f_equal. now rewrite <- !app_assoc.
Qed.

(** The [next] made by [animate_to_next_subslide]. *)
Lemma gen_next_entering (fuel : nat) (w : World) :
  let wg := fst (gen_next env fuel (entering_animation w)) in
  let rg := snd (gen_next env fuel (entering_animation w)) in
  presentation_state (scene wg) = ANIMATING /\
  is_at_end (scene wg) = is_at_end (scene w) /\
  (renderer_wired w -> renderer_wired wg) /\
  exists body,
    Forall (play_event ANIMATING) body /\
    trace wg = trace w ++ body ++ gen_events rg.
Proof.
  destruct (gen_next_effect fuel (entering_animation w))
    as (_ & S & E & K & H & A & body & F & T).
  cbv zeta. split; [exact S|]. split; [exact E|]. split.
  - intros W. unfold renderer_wired in *. rewrite K, H, A. exact W.
  - exists body. split; [exact F|exact T].
Qed.


(** C10.  For a wired renderer: [animate_to_next_subslide] returns [True]
    exactly when it leaves the presentation state IDLE, and then the
    mobjects were updated, the moving and static sets recomputed and the
    static snapshot drawn afresh and stored; in every other case, in
    particular when it returns [False], it leaves the state ANIMATING. *)
Theorem animate_to_next_subslide_final_state (fuel : nat) (w : World) :
  renderer_wired w ->
  let w' := fst (animate_to_next_subslide env fuel w) in
  let r := snd (animate_to_next_subslide env fuel w) in
  (r = Ok false -> presentation_state (scene w') = ANIMATING) /\
  (r = Ok true <-> presentation_state (scene w') = IDLE) /\
  (r <> Ok true -> presentation_state (scene w') = ANIMATING) /\
  (r = Ok true ->
   exists tr background f,
     static_image (renderer w') = Some f /\
     trace w' = tr ++ [EUpdateMobjects 0; EMovingAndStatic;
                       ECapture IDLE StaticMobjects background;
                       EGetFrame IDLE f]).
Proof.
  intro W. cbv zeta. rewrite animate_run.
  destruct (gen_next_entering fuel w) as (S & _ & Wg & _).
  specialize (Wg W).
  destruct (gen_next env fuel (entering_animation w)) as [wg rg].
  cbn [fst snd] in S, Wg.
  assert (Idle : forall wi, renderer_wired wi ->
    (Ok true = Ok false -> presentation_state (scene (idle_phase_begun wi)) = ANIMATING) /\
    (@Ok bool true = Ok true <-> presentation_state (scene (idle_phase_begun wi)) = IDLE) /\
    (@Ok bool true <> Ok true -> presentation_state (scene (idle_phase_begun wi)) = ANIMATING) /\
    (@Ok bool true = Ok true ->
     exists tr background f,
       static_image (renderer (idle_phase_begun wi)) = Some f /\
       trace (idle_phase_begun wi) =
       tr ++ [EUpdateMobjects 0; EMovingAndStatic;
              ECapture IDLE StaticMobjects background; EGetFrame IDLE f])).
  { intros wi _. repeat split; try discriminate; try congruence.
    intros _. do 3 eexists. split; reflexivity. }
  assert (Anim : forall r : res bool, r <> Ok true ->
    (r = Ok false -> presentation_state (scene wg) = ANIMATING) /\
    (r = Ok true <-> presentation_state (scene wg) = IDLE) /\
    (r <> Ok true -> presentation_state (scene wg) = ANIMATING) /\
    (r = Ok true ->
     exists tr background f,
       static_image (renderer wg) = Some f /\
       trace wg = tr ++ [EUpdateMobjects 0; EMovingAndStatic;
                         ECapture IDLE StaticMobjects background;
                         EGetFrame IDLE f])).
  { intros r N. repeat split; try (intros; exact S); try contradiction.
    rewrite S. discriminate. }
  destruct rg as [[[]|]|e|].
  - rewrite begin_idle_phase_run by exact Wg. cbn [fst snd]. now apply Idle.
  - cbn [fst snd]. apply Anim. discriminate.
  - destruct (is_at_end (scene wg)).
    + cbn [fst snd]. apply Anim. discriminate.
    + rewrite begin_idle_phase_run by exact Wg. cbn [fst snd]. now apply Idle.
  - cbn [fst snd]. apply Anim. discriminate.
  - cbn [fst snd]. apply Anim. discriminate.
Qed.


(** A finished generator raises [StopIteration] at once. *)
Lemma gen_next_finished (fuel : nat) (w : World) :
  anim_generator (scene w) = Some Finished ->
  gen_next env fuel w = (with_trace EGenStop w, Ok None).
Proof.
  intro G. unfold gen_next. rewrite bind_run. cbn [get]. now rewrite G.
Qed.

(** How [next] advances the generator. *)
Lemma gen_next_progress (fuel : nat) (w : World) (g : Generator) :
  anim_generator (scene w) = Some g ->
  match snd (gen_next env fuel w) with
  | Ok (Some tok) =>
      exists g', anim_generator (scene (fst (gen_next env fuel w))) = Some g' /\
                 pending_tokens g = tok :: pending_tokens g'
  | Ok None =>
      anim_generator (scene (fst (gen_next env fuel w))) = Some Finished /\
      pending_tokens g = []
  | _ => True
  end.
Proof.
  intro G. unfold gen_next. rewrite bind_run. cbn [get]. rewrite G.
  destruct g as [[|seg segs] rest|].
  - rewrite bind_run.
    destruct (generator_frame_run_plays fuel rest w)
      as (wp & _ & [R|(e & Re & R)]); rewrite R; [|exact I].
    destruct (snd (run_plays env fuel rest w)) as [[]|e|]; cbn; auto.
  - rewrite bind_run.
    destruct (generator_frame_run_plays fuel (seg_plays seg) w)
      as (wp & _ & [R|(e & Re & R)]); rewrite R; [|exact I].
    destruct (snd (run_plays env fuel (seg_plays seg) w)) as [[]|e|]; cbn; auto.
    exists (Suspended segs rest). split; reflexivity.
  - cbn. auto.
Qed.

Lemma count_events_app (p : Event -> bool) (a b : list Event) :
  count_events p (a ++ b) = (count_events p a + count_events p b)%nat.
Proof. unfold count_events. now rewrite filter_app, length_app. Qed.

Lemma count_events_body (p : Event -> bool) (ps : PresentationState)
      (body : list Event) :
  (forall e, p e = true -> ~ play_event ps e) ->
  Forall (play_event ps) body ->
  count_events p body = 0%nat.
Proof.
  intros H F. unfold count_events.
  induction F as [|e body He _ IH]; [reflexivity|]. cbn.
  destruct (p e) eqn:P; [|exact IH]. exfalso. exact (H e P He).
Qed.

Lemma existsb_body (p : Event -> bool) (ps : PresentationState)
      (body : list Event) :
  (forall e, p e = true -> ~ play_event ps e) ->
  Forall (play_event ps) body ->
  existsb p body = false.
Proof.
  intros H F. induction F as [|e body He _ IH]; [reflexivity|]. cbn.
  destruct (p e) eqn:P; [|exact IH]. exfalso. exact (H e P He).
Qed.

Lemma idle_entry_not_played ps e : is_idle_entry e = true -> ~ play_event ps e.
Proof. destruct e; cbn; try discriminate; tauto. Qed.

Lemma subslide_yield_not_played ps e :
  is_subslide_yield e = true -> ~ play_event ps e.
Proof. destruct e; cbn; try discriminate; tauto. Qed.

Lemma exit_yield_not_played ps e : is_exit_yield e = true -> ~ play_event ps e.
Proof. destruct e; cbn; try discriminate; tauto. Qed.

End StateMachine.

Section Presentation.

Variable env : Env.

Lemma present_counts (calls : nat) :
  forall fuel w w' n g,
    renderer_wired w ->
    anim_generator (scene w) = Some g ->
    present env calls fuel w = (w', Ok n) ->
    exists new,
      trace w' = trace w ++ new /\
      n = idle_phases_to_come (pending_tokens g) (is_at_end (scene w)) /\
      count_events is_idle_entry new = n /\
      count_events is_subslide_yield new = subslides_to_come (pending_tokens g) /\
      existsb is_exit_yield new = exit_to_come (pending_tokens g) /\
      (exit_to_come (pending_tokens g) = true ->
       exists pre, new = pre ++ [EGenYield EXIT]).
Proof.
  induction calls as [|calls IH]; intros fuel w w' n g W G; cbn [present];
    [discriminate|].
  rewrite bind_run, animate_run.
  destruct (gen_next_entering env fuel w) as (St & E & Wg & body & F & T).
  specialize (Wg W).
  pose proof (gen_next_progress env fuel (entering_animation w) g G) as Pr.
  destruct (gen_next env fuel (entering_animation w)) as [wg rg].
  cbn [fst snd] in *.
  pose proof (count_events_body _ _ _ (idle_entry_not_played _) F) as B1.
  pose proof (count_events_body _ _ _ (subslide_yield_not_played _) F) as B2.
  pose proof (existsb_body _ _ _ (exit_yield_not_played _) F) as B3.
  assert (Go : forall wi tail a,
    renderer_wired wi ->
    anim_generator (scene wi) = anim_generator (scene wg) ->
    trace wi = trace w ++ (body ++ tail) ->
    is_at_end (scene wi) = a ->
    (n' <- present env calls fuel ;; ret (S n')) wi = (w', Ok n) ->
    forall g', anim_generator (scene wg) = Some g' ->
    exists new2 n2,
      n = S n2 /\
      trace w' = trace w ++ (body ++ tail) ++ new2 /\
      n2 = idle_phases_to_come (pending_tokens g') a /\
      count_events is_idle_entry new2 = n2 /\
      count_events is_subslide_yield new2 = subslides_to_come (pending_tokens g') /\
      existsb is_exit_yield new2 = exit_to_come (pending_tokens g') /\
      (exit_to_come (pending_tokens g') = true ->
       exists pre, new2 = pre ++ [EGenYield EXIT])).
  { intros wi tail a Wi Gi Ti Ai. rewrite bind_run.
    destruct (present env calls fuel wi) as [w2 [n2| |]] eqn:P; try discriminate.
    intros Eq g' G'. injection Eq as <- <-.
    apply (IH fuel wi w2 n2 g' Wi) in P; [|congruence].
    destruct P as (new2 & T2 & N2 & I2 & S2 & X2 & L2).
    exists new2, n2. rewrite T2, Ti, Ai in *. rewrite <- app_assoc.
    repeat split; assumption. }
  destruct rg as [[[]|]|e|]; cbn [gen_events] in T.
  - destruct Pr as (g' & G' & Tk). rewrite Tk.
    rewrite begin_idle_phase_run by exact Wg. cbv beta iota. intro Eq.
    eapply Go with (tail := [EGenYield SUBSLIDE; EUpdateMobjects 0; EMovingAndStatic;
                 ECapture IDLE StaticMobjects (static_image (renderer wg));
                 EGetFrame IDLE (frames_made (renderer wg))]) in Eq;
      [| exact Wg | reflexivity | | reflexivity | exact G'].
    2:{ cbn. rewrite T, <- !app_assoc. reflexivity. }
    destruct Eq as (new2 & n2 & -> & T2 & N2 & I2 & S2 & X2 & L2).
    eexists. split; [exact T2|].
    change (is_at_end (scene (idle_phase_begun wg))) with (is_at_end (scene wg)) in N2.
    rewrite E in N2.
    rewrite !count_events_app, !existsb_app, B1, B2, B3, I2, S2, X2.
    cbn. repeat split; try congruence.
    intro X. destruct (L2 X) as (pre & ->). eexists.
    rewrite !app_assoc. reflexivity.
  - destruct Pr as (g' & G' & Tk). rewrite Tk. cbv beta iota.
    intro Eq. injection Eq as <- <-.
    exists (body ++ [EGenYield EXIT]). split; [exact T|].
    rewrite !count_events_app, !existsb_app, B1, B2, B3. cbn.
    repeat split. intros _. now exists body.
  - destruct Pr as (G' & Tk). rewrite Tk.
    destruct (is_at_end (scene wg)) eqn:Ae.
    + cbv beta iota. intro Eq. injection Eq as <- <-.
      exists (body ++ [EGenStop]). split; [exact T|].
      rewrite !count_events_app, !existsb_app, B1, B2, B3, <- E. cbn.
      repeat split. discriminate.
    + rewrite begin_idle_phase_run by exact Wg. cbv beta iota. intro Eq.
      eapply Go with (a := true)
        (tail := [EGenStop; EUpdateMobjects 0; EMovingAndStatic;
                  ECapture IDLE StaticMobjects (static_image (renderer wg));
                  EGetFrame IDLE (frames_made (renderer wg))]) in Eq;
        [| exact Wg | reflexivity | | reflexivity | exact G'].
      2:{ cbn. rewrite T, <- !app_assoc. reflexivity. }
      destruct Eq as (new2 & n2 & -> & T2 & N2 & I2 & S2 & X2 & L2).
      eexists. split; [exact T2|].
      rewrite !count_events_app, !existsb_app, B1, B2, B3, I2, S2, X2, <- E.
      cbn in *. subst n2. repeat split. discriminate.
  - discriminate.
  - discriminate.
Qed.


End Presentation.

(** ** Presentations that certainly end *)

Section Termination.

Variable env : Env.

(** Plays with nothing to animate return at once on a live renderer. *)
Lemma run_plays_static (fuel : nat) (ps : list PlayCall) :
  Forall (fun p => p = None) ps ->
  forall w, kind (renderer w) = CairoLiveSlideshowRenderer ->
            snd (run_plays env fuel ps w) = Ok tt.
Proof.
  induction 1 as [|p ps -> _ IH]; intros w K; [reflexivity|].
  unfold run_plays in *. cbn [for_each]. rewrite bind_run.
  unfold scene_play at 1, renderer_play. rewrite bind_run. cbn [get].
  rewrite K. cbn. apply IH. exact K.
Qed.

(** A presentation of a script whose plays are all static runs to
    completion within two calls more than the script has yields. *)
Lemma present_static_returns (fuel : nat) (segs : list Segment) (rest : list PlayCall) :
  static_script segs rest ->
  forall w,
    renderer_wired w ->
    kind (renderer w) = CairoLiveSlideshowRenderer ->
    anim_generator (scene w) = Some (Suspended segs rest) ->
    is_at_end (scene w) = false ->
    exists n, snd (present env (S (S (length segs))) fuel w) = Ok n.
Proof.
  intros [Hs Hr]. induction Hs as [|seg segs Hseg _ IH]; intros w W K G A.
  - cbn [length present]. rewrite bind_run, animate_run.
    unfold gen_next. rewrite bind_run. cbn [get].
    change (anim_generator (scene (entering_animation w)))
      with (anim_generator (scene w)). rewrite G.
    rewrite bind_run. unfold generator_frame.
    pose proof (run_plays_static fuel rest Hr (entering_animation w) K) as R.
    pose proof (respects_play_run_plays env fuel rest (entering_animation w)) as P.
    destruct (run_plays env fuel rest (entering_animation w)) as [wp rp].
    cbn [fst snd] in *. subst rp.
    destruct P as [_ _ _ Ae Kp _ Hp Ap _ _].
    assert (Wp : renderer_wired wp).
    { unfold renderer_wired in *. rewrite Kp, Hp, Ap. exact W. }
    cbn [bind modify emit ret with_scene with_trace scene set_anim_generator is_at_end].
    change (is_at_end (scene wp) = is_at_end (scene w)) in Ae.
    rewrite Ae, A.
    rewrite begin_idle_phase_run by exact Wp. cbv beta iota.
    rewrite bind_run, bind_run, animate_run.
    match goal with |- context [gen_next env fuel ?x] =>
      rewrite (gen_next_finished env fuel x) by reflexivity end.
    cbn. eauto.
  - cbn [length]. change (present env (S (S (S (length segs)))) fuel)
      with (more <- animate_to_next_subslide env fuel ;;
            if more then n <- present env (S (S (length segs))) fuel ;; ret (S n)
            else ret O).
    rewrite bind_run, animate_run.
    unfold gen_next. rewrite bind_run. cbn [get].
    change (anim_generator (scene (entering_animation w)))
      with (anim_generator (scene w)). rewrite G.
    rewrite bind_run. unfold generator_frame.
    pose proof (run_plays_static fuel (seg_plays seg) Hseg (entering_animation w) K) as R.
    pose proof (respects_play_run_plays env fuel (seg_plays seg) (entering_animation w)) as P.
    destruct (run_plays env fuel (seg_plays seg) (entering_animation w)) as [wp rp].
    cbn [fst snd] in *. subst rp.
    destruct P as [_ _ _ Ae Kp _ Hp Ap _ _].
    assert (Wp : renderer_wired wp).
    { unfold renderer_wired in *. rewrite Kp, Hp, Ap. exact W. }
    cbn [bind modify emit ret].
    destruct (seg_token seg).
    + rewrite begin_idle_phase_run by exact Wp. cbv beta iota.
      rewrite bind_run.
      destruct (IH (idle_phase_begun
                      (with_trace (EGenYield SUBSLIDE)
                         (with_scene (set_anim_generator (Some (Suspended segs rest))) wp))))
        as [n Hn]; try reflexivity; try assumption.
      { change (kind (renderer wp) = CairoLiveSlideshowRenderer).
        rewrite Kp. exact K. }
      { change (is_at_end (scene wp) = false). rewrite Ae. exact A. }
      destruct (present env (S (S (length segs))) fuel _) as [w2 r2].
      cbn [snd] in Hn. subst r2. cbn. eauto.
    + cbn. eauto.
Qed.

End Termination.

Lemma started_world_wired (c : Construct) : renderer_wired (started_world c).
Proof.
  unfold renderer_wired, started_world. intros _ _.
  destruct c; reflexivity.
Qed.


(** ** Scripts that are not generators *)

Section PlainScripts.

Variable env : Env.

(** C3 (as the code has it).  When [start_render] returns for a scene
    whose [construct] is a plain method, the generator it installed runs
    the method's body on the first [next] and is exhausted by it.  So if
    the body runs to its end, the first [animate_to_next_subslide] leaves
    the world the body left, marks the end of the script, begins a closing
    IDLE phase and returns [True]; the second one only finds the generator
    exhausted, runs nothing and returns [False]. *)
Theorem plain_construct_ends_in_idle_phase
    (fuel : nat) (w w1 wp : World) (body : list PlayCall) :
  renderer_wired w ->
  construct (scene w) = PlainFunction body ->
  is_at_end (scene w) = false ->
  start_render env w = (w1, Ok tt) ->
  run_plays env fuel body (entering_animation w1) = (wp, Ok tt) ->
  let w2 := idle_phase_begun
              (with_scene (set_is_at_end true)
                 (with_trace EGenStop
                    (with_scene (set_anim_generator (Some Finished)) wp))) in
  anim_generator (scene w1) = Some (Suspended [] body) /\
  animate_to_next_subslide env fuel w1 = (w2, Ok true) /\
  presentation_state (scene w2) = IDLE /\
  animate_to_next_subslide env fuel w2 =
    (with_trace EGenStop (entering_animation w2), Ok false).
Proof.
  intros W C A St Run.
  assert (E1 : w1 = with_scene (set_presentation_state ANIMATING)
                 (with_scene (set_anim_generator (Some (Suspended [] body)))
                    (with_trace (ELog LWarn) (with_trace ESetup w)))).
  { revert St. unfold start_render. rewrite bind_run. cbn [emit modify].
    rewrite bind_run. cbn [get]. cbn [with_trace scene]. rewrite C.
    rewrite bind_run. destruct (instance_has_qualname env); [|discriminate].
    cbn. intro E. now injection E as <-. }
  pose proof (respects_play_run_plays env fuel body (entering_animation w1)) as P.
  rewrite Run in P. cbn [fst] in P.
  destruct P as [_ _ _ Ae K _ H Ac _ _].
  assert (Wp : renderer_wired wp).
  { unfold renderer_wired in *. rewrite K, H, Ac. subst w1. exact W. }
  assert (Ap : is_at_end (scene wp) = false) by (rewrite Ae; subst w1; exact A).
  cbv zeta.
  set (w2 := idle_phase_begun
               (with_scene (set_is_at_end true)
                  (with_trace EGenStop
                     (with_scene (set_anim_generator (Some Finished)) wp)))).
  split; [subst w1; reflexivity|].
  assert (G : gen_next env fuel (entering_animation w1) =
              (with_trace EGenStop
                 (with_scene (set_anim_generator (Some Finished)) wp), Ok None)).
  { unfold gen_next. rewrite bind_run. cbn [get].
    replace (anim_generator (scene (entering_animation w1)))
      with (Some (Suspended [] body)) by (subst w1; reflexivity).
    rewrite bind_run. unfold generator_frame. rewrite Run. reflexivity. }
  split.
  { rewrite animate_run, G. cbn [with_trace with_scene scene set_anim_generator is_at_end].
    rewrite Ap. now apply begin_idle_phase_run. }
  assert (G2 : anim_generator (scene (entering_animation w2)) = Some Finished)
    by reflexivity.
  assert (I2 : is_at_end (scene (with_trace EGenStop (entering_animation w2))) = true)
    by reflexivity.
  split; [reflexivity|]. clearbody w2.
  rewrite animate_run, (gen_next_finished env fuel _ G2), I2. reflexivity.
Qed.

End PlainScripts.

(** A plain method with one group is presented with one IDLE phase, the
    closing one. *)
Lemma plain_script_ends_like_exit_fails :
  ~ plain_script_ends_like_exit quiet_env 5 5 [Some (mkGroup 1 false)].
Proof.
  intro H.
  assert (P : present quiet_env 5 5 (started_world one_group_method) =
              (fst (present quiet_env 5 5 (started_world one_group_method)),
               Ok 1%nat)) by (vm_compute; reflexivity).
  assert (R : start_render quiet_env
                (fst (set_active_scene
                        (new_world (PlainFunction [Some (mkGroup 1 false)])
                                   CairoLiveSlideshowRenderer 7)))
              = (started_world one_group_method, Ok tt))
    by (vm_compute; reflexivity).
  specialize (H _ _ _ R P). clear R P. discriminate H.
Qed.

Lemma plain_construct_ends_in_idle_phase_witness :
  exists w2,
    animate_to_next_subslide quiet_env 5 (started_world one_group_method)
    = (w2, Ok true) /\
    presentation_state (scene w2) = IDLE /\
    snd (animate_to_next_subslide quiet_env 5 w2) = Ok false.
Proof.
  assert (W : renderer_wired
                (fst (set_active_scene
                        (new_world one_group_method CairoLiveSlideshowRenderer 7))))
    by (intros _ _; reflexivity).
  assert (R : run_plays quiet_env 5 [Some (mkGroup 1 false)]
                (entering_animation (started_world one_group_method)) =
              (fst (run_plays quiet_env 5 [Some (mkGroup 1 false)]
                      (entering_animation (started_world one_group_method))),
               Ok tt)) by (vm_compute; reflexivity).
  destruct (plain_construct_ends_in_idle_phase quiet_env 5 _
              (started_world one_group_method) _ [Some (mkGroup 1 false)]
              W eq_refl eq_refl eq_refl R) as (_ & A1 & I & A2).
  eexists. split; [exact A1|]. split; [exact I|].
  rewrite A2. reflexivity.
Defined.



Lemma animate_to_next_subslide_final_state_witness :
  renderer_wired (started_world two_group_script) /\
  (snd (animate_to_next_subslide quiet_env 5 (started_world two_group_script))
   = Ok true <->
   presentation_state
     (scene (fst (animate_to_next_subslide quiet_env 5
                    (started_world two_group_script)))) = IDLE).
Proof.
  split; [apply started_world_wired|].
  exact (proj1 (proj2 (animate_to_next_subslide_final_state quiet_env 5
                         (started_world two_group_script)
                         (started_world_wired two_group_script)))).
Defined.

(** ** Frames and the presentation state *)

Lemma hoare_bind {A B} (P Q R : World -> Prop) (m : M A) (k : A -> M B) :
  hoare P m Q -> (forall w, Q w -> R w) -> (forall a, hoare Q (k a) R) ->
  hoare P (bind m k) R.
Proof.
  intros Hm QR Hk w Pw. rewrite bind_run. specialize (Hm w Pw).
  destruct (m w) as [w1 [a| |]]; cbn [fst] in *; auto.
  now apply Hk.
Qed.

Lemma hoare_keep {A B} (I : World -> Prop) (m : M A) (k : A -> M B) :
  hoare I m I -> (forall a, hoare I (k a) I) -> hoare I (bind m k) I.
Proof. intros Hm Hk. eapply hoare_bind; eauto. Qed.

Lemma hoare_ret {A} (I : World -> Prop) (a : A) : hoare I (ret a) I.
Proof. intros w H. exact H. Qed.

Lemma hoare_raise {A} (I : World -> Prop) (e : exn) : hoare I (@raise A e) I.
Proof. intros w H. exact H. Qed.

Lemma hoare_out_of_fuel {A} (I : World -> Prop) : hoare I (@out_of_fuel A) I.
Proof. intros w H. exact H. Qed.

Lemma hoare_get {A} (P Q : World -> Prop) (k : World -> M A) :
  (forall w0, hoare P (k w0) Q) -> hoare P (bind get k) Q.
Proof. intros H w Pw. rewrite bind_run. cbn. now apply H. Qed.

Lemma hoare_if {A} (P Q : World -> Prop) (b : bool) (m1 m2 : M A) :
  hoare P m1 Q -> hoare P m2 Q -> hoare P (if b then m1 else m2) Q.
Proof. now destruct b. Qed.

Lemma hoare_respects {A} (R : World -> World -> Prop) (I : World -> Prop) (m : M A) :
  (forall w w', R w w' -> I w -> I w') -> respects R m -> hoare I m I.
Proof. intros H Hm w Iw. exact (H _ _ (Hm w) Iw). Qed.

Lemma play_event_frame_state (ps : PresentationState) (P : PresentationState -> Prop)
      (new : list Event) :
  P ps -> Forall (play_event ps) new -> Forall (frame_state_is P) new.
Proof.
  intros Hp F. eapply Forall_impl; [|exact F].
  intros e He. destruct e; cbn in *; try exact I; now subst.
Qed.

Lemma play_rel_ready (w w' : World) : play_rel w w' -> ready w -> ready w'.
Proof.
  intros [_ _ S _ _ _ _ _ _ (new & T & F)] [N Tr]. split; [congruence|].
  unfold no_frame_while_not_ready in *. rewrite T. apply Forall_app.
  split; [exact Tr|]. now apply (play_event_frame_state _ _ _ N).
Qed.

Lemma ready_emit (e : Event) :
  frame_state_is (fun ps => ps <> NOT_READY) e -> hoare ready (emit e) ready.
Proof.
  intros He w [N Tr]. split; [exact N|]. cbn.
  apply Forall_app. split; [exact Tr|]. now constructor.
Qed.

Section Frames.

Variable env : Env.

Lemma ready_played {A} (m : M A) : respects play_rel m -> hoare ready m ready.
Proof. apply hoare_respects. exact play_rel_ready. Qed.

Lemma ready_delivered {A} (m : M A) : respects delivery_rel m -> hoare ready m ready.
Proof. intro H. apply ready_played. now apply respects_play_delivery. Qed.

Lemma ready_gen_next (fuel : nat) : hoare ready (gen_next env fuel) ready.
Proof.
  intros w [N Tr].
  destruct (gen_next_effect env fuel w) as (_ & S & _ & _ & _ & _ & body & F & T).
  split; [congruence|].
  unfold no_frame_while_not_ready in *. rewrite T.
  apply Forall_app. split; [exact Tr|]. apply Forall_app. split.
  - now apply (play_event_frame_state _ _ _ N).
  - destruct (snd (gen_next env fuel w)) as [[tok|]|e|]; repeat constructor.
Qed.

Lemma ready_begin_idle_phase : hoare ready begin_idle_phase ready.
Proof.
  unfold begin_idle_phase.
  apply hoare_keep. { intros w [N Tr]. split; [discriminate|exact Tr]. }
  intros _. apply hoare_keep; [now apply ready_emit|].
  intros _. apply hoare_keep; [now apply ready_emit|].
  intros _. apply hoare_keep; [|intros _; apply hoare_ret].
  unfold save_static_frame_data.
  apply hoare_keep; [apply ready_delivered, respects_delivery_update_frame|].
  intros _. apply hoare_keep; [apply ready_delivered, respects_delivery_get_frame|].
  intro f. apply hoare_keep; [|intros _; apply hoare_ret].
  intros w H. exact H.
Qed.

(** Whatever the state before, [animate_to_next_subslide] leaves a scene
    that is not NOT_READY and makes frames only for such a scene. *)
Lemma ready_animate (fuel : nat) :
  hoare (fun w => no_frame_while_not_ready (trace w))
        (animate_to_next_subslide env fuel) ready.
Proof.
  intros w Tr. rewrite animate_run.
  assert (R0 : ready (entering_animation w)) by (split; [discriminate|exact Tr]).
  pose proof (ready_gen_next fuel _ R0) as Rg.
  destruct (gen_next env fuel (entering_animation w)) as [wg [[[]|]|e|]];
    cbn [fst] in *; try exact Rg.
  - now apply ready_begin_idle_phase.
  - destruct (is_at_end (scene wg)); [exact Rg|].
    apply ready_begin_idle_phase. exact Rg.
Qed.

Lemma ready_animate_keep (fuel : nat) :
  hoare ready (animate_to_next_subslide env fuel) ready.
Proof. intros w [_ Tr]. now apply ready_animate. Qed.

Lemma ready_render_idle_frame : hoare ready (render_idle_frame env) ready.
Proof.
  unfold render_idle_frame. apply hoare_get. intro w0.
  apply hoare_keep.
  { destruct (last_frame_data (host w0)); [|apply hoare_ret].
    apply hoare_if; [|apply hoare_raise].
    intros w H. exact H. }
  intro redraw. apply hoare_if.
  - apply hoare_keep; [apply hoare_if; [apply hoare_ret|apply hoare_raise]|].
    intros _. apply hoare_keep; [apply ready_delivered, respects_delivery_clock|].
    intro dt. apply hoare_keep; [now apply ready_emit|].
    intros _. apply hoare_keep; [apply ready_delivered, respects_delivery_update_frame|].
    intros _. apply hoare_keep; [apply ready_delivered, respects_delivery_get_frame|].
    intro f. apply hoare_keep; [now apply ready_emit|].
    intros _ w H. exact H.
  - apply hoare_keep; [apply ready_delivered, respects_delivery_clock|].
    intros _. apply hoare_get. intro w1.
    destruct (last_frame_data (host w1)); [now apply ready_emit|apply hoare_raise].
Qed.

Lemma ready_handle_events (fuel : nat) (evts : list SlideshowEvent) :
  hoare ready (handle_events env fuel evts) ready.
Proof.
  induction evts as [|[| |] evts IH]; cbn [handle_events];
    try apply hoare_ret; try exact IH.
  apply hoare_keep; [apply ready_animate_keep|]. intro more.
  apply hoare_if; (apply hoare_keep; [now apply ready_emit|]); intros _;
    [exact IH|apply hoare_ret].
Qed.

Lemma ready_idle_loop (rounds fuel : nat) :
  hoare ready (idle_loop env rounds fuel) ready.
Proof.
  induction rounds as [|rounds IH]; cbn [idle_loop]; [apply hoare_out_of_fuel|].
  apply hoare_get. intro w0. apply hoare_if.
  - apply hoare_keep; [apply ready_render_idle_frame|]. intros _.
    apply hoare_keep; [apply ready_delivered, respects_delivery_sieve|]. intro evts.
    apply hoare_keep; [apply ready_handle_events|]. intro done.
    apply hoare_if; [apply hoare_ret|exact IH].
  - apply hoare_keep; [now apply ready_emit|]. intros _. apply hoare_raise.
Qed.

Lemma quiet_emit (e : Event) :
  frame_state_is (fun ps => ps <> NOT_READY) e -> hoare quiet (emit e) quiet.
Proof.
  intros He w Tr. unfold quiet, no_frame_while_not_ready in *. cbn.
  apply Forall_app. split; [exact Tr|]. now constructor.
Qed.

Lemma quiet_modify (f : World -> World) :
  (forall w, trace (f w) = trace w) -> hoare quiet (modify f) quiet.
Proof. intros H w Tr. unfold quiet in *. cbn. now rewrite H. Qed.

Lemma quiet_set_active_scene : hoare quiet set_active_scene quiet.
Proof.
  unfold set_active_scene.
  apply hoare_keep; [now apply quiet_modify|]. intros _.
  apply hoare_get. intro w0.
  destruct (kind (renderer w0)); [apply hoare_raise|].
  apply hoare_keep; [now apply quiet_modify|]. intros _.
  apply hoare_keep; [now apply quiet_modify|]. intros _.
  now apply quiet_emit.
Qed.

Lemma quiet_start_render : hoare quiet (start_render env) quiet.
Proof.
  unfold start_render.
  apply hoare_keep; [now apply quiet_emit|]. intros _.
  apply hoare_get. intro w0. apply hoare_keep.
  { destruct (construct (scene w0)); [apply hoare_ret|].
    apply hoare_if; [now apply quiet_emit|apply hoare_raise]. }
  intros _. apply hoare_keep; [now apply quiet_modify|]. intros _.
  now apply quiet_modify.
Qed.

Lemma quiet_host_run (rounds fuel : nat) (c : Construct) (i : Z) :
  hoare quiet (host_run env rounds fuel c i) quiet.
Proof.
  unfold host_run.
  apply hoare_keep; [now apply quiet_modify|]. intros _.
  apply hoare_keep; [now apply quiet_modify|]. intros _.
  apply hoare_keep; [now apply quiet_emit|]. intros _.
  apply hoare_keep; [apply quiet_set_active_scene|]. intros _.
  apply hoare_keep; [apply quiet_start_render|]. intros _.
  apply (hoare_bind quiet ready quiet); [apply ready_animate|now intros w [_ H]|].
  intro more. intros w R.
  assert (K : hoare ready (if more then idle_loop env rounds fuel else ret tt) ready)
    by (apply hoare_if; [apply ready_idle_loop|apply hoare_ret]).
  exact (proj2 (K w R)).
Qed.

(** The prerender pass. *)

Lemma scene_finished_dummy (w : World) :
  kind (renderer w) = DummySlideRenderer ->
  scene_finished w =
  (with_renderer (set_thumbnail_end (Some (frames_made (renderer w))))
     (with_trace (EGetFrame (presentation_state (scene w)) (frames_made (renderer w)))
        (with_renderer (set_frames_made (S (frames_made (renderer w))))
           (with_trace (ECapture (presentation_state (scene w)) AllMobjects
                                 (static_image (renderer w))) w))),
   Ok tt).
Proof.
  intro K. unfold scene_finished. rewrite bind_run. cbn [get]. rewrite K.
  rewrite bind_run, update_frame_run, skip_animations_run, K. cbn [snd].
  rewrite bind_run, get_frame_run. reflexivity.
Qed.

Lemma respects_play_scene_finished : respects play_rel scene_finished.
Proof.
  unfold scene_finished. apply respects_get. intro w0.
  destruct (kind (renderer w0)); [|apply respects_ret; exact play_rel_refl].
  apply (respects_bind play_rel play_rel_trans);
    [apply respects_play_delivery, respects_delivery_update_frame|].
  intros _. apply (respects_bind play_rel play_rel_trans);
    [apply respects_play_delivery, respects_delivery_get_frame|].
  intros f w. cbn. constructor; try reflexivity.
  exists []. now rewrite app_nil_r.
Qed.

Lemma respects_play_render_wrapper (fuel : nat) (segs : list Segment)
      (rest : list PlayCall) :
  respects play_rel (render_wrapper env fuel segs rest).
Proof.
  induction segs as [|seg segs IH]; cbn [render_wrapper];
    (apply (respects_bind play_rel play_rel_trans);
     [apply respects_play_run_plays|]); intros _.
  - apply respects_play_renderer_play.
  - apply respects_if; [apply respects_ret; exact play_rel_refl|].
    apply (respects_bind play_rel play_rel_trans);
      [apply respects_play_renderer_play|]. intros _. exact IH.
Qed.

Lemma respects_play_rendered_script (fuel : nat) (c : Construct) :
  respects play_rel (rendered_script env fuel c).
Proof.
  destruct c; [apply respects_play_render_wrapper|apply respects_play_run_plays].
Qed.

Lemma SlideScene_render_run (fuel : nat) (w : World) :
  SlideScene_render env fuel w =
  bind (rendered_script env fuel (construct (scene w))) (fun _ => scene_finished) w.
Proof.
  unfold SlideScene_render. rewrite bind_run. cbn [get].
  now destruct (construct (scene w)).
Qed.

(** C9 (as the code has it).  In the interactive pass
    ([SlideshowHost.run]) no frame is made for a scene in state NOT_READY:
    [start_render] and the first [animate_to_next_subslide] come before
    any rasterization and the state never returns to NOT_READY.  In the
    prerender pass the state machine is never started: every frame is made
    with the scene still NOT_READY, and a prerender that returns (caching
    enabled) ends with the capture of the final thumbnail in that state. *)
Theorem frames_follow_the_pass
    (rounds fuel : nat) (c : Construct) (i : Z) (w : World) :
  no_frame_while_not_ready (trace w) ->
  no_frame_while_not_ready (trace (fst (host_run env rounds fuel c i w))) /\
  exists new,
    trace (fst (prerender env fuel c i w)) = trace w ++ new /\
    Forall (frame_state_is (fun ps => ps = NOT_READY)) new /\
    (snd (prerender env fuel c i w) = Ok tt ->
     disable_caching env = false ->
     exists pre background f,
       new = pre ++ [ECapture NOT_READY AllMobjects background;
                     EGetFrame NOT_READY f]).
Proof.
  intro Tr. split; [now apply quiet_host_run|].
  unfold prerender. do 2 (rewrite bind_run; cbn [modify]).
  set (w1 := with_renderer (fun _ => new_renderer DummySlideRenderer i)
               (with_scene (fun _ => new_scene c) w)).
  destruct (disable_caching env).
  { exists []. cbn. rewrite app_nil_r. repeat split; [constructor|discriminate]. }
  rewrite SlideScene_render_run, bind_run.
  change (construct (scene w1)) with c.
  pose proof (respects_play_rendered_script fuel c w1) as P.
  destruct (rendered_script env fuel c w1) as [wb rb]. cbn [fst] in P.
  destruct P as [_ _ S _ K _ _ _ _ (body & T & F)].
  change (trace w1) with (trace w) in T.
  change (presentation_state (scene w1)) with NOT_READY in S, F.
  change (kind (renderer w1)) with DummySlideRenderer in K.
  assert (Fb : Forall (frame_state_is (fun ps => ps = NOT_READY)) body)
    by now apply (play_event_frame_state NOT_READY).
  destruct rb as [[]|e|].
  - rewrite (scene_finished_dummy wb K). cbn [fst snd trace with_renderer with_trace].
    rewrite S, T, <- !app_assoc.
    eexists. split; [reflexivity|]. split.
    + apply Forall_app. split; [exact Fb|]. repeat constructor.
    + intros _ _. do 3 eexists. reflexivity.
  - exists body. cbn. repeat split; try assumption; discriminate.
  - exists body. cbn. repeat split; try assumption; discriminate.
Qed.

End Frames.

(** The prerender pass of an empty script makes its final thumbnail while
    the scene is NOT_READY. *)
Lemma no_frame_while_not_ready_fails :
  ~ no_frame_while_not_ready (trace prerendered_world).
Proof.
  intro H. unfold no_frame_while_not_ready in H. rewrite Forall_forall in H.
  assert (I : In (ECapture NOT_READY AllMobjects None) (trace prerendered_world)).
  { vm_compute. repeat (first [left; reflexivity | right]). }
  apply (H _ I). reflexivity.
Qed.

Lemma frames_follow_the_pass_witness :
  no_frame_while_not_ready (trace (started_world two_group_script)) /\
  no_frame_while_not_ready
    (trace (fst (host_run quiet_env 3 5 two_group_script 7
                   (started_world two_group_script)))).
Proof.
  assert (H : no_frame_while_not_ready (trace (started_world two_group_script)))
    by (repeat constructor).
  split; [exact H|].
  exact (proj1 (frames_follow_the_pass quiet_env 3 5 two_group_script 7
                  (started_world two_group_script) H)).
Defined.

(** * Further properties of the code *)

Section Sieve.
Variable env : Env.

Lemma sieve_one_cases (e : RawEvent) :
  sieve_one env e =
  if is_quit e then [EV_EXIT]
  else if advancing_key env e then [EV_ADVANCE] else [].
Proof.
  destruct e as [|wid sym|]; cbn; try reflexivity.
  destruct (Z.eqb wid (window_id env)); cbn; [|reflexivity].
  destruct sym; reflexivity.
Qed.

(** X1.  One call of [sieve_events] takes one batch of raw events off the
    queue and changes nothing else.  Its result contains EXIT exactly when
    the batch holds a quit request, and as many EXITs as quit requests;
    ADVANCE exactly when the batch holds a press of right, down, space or
    return addressed to the host's own window; never PREVIOUS; and never
    more events than the batch has. *)
Theorem sieve_events_characterisation (w : World) :
  let raw := sdl_events env (polls w) in
  exists evts,
    sieve_events env w = (polled w, Ok evts) /\
    (In EV_EXIT evts <-> existsb is_quit raw = true) /\
    (In EV_ADVANCE evts <-> existsb (advancing_key env) raw = true) /\
    ~ In EV_PREVIOUS evts /\
    (length evts <= length raw)%nat /\
    filter (fun e => match e with EV_EXIT => true | _ => false end) evts
    = map (fun _ => EV_EXIT) (filter is_quit raw).
Proof.
  intro raw. exists (flat_map (sieve_one env) raw).
  split; [reflexivity|].
  induction raw as [|e raw IH]; cbn [flat_map existsb length filter map].
  - cbn. repeat split; try tauto; try discriminate; auto.
  - destruct IH as (I1 & I2 & I3 & I4 & I5).
    rewrite sieve_one_cases.
    destruct (is_quit e) eqn:Q.
    + assert (A : advancing_key env e = false) by (destruct e; try discriminate; reflexivity).
      rewrite A. cbn. repeat split; try tauto; try lia.
      * intros [H|H]; [discriminate|]. tauto.
      * intros [H|H]; [discriminate|]. tauto.
      * now rewrite I5.
    + destruct (advancing_key env e) eqn:A; cbn.
      * repeat split; try tauto; try lia.
        -- intros [H|H]; [discriminate|]. tauto.
        -- intros [H|H]; [discriminate|]. tauto.
      * repeat split; try tauto; try lia.
Qed.

End Sieve.

Section PacingMore.
Variable env : Env.

Lemma update_framerate_clock_step (w w1 : World) (last dt : Q) :
  last_frame_at (host w) = Some last ->
  update_framerate_clock env w = (w1, Ok dt) ->
  last_frame_at (host w1) = Some (clock env (S (clock_reads w))) /\
  dt = clock env (S (clock_reads w)) - last /\
  clock_reads w1 = S (S (clock_reads w)).
Proof.
  intro H. unfold update_framerate_clock. rewrite bind_run. simpl.
  rewrite H. unfold bind, py_div, time_time. simpl.
  destruct (Qeq_bool (clock env (clock_reads w) - last) 0); simpl; [discriminate|].
  destruct (Qeq_bool (frame_rate env) 0); simpl; [discriminate|].
  destruct (Qlt_bool _ _); simpl; intro E; injection E as <- <-; cbn; repeat split.
Qed.

(** X2.  The pacing call raises exactly when it is not the first call and
    either no time has passed since the last recorded frame or the
    configured frame rate is zero; what it raises is [ZeroDivisionError].
    It then has read the clock once, requested no delay, and left
    [last_frame_at] as it was.  It never runs out of fuel. *)
Theorem update_framerate_clock_failure (w : World) :
  let r := snd (update_framerate_clock env w) in
  let w' := fst (update_framerate_clock env w) in
  (r = Raise ZeroDivisionError <->
   exists last, last_frame_at (host w) = Some last /\
     (clock env (clock_reads w) - last == 0 \/ frame_rate env == 0)) /\
  (forall e, r = Raise e ->
     e = ZeroDivisionError /\
     last_frame_at (host w') = last_frame_at (host w) /\
     clock_reads w' = S (clock_reads w) /\
     delays (pacing_trace env w) = []) /\
  r <> OutOfFuel.
Proof.
  unfold update_framerate_clock, pacing_trace, pacing_events. rewrite bind_run. simpl.
  destruct (last_frame_at (host w)) as [last|] eqn:L.
  - unfold bind, py_div, time_time. simpl.
    destruct (Qeq_bool (clock env (clock_reads w) - last) 0) eqn:E0; simpl.
    { apply Qeq_bool_iff in E0. split; [|split]; [| |discriminate].
      - split; [|reflexivity]. intros _. exists last. tauto.
      - intros e H. injection H as <-. repeat split. exact L. }
    destruct (Qeq_bool (frame_rate env) 0) eqn:E1; simpl.
    { apply Qeq_bool_iff in E1. split; [|split]; [| |discriminate].
      - split; [|reflexivity]. intros _. exists last. tauto.
      - intros e H. injection H as <-. repeat split. exact L. }
    assert (N0 : ~ clock env (clock_reads w) - last == 0).
    { intro H. apply Qeq_bool_iff in H. congruence. }
    assert (N1 : ~ frame_rate env == 0).
    { intro H. apply Qeq_bool_iff in H. congruence. }
    destruct (Qlt_bool _ _); simpl; (split; [|split]; [| |discriminate]).
    all: try (intros e H; discriminate H).
    all: split; [discriminate|].
    all: intros (l & Hl & [H|H]); injection Hl as <-; tauto.
  - unfold bind, time_time. simpl. split; [|split]; [| |discriminate].
    + split; [discriminate|]. intros (l & Hl & _). discriminate.
    + intros e H. discriminate H.
Qed.

Lemma pace_telescopes (n : nat) :
  forall w w' dts t0,
    last_frame_at (host w) = Some t0 ->
    pace env n w = (w', Ok dts) ->
    exists t1, last_frame_at (host w') = Some t1 /\ t1 == t0 + Qsum dts /\
               length dts = n /\
               clock_reads w' = (clock_reads w + 2 * n)%nat.
Proof.
  induction n as [|n IH]; intros w w' dts t0 L E.
  - cbn in E. injection E as <- <-. exists t0.
    split; [exact L|]. split; [unfold Qsum; cbn [fold_right]; ring|].
    split; [reflexivity|lia].
  - cbn [pace] in E. rewrite bind_run in E.
    destruct (update_framerate_clock env w) as [w1 [dt| |]] eqn:U; try discriminate.
    destruct (update_framerate_clock_step w w1 t0 dt L U) as (L1 & D & C).
    rewrite bind_run in E.
    destruct (pace env n w1) as [w2 [dts'| |]] eqn:P; try discriminate.
    cbn in E. injection E as <- <-.
    destruct (IH _ _ _ _ L1 P) as (t1 & L2 & S1 & Len & Cr).
    exists t1. split; [exact L2|]. split; [|split].
    + unfold Qsum in *. cbn [fold_right]. rewrite S1, D. ring.
    + cbn [length]. now rewrite Len.
    + rewrite Cr, C. lia.
Qed.

(** X3.  The values returned by consecutive pacing calls add up to the
    time between the frame instant recorded before the first of them and
    the one recorded by the last (the first call of a host, which returns
    0, records the clock reading it made). *)
Theorem pacing_times_add_up (n : nat) (w w' : World) (dts : list Q) :
  pace env n w = (w', Ok dts) ->
  match last_frame_at (host w) with
  | Some t0 =>
      exists t1, last_frame_at (host w') = Some t1 /\ t1 == t0 + Qsum dts
  | None =>
      n = 0%nat \/
      exists t1, last_frame_at (host w') = Some t1 /\
                 t1 == clock env (clock_reads w) + Qsum dts
  end.
Proof.
  intro E. destruct (last_frame_at (host w)) as [t0|] eqn:L.
  - destruct (pace_telescopes n w w' dts t0 L E) as (t1 & H1 & H2 & _).
    exists t1. tauto.
  - destruct n as [|n]; [now left|right].
    cbn [pace] in E. rewrite bind_run in E.
    rewrite (update_framerate_clock_first env w L) in E.
    rewrite bind_run in E.
    match type of E with context [pace env n ?x] =>
      destruct (pace env n x) as [w2 [dts'| |]] eqn:P; try discriminate;
      destruct (pace_telescopes n x w2 dts' (clock env (clock_reads w)) eq_refl P)
        as (t1 & H1 & H2 & _)
    end.
    cbn in E. injection E as <- <-.
    exists t1. split; [exact H1|].
    unfold Qsum in *. cbn [fold_right]. rewrite H2. ring.
Qed.

End PacingMore.

Section DeliveryMore.
Variable env : Env.

Lemma pump_cases (evts : list SlideshowEvent) :
  forall w, exists s' new r,
    for_each evts pump_event w =
    (mkWorld s' (renderer w) (host w) (clock_reads w) (polls w) (stop_calls w)
             (update_calls w) (trace w ++ new), r) /\
    (r = Ok tt -> new = pump_log evts) /\
    (existsb is_advance evts = false -> s' = scene w /\ r = Ok tt).
Proof.
  induction evts as [|evt evts IH]; intro w.
  - exists (scene w), [], (Ok tt). cbn. rewrite app_nil_r. now destruct w.
  - cbn [for_each]. rewrite bind_run.
    destruct evt.
    + cbn [pump_event emit modify].
      destruct (IH (with_trace (ELog LCritical) w)) as (s' & new & r & E & H1 & H2).
      rewrite E. exists s', (ELog LCritical :: new), r. cbn.
      rewrite <- app_assoc. cbn. split; [reflexivity|]. split.
      * intro R. now rewrite (H1 R).
      * exact H2.
    + cbn [pump_event]. rewrite bind_run. cbn [emit modify]. rewrite bind_run. cbn [get].
      cbn [with_trace host].
      destruct (active_scene (host w)) eqn:A.
      * cbn [skip_to_next_idle_phase modify].
        match goal with |- context [for_each evts pump_event ?x] =>
          destruct (IH x) as (s' & new & r & E & H1 & H2); rewrite E end.
        exists s', (ELog LInfo :: new), r. cbn. rewrite <- app_assoc. cbn.
        split; [reflexivity|]. split; [|discriminate].
        intro R. now rewrite (H1 R).
      * cbn. exists (scene w), [ELog LInfo], (Raise AttributeError).
        split; [reflexivity|]. split; discriminate.
    + cbn [pump_event ret].
      destruct (IH w) as (s' & new & r & E & H1 & H2).
      rewrite E. exists s', new, r. split; [reflexivity|]. split; assumption.
Qed.

Lemma current_source (src : Z) (h : HostState) :
  current_slide_source h = Some src -> other_source src h = false.
Proof. unfold other_source. intros ->. now rewrite Z.eqb_refl. Qed.

(** The delivery of a frame from the current source, run. *)
Lemma delivery_run (src : Z) (frame : Frame) (w : World) :
  current_slide_source (host w) = Some src ->
  let evts := flat_map (sieve_one env) (sdl_events env (polls w)) in
  exists wp rp,
    for_each evts pump_event (polled w) = (wp, rp) /\
    update_with_rendered_frame env src frame w =
    match rp with
    | Ok _ =>
        match update_framerate_clock env wp with
        | (wc, Ok _) =>
            (with_host (set_last_frame_data None) (with_trace (EBlit frame) wc), Ok tt)
        | (wc, Raise e) => (wc, Raise e)
        | (wc, OutOfFuel) => (wc, OutOfFuel)
        end
    | Raise e => (wp, Raise e)
    | OutOfFuel => (wp, OutOfFuel)
    end.
Proof.
  intros C evts.
  destruct (for_each evts pump_event (polled w)) as [wp rp] eqn:P.
  exists wp, rp. split; [reflexivity|].
  unfold update_with_rendered_frame. rewrite bind_run. cbn [get].
  rewrite (current_source _ _ C). rewrite bind_run. cbn [sieve_events].
  rewrite bind_run.
  change (for_each (flat_map (sieve_one env) (sdl_events env (polls w))) _ _)
    with (for_each evts pump_event (polled w)).
  rewrite P. destruct rp as [[]| |]; reflexivity.
Qed.


(** The redrawing branch of the idle frame step, run. *)
Lemma redraw_run (b : bool) (wa : World) :
  b = active_scene (host wa) ->
  let m := ((if b then ret tt else raise AttributeError) ;;
            dt <- update_framerate_clock env ;;
            update_mobjects dt ;;
            update_frame MovingMobjects true ;;
            frame <- get_frame ;;
            send_frame_to_window frame ;;
            modify (with_host (set_last_frame_data (Some frame)))) in
  update_calls (fst (m wa)) = update_calls wa /\
  forall w2, m wa = (w2, Ok tt) ->
    exists dt,
      trace w2 = trace wa ++ pacing_trace env wa ++
        [EUpdateMobjects dt;
         ECapture (presentation_state (scene wa)) MovingMobjects
                  (static_image (renderer wa));
         EGetFrame (presentation_state (scene wa)) (frames_made (renderer wa));
         EBlit (frames_made (renderer wa))] /\
      last_frame_data (host w2) = Some (frames_made (renderer wa)) /\
      scene w2 = scene wa /\
      static_image (renderer w2) = static_image (renderer wa) /\
      active_scene (host w2) = true.
Proof.
  intros Eb m. destruct (m wa) as [wr rr] eqn:R. cbn [fst].
  unfold m in R. clear m. rewrite bind_run in R.
  destruct b.
  2:{ cbn in R. injection R as <- <-. split; [reflexivity|discriminate]. }
  unfold ret at 1 in R. rewrite bind_run in R.
  destruct (update_framerate_clock_cases env wa) as (h' & n' & r & U & _ & A' & _ & _).
  rewrite U in R. clear U. destruct r as [dt| |].
  2,3: injection R as <- <-; split; [reflexivity|discriminate].
  rewrite bind_run in R. unfold update_mobjects, emit, modify in R.
  rewrite bind_run, update_frame_run, skip_animations_run in R. cbn [snd] in R.
  cbn [with_trace scene renderer host clock_reads polls stop_calls update_calls trace] in R.
  rewrite A', <- Eb in R.
  assert (Sk : exists sk,
             match kind (renderer wa) with
             | DummySlideRenderer => Ok true
             | CairoLiveSlideshowRenderer =>
                 if slideshow_host (renderer wa)
                 then Ok (is_skipping_to_end (scene wa)) else Ok false
             end = Ok sk).
  { destruct (kind (renderer wa)); [eauto|].
    destruct (slideshow_host (renderer wa)); eauto. }
  destruct Sk as [sk Sk]. rewrite Sk in R.
  rewrite bind_run, get_frame_run in R. cbn in R. injection R as <- <-.
  cbn. split; [reflexivity|]. intros w2 E. injection E as <-. cbn.
  exists dt. rewrite <- !app_assoc. cbn. repeat split. now rewrite A'.
Qed.

(** The redrawing idle frame step, entered with an empty cache. *)
Lemma render_idle_frame_redraw_run (w : World) :
  last_frame_data (host w) = None ->
  update_calls (fst (render_idle_frame env w)) = update_calls w /\
  forall w2, render_idle_frame env w = (w2, Ok tt) ->
    exists dt,
      trace w2 = trace w ++ pacing_trace env w ++
        [EUpdateMobjects dt;
         ECapture (presentation_state (scene w)) MovingMobjects
                  (static_image (renderer w));
         EGetFrame (presentation_state (scene w)) (frames_made (renderer w));
         EBlit (frames_made (renderer w))] /\
      last_frame_data (host w2) = Some (frames_made (renderer w)) /\
      scene w2 = scene w /\
      static_image (renderer w2) = static_image (renderer w) /\
      active_scene (host w2) = true.
Proof.
  intro L.
  assert (E : render_idle_frame env w =
              ((if active_scene (host w) then ret tt else raise AttributeError) ;;
               dt <- update_framerate_clock env ;;
               update_mobjects dt ;;
               update_frame MovingMobjects true ;;
               frame <- get_frame ;;
               send_frame_to_window frame ;;
               modify (with_host (set_last_frame_data (Some frame)))) w).
  { unfold render_idle_frame. rewrite bind_run. cbn [get]. rewrite L.
    rewrite bind_run. reflexivity. }
  rewrite E. exact (redraw_run (active_scene (host w)) w eq_refl).
Qed.

(** X4.  A frame delivered by the current slide source, once shown,
    empties the host's frame cache: the call polls the event queue once,
    ends with the blit of that frame and leaves [last_frame_data] empty.
    The next idle frame step therefore redraws without asking
    [should_update_mobjects]: when it returns it has updated the mobjects,
    drawn the moving ones over the static background, blitted the new frame
    and cached it. *)
Theorem delivered_frame_forces_redraw (src : Z) (frame : Frame) (w w1 : World) :
  current_slide_source (host w) = Some src ->
  update_with_rendered_frame env src frame w = (w1, Ok tt) ->
  last_frame_data (host w1) = None /\
  polls w1 = S (polls w) /\
  (exists tr, trace w1 = tr ++ [EBlit frame]) /\
  update_calls (fst (render_idle_frame env w1)) = update_calls w1 /\
  forall w2, render_idle_frame env w1 = (w2, Ok tt) ->
    exists dt,
      trace w2 = trace w1 ++ pacing_trace env w1 ++
        [EUpdateMobjects dt;
         ECapture (presentation_state (scene w1)) MovingMobjects
                  (static_image (renderer w1));
         EGetFrame (presentation_state (scene w1)) (frames_made (renderer w1));
         EBlit (frames_made (renderer w1))] /\
      last_frame_data (host w2) = Some (frames_made (renderer w1)).
Proof.
  intros C E.
  destruct (delivery_run src frame w C) as (wp & rp & P & U).
  rewrite U in E. clear U.
  destruct (pump_cases (flat_map (sieve_one env) (sdl_events env (polls w))) (polled w)) as (s' & new & r & P' & _ & _).
  rewrite P' in P. injection P as <- <-.
  destruct r as [[]| |]; try discriminate.
  match type of E with context [update_framerate_clock env ?x] =>
    destruct (update_framerate_clock_cases env x) as (h' & n' & rc & Uc & _ & _ & _ & _);
    rewrite Uc in E end.
  destruct rc as [dt| |]; try discriminate.
  injection E as E1. symmetry in E1.
  assert (L : last_frame_data (host w1) = None) by (rewrite E1; reflexivity).
  split; [exact L|]. split; [rewrite E1; reflexivity|].
  split; [rewrite E1; eexists; reflexivity|].
  destruct (render_idle_frame_redraw_run w1 L) as (Uc1 & R).
  split; [exact Uc1|]. intros w2 E2.
  destruct (R w2 E2) as (dt2 & T & L2 & _). exists dt2. now split.
Qed.

End DeliveryMore.

Section IdleMore.
Variable env : Env.

Lemma pacing_events_painted (ps : PresentationState) (bg : option Frame) (e : Q) :
  Forall (painted_over ps bg) (pacing_events env e).
Proof.
  unfold pacing_events.
  destruct (Qeq_bool e 0); [constructor|].
  destruct (Qeq_bool (frame_rate env) 0); [repeat constructor|].
  destruct (Qlt_bool _ _); repeat constructor.
Qed.

Lemma pacing_trace_painted (ps : PresentationState) (bg : option Frame) (w : World) :
  Forall (painted_over ps bg) (pacing_trace env w).
Proof.
  unfold pacing_trace. destruct (last_frame_at (host w)); [|constructor].
  apply pacing_events_painted.
Qed.

(** One idle frame step that returns. *)
Lemma render_idle_frame_step (w w2 : World) :
  render_idle_frame env w = (w2, Ok tt) ->
  scene w2 = scene w /\
  static_image (renderer w2) = static_image (renderer w) /\
  active_scene (host w2) = true /\
  exists new,
    trace w2 = trace w ++ new /\
    Forall (painted_over (presentation_state (scene w)) (static_image (renderer w))) new.
Proof.
  intro E.
  destruct (last_frame_data (host w)) as [f0|] eqn:L.
  - assert (A : active_scene (host w) = true).
    { unfold render_idle_frame in E. rewrite bind_run in E. cbn [get] in E.
      rewrite L in E. destruct (active_scene (host w)); [reflexivity|discriminate]. }
    destruct (should_update_mobjects_result env (update_calls w)) eqn:Su.
    + set (wa := mkWorld (scene w) (renderer w) (host w) (clock_reads w) (polls w)
                         (stop_calls w) (S (update_calls w)) (trace w)).
      assert (E' : render_idle_frame env w =
              ((if active_scene (host w) then ret tt else raise AttributeError) ;;
               dt <- update_framerate_clock env ;;
               update_mobjects dt ;;
               update_frame MovingMobjects true ;;
               frame <- get_frame ;;
               send_frame_to_window frame ;;
               modify (with_host (set_last_frame_data (Some frame)))) wa).
      { unfold render_idle_frame. rewrite bind_run. cbn [get]. rewrite L, A.
        rewrite bind_run. unfold should_update_mobjects at 1. rewrite Su.
        reflexivity. }
      rewrite E' in E.
      destruct (redraw_run env (active_scene (host w)) wa eq_refl) as (_ & R).
      destruct (R w2 E) as (dt & T & _ & Sc & St & Ac).
      repeat split; try assumption.
      eexists. split; [exact T|].
      apply Forall_app. split; [apply pacing_trace_painted|].
      repeat constructor.
    + destruct (render_idle_frame_reuse_run env w f0 L A Su) as (h' & n' & R & L').
      rewrite R in E. destruct (pacing_returns env w); [|discriminate].
      injection E as <-. cbn. repeat split.
      * unfold render_idle_frame in R. rewrite bind_run in R. cbn [get] in R.
        rewrite L, A in R. rewrite bind_run in R. unfold should_update_mobjects at 1 in R.
        rewrite Su in R. rewrite bind_run in R.
        match type of R with context [update_framerate_clock env ?x] =>
          destruct (update_framerate_clock_cases env x)
            as (hb & nb & rb & Ub & _ & Ab & Db & _); rewrite Ub in R end.
        destruct rb as [dt| |]; try discriminate.
        rewrite bind_run in R. cbn [get host] in R. cbn in Db. rewrite Db, L in R.
        cbn in R. injection R as <- _. cbn in Ab. now rewrite Ab.
      * eexists. split; [reflexivity|].
        apply Forall_app. split; [apply pacing_trace_painted|].
        repeat constructor.
  - destruct (render_idle_frame_redraw_run env w L) as (_ & R).
    destruct (R w2 E) as (dt & T & _ & Sc & St & Ac).
    repeat split; try assumption.
    eexists. split; [exact T|].
    apply Forall_app. split; [apply pacing_trace_painted|].
    repeat constructor.
Qed.

Lemma idle_frames_step (n : nat) :
  forall w w2,
    idle_frames env n w = (w2, Ok tt) ->
    scene w2 = scene w /\
    static_image (renderer w2) = static_image (renderer w) /\
    exists new,
      trace w2 = trace w ++ new /\
      Forall (painted_over (presentation_state (scene w)) (static_image (renderer w))) new.
Proof.
  induction n as [|n IH]; intros w w2 E.
  - cbn in E. injection E as <-. repeat split. exists []. rewrite app_nil_r. now split.
  - cbn [idle_frames] in E. rewrite bind_run in E.
    destruct (render_idle_frame env w) as [w1 [[]| |]] eqn:R; try discriminate.
    destruct (render_idle_frame_step w w1 R) as (S1 & I1 & _ & new1 & T1 & F1).
    destruct (IH w1 w2 E) as (S2 & I2 & new2 & T2 & F2).
    rewrite S1, I1 in *. repeat split; try congruence.
    exists (new1 ++ new2). rewrite T2, T1, app_assoc. split; [reflexivity|].
    apply Forall_app. now split.
Qed.

End IdleMore.

Section IdlePhase.
Variable env : Env.

(** A call that returns [True] ends with the set-up of the IDLE phase. *)
Lemma animate_true (fuel : nat) (w w1 : World) :
  renderer_wired w ->
  animate_to_next_subslide env fuel w = (w1, Ok true) ->
  exists wi, w1 = idle_phase_begun wi /\ host wi = host (fst (gen_next env fuel (entering_animation w))).
Proof.
  intros Wd E. rewrite animate_run in E.
  destruct (gen_next_entering env fuel w) as (_ & _ & Wg & _).
  specialize (Wg Wd).
  destruct (gen_next env fuel (entering_animation w)) as [wg rg] eqn:G.
  cbn [fst] in Wg.
  destruct rg as [[[|]|]| |]; try discriminate.
  - rewrite (begin_idle_phase_run wg Wg) in E. injection E as <-. now exists wg.
  - destruct (is_at_end (scene wg)); [discriminate|].
    rewrite begin_idle_phase_run in E by exact Wg.
    injection E as <-. eexists. split; [reflexivity|reflexivity].
Qed.

(** X5.  When [animate_to_next_subslide] has returned [True], its last
    two events are the capture of the static mobjects and the copy of the
    resulting frame [s], kept as [static_image].  Every rasterization of
    the idle frame steps that follow draws the moving mobjects only, in
    state IDLE, over that snapshot [s]; the snapshot and the state are
    still in place after them. *)
Theorem idle_frames_paint_over_the_snapshot (fuel n : nat) (w w1 w2 : World) :
  renderer_wired w ->
  animate_to_next_subslide env fuel w = (w1, Ok true) ->
  idle_frames env n w1 = (w2, Ok tt) ->
  exists s tr bg new,
    trace w1 = tr ++ [ECapture IDLE StaticMobjects bg; EGetFrame IDLE s] /\
    static_image (renderer w1) = Some s /\
    trace w2 = trace w1 ++ new /\
    Forall (painted_over IDLE (Some s)) new /\
    static_image (renderer w2) = Some s /\
    presentation_state (scene w2) = IDLE.
Proof.
  intros Wd E I.
  destruct (animate_true fuel w w1 Wd E) as (wi & -> & _).
  destruct (idle_frames_step env n _ _ I) as (Sc & St & new & T & F).
  exists (frames_made (renderer wi)),
         (trace wi ++ [EUpdateMobjects 0; EMovingAndStatic]),
         (static_image (renderer wi)), new.
  split; [cbn; now rewrite <- app_assoc|].
  split; [reflexivity|]. split; [exact T|]. split; [exact F|].
  split; [rewrite St; reflexivity|]. now rewrite Sc.
Qed.

End IdlePhase.

Section Quit.
Variable env : Env.

Lemma sieve_advance (raw : list RawEvent) :
  existsb is_advance (flat_map (sieve_one env) raw) = existsb (advancing_key env) raw.
Proof.
  induction raw as [|e raw IH]; [reflexivity|].
  cbn [flat_map existsb]. rewrite existsb_app, IH, sieve_one_cases.
  destruct (is_quit e) eqn:Q.
  - destruct e; try discriminate. reflexivity.
  - destruct (advancing_key env e); reflexivity.
Qed.

Lemma sieve_quit_log (raw : list RawEvent) :
  existsb (advancing_key env) raw = false ->
  pump_log (flat_map (sieve_one env) raw)
  = map (fun _ => ELog LCritical) (filter is_quit raw).
Proof.
  induction raw as [|e raw IH]; [reflexivity|].
  cbn [flat_map existsb filter]. intro H. apply orb_false_iff in H as [H1 H2].
  unfold pump_log in *. rewrite flat_map_app, (IH H2), sieve_one_cases, H1.
  destruct (is_quit e); reflexivity.
Qed.

(** X6.  While a frame of an animation is delivered, quit requests are
    logged as critical and otherwise dropped: when the batch of events
    polled holds no advancing key press, scene and renderer are unchanged,
    the batch is consumed, one critical message is logged per quit request,
    and the frame is paced and blitted as usual. *)
Theorem quit_during_animation_is_dropped (src : Z) (frame : Frame) (w : World) :
  current_slide_source (host w) = Some src ->
  existsb (advancing_key env) (sdl_events env (polls w)) = false ->
  let w' := fst (update_with_rendered_frame env src frame w) in
  let r := snd (update_with_rendered_frame env src frame w) in
  scene w' = scene w /\
  renderer w' = renderer w /\
  polls w' = S (polls w) /\
  r = (if pacing_returns env w then Ok tt else Raise ZeroDivisionError) /\
  trace w' = trace w
    ++ map (fun _ => ELog LCritical) (filter is_quit (sdl_events env (polls w)))
    ++ pacing_trace env w
    ++ (if pacing_returns env w then [EBlit frame] else []).
Proof.
  intros C NA.
  destruct (delivery_run env src frame w C) as (wp & rp & P & U).
  cbv zeta. rewrite U. clear U.
  destruct (pump_cases (flat_map (sieve_one env) (sdl_events env (polls w))) (polled w))
    as (s' & new & r & P' & H1 & H2).
  rewrite P' in P. injection P as <- <-.
  rewrite sieve_advance in H2. destruct (H2 NA) as [-> ->].
  rewrite (H1 eq_refl), (sieve_quit_log _ NA).
  match goal with |- context [update_framerate_clock env ?x] =>
    destruct (update_framerate_clock_cases env x) as (h' & n' & rc & Uc & _ & _ & _ & Rc);
    rewrite Uc;
    change (pacing_returns env x) with (pacing_returns env w) in Rc;
    change (pacing_trace env x) with (pacing_trace env w)
  end.
  destruct (pacing_returns env w).
  - destruct Rc as (dt & -> & _). cbn. rewrite <- !app_assoc. repeat split.
  - subst rc. cbn. rewrite <- !app_assoc, app_nil_r. repeat split.
Qed.

End Quit.

Section Stale.
Variable env : Env.



End Stale.

Section ScriptMore.
Variable env : Env.

Lemma generator_frame_raise {A} (m : M A) (w w1 : World) (e : exn) :
  generator_frame m w = (w1, Raise e) ->
  anim_generator (scene w1) = Some Finished.
Proof.
  unfold generator_frame. destruct (m w) as [w' [a| |]]; intro E; try discriminate.
  now injection E as <- _.
Qed.

Lemma gen_next_raise (fuel : nat) (w w1 : World) (e : exn) (g : Generator) :
  anim_generator (scene w) = Some g ->
  gen_next env fuel w = (w1, Raise e) ->
  anim_generator (scene w1) = Some Finished.
Proof.
  intros G E. unfold gen_next in E. rewrite bind_run in E. cbn [get] in E.
  rewrite G in E. destruct g as [[|seg segs] rest|].
  - rewrite bind_run in E.
    destruct (generator_frame (run_plays env fuel rest) w) as [wp [[]| |]] eqn:F;
      try discriminate.
    injection E as <- <-. exact (generator_frame_raise _ _ _ _ F).
  - rewrite bind_run in E.
    destruct (generator_frame (run_plays env fuel (seg_plays seg)) w) as [wp [[]| |]] eqn:F;
      try discriminate.
    injection E as <- <-. exact (generator_frame_raise _ _ _ _ F).
  - discriminate.
Qed.

(** X8.  An exception that escapes [animate_to_next_subslide] (with a
    renderer attached to an active scene) comes out of the script and
    finishes its generator: the scene stays ANIMATING, the rest of the
    script is lost, and the next call finds the generator exhausted,
    enters the closing IDLE phase and returns [True]. *)
Theorem failed_group_ends_the_script
    (fuel : nat) (w w1 : World) (e : exn) (g : Generator) :
  renderer_wired w ->
  anim_generator (scene w) = Some g ->
  is_at_end (scene w) = false ->
  animate_to_next_subslide env fuel w = (w1, Raise e) ->
  anim_generator (scene w1) = Some Finished /\
  presentation_state (scene w1) = ANIMATING /\
  is_at_end (scene w1) = false /\
  exists w2,
    animate_to_next_subslide env fuel w1 = (w2, Ok true) /\
    presentation_state (scene w2) = IDLE /\
    is_at_end (scene w2) = true /\
    trace w2 = trace w1 ++
      [EGenStop; EUpdateMobjects 0; EMovingAndStatic;
       ECapture IDLE StaticMobjects None;
       EGetFrame IDLE (frames_made (renderer w1))].
Proof.
  intros Wd G Ae E. rewrite animate_run in E.
  destruct (gen_next_entering env fuel w) as (Ps & Ae' & Wg & _).
  specialize (Wg Wd). rewrite Ae in Ae'.
  destruct (gen_next env fuel (entering_animation w)) as [wg rg] eqn:Gn.
  cbn [fst] in *.
  assert (R : rg = Raise e /\ wg = w1).
  { destruct rg as [[[|]|]| |].
    - rewrite (begin_idle_phase_run wg Wg) in E. discriminate.
    - discriminate.
    - rewrite Ae' in E. rewrite begin_idle_phase_run in E by exact Wg. discriminate.
    - now injection E as <- <-.
    - discriminate. }
  destruct R as [-> ->].
  assert (F : anim_generator (scene w1) = Some Finished).
  { eapply gen_next_raise; [|exact Gn]. exact G. }
  split; [exact F|]. split; [exact Ps|]. split; [exact Ae'|].
  rewrite animate_run.
  rewrite (gen_next_finished env fuel (entering_animation w1)) by exact F.
  cbn [with_trace scene is_at_end entering_animation with_scene with_renderer
       set_presentation_state set_is_skipping_to_end].
  rewrite Ae'.
  match goal with |- context [begin_idle_phase ?x] => set (wi := x) end.
  assert (Wi : renderer_wired wi) by exact Wg.
  rewrite (begin_idle_phase_run wi Wi).
  eexists. split; [reflexivity|]. split; [reflexivity|]. split; [reflexivity|].
  cbn. now rewrite <- app_assoc.
Qed.

Lemma idle_phases_after_the_end (toks : list AnimationGroupEndAction) :
  idle_phases_to_come toks true = subslides_to_come toks.
Proof.
  induction toks as [|[|] toks IH]; cbn; congruence.
Qed.

(** X9.  [start_render] restarts a generator script from its beginning
    but does not reset [is_at_end].  On a scene whose script ran to its end
    before, the restarted presentation has one IDLE phase per SUBSLIDE
    token and no closing one: the call that exhausts the script returns
    [False]. *)
Theorem restarted_script_has_no_closing_idle_phase
    (calls fuel : nat) (w w' : World) (n : nat)
    (segs : list Segment) (rest : list PlayCall) :
  renderer_wired w ->
  construct (scene w) = GeneratorFunction segs rest ->
  is_at_end (scene w) = true ->
  let w1 := fst (start_render env w) in
  snd (start_render env w) = Ok tt /\
  anim_generator (scene w1) = Some (Suspended segs rest) /\
  presentation_state (scene w1) = ANIMATING /\
  is_at_end (scene w1) = true /\
  (present env calls fuel w1 = (w', Ok n) ->
   n = subslides_to_come (map seg_token segs) /\
   exists new,
     trace w' = trace w1 ++ new /\
     count_events is_idle_entry new = n /\
     count_events is_subslide_yield new = n).
Proof.
  intros Wd C Ae. unfold start_render.
  rewrite bind_run. cbn [emit modify]. rewrite bind_run. cbn [get].
  cbn [with_trace scene]. rewrite C. cbn -[present].
  split; [reflexivity|]. split; [reflexivity|]. split; [reflexivity|].
  split; [exact Ae|]. intro P.
  eapply present_counts in P; [| |reflexivity].
  - destruct P as (new & T & N & Ci & Cs & _).
    cbn in N, Cs. rewrite Ae, idle_phases_after_the_end in N.
    split; [exact N|]. exists new. split; [exact T|]. split; [exact Ci|].
    now rewrite Cs.
  - exact Wd.
Qed.

End ScriptMore.

Section Headless.
Variable env : Env.

Lemma play_internal_dummy (fuel : nat) (w : World) :
  kind (renderer w) = DummySlideRenderer ->
  exists w' new,
    play_internal env (S fuel) true w = (w', Ok tt) /\
    kind (renderer w') = DummySlideRenderer /\
    num_plays (renderer w') = num_plays (renderer w) /\
    frames_made (renderer w') = frames_made (renderer w) /\
    host w' = host w /\ polls w' = polls w /\
    (clock_reads w' <= clock_reads w + 2)%nat /\
    trace w' = trace w ++ new /\
    forallb is_engine_event new = true.
Proof.
  intro K. unfold play_internal, bind. cbn.
  destruct (Qlt_bool 0 (duration (scene w))); cbn.
  - destruct (stop_condition (scene w)); cbn.
    + destruct (stop_condition_result env (stop_calls w)); cbn.
      * do 2 eexists. split; [reflexivity|]. cbn.
        rewrite <- !app_assoc. cbn. repeat split; try assumption; try lia.
      * rewrite bind_run, skip_animations_run. cbn. rewrite K. cbn. do 2 eexists. split; [reflexivity|]. cbn.
        rewrite <- !app_assoc. cbn. repeat split; try assumption; try lia.
    + rewrite bind_run, skip_animations_run. cbn. rewrite K. cbn. do 2 eexists. split; [reflexivity|]. cbn.
      rewrite <- !app_assoc. cbn. repeat split; try assumption; try lia.
  - do 2 eexists. split; [reflexivity|]. cbn.
    repeat split; try assumption; try lia.
Qed.

Lemma renderer_play_dummy (fuel : nat) (p : PlayCall) (w : World) :
  kind (renderer w) = DummySlideRenderer ->
  exists w' new,
    renderer_play env (S fuel) p w = (w', Ok tt) /\
    kind (renderer w') = DummySlideRenderer /\
    num_plays (renderer w') = S (num_plays (renderer w)) /\
    frames_made (renderer w') = frames_made (renderer w) /\
    host w' = host w /\ polls w' = polls w /\
    (clock_reads w' <= clock_reads w + 2)%nat /\
    trace w' = trace w ++ ECompile (negb (Nat.eqb (num_plays (renderer w)) 0)) p :: new /\
    forallb is_engine_event new = true.
Proof.
  intro K. unfold renderer_play. rewrite bind_run. cbn [get]. rewrite K.
  rewrite bind_run. cbn [modify]. rewrite bind_run. cbn [get].
  cbn [with_renderer renderer set_num_plays num_plays].
  assert (E1 : Nat.eqb (S (num_plays (renderer w))) 1
               = Nat.eqb (num_plays (renderer w)) 0) by reflexivity.
  rewrite E1.
  set (w0 := mkWorld (scene w) (set_num_plays (S (num_plays (renderer w))) (renderer w))
                     (host w) (clock_reads w) (polls w) (stop_calls w)
                     (update_calls w) (trace w)).
  assert (Cm : forall sk,
             exists w' new,
               (s <- compile_animation_data sk p ;;
                if s then play_internal env (S fuel) true else ret tt) w0 = (w', Ok tt) /\
               kind (renderer w') = DummySlideRenderer /\
               num_plays (renderer w') = S (num_plays (renderer w)) /\
               frames_made (renderer w') = frames_made (renderer w) /\
               host w' = host w /\ polls w' = polls w /\
               (clock_reads w' <= clock_reads w + 2)%nat /\
               trace w' = trace w ++ ECompile sk p :: new /\
               forallb is_engine_event new = true).
  { intro sk. rewrite bind_run. unfold compile_animation_data.
    rewrite bind_run. cbn [emit modify].
    destruct p as [g|].
    - rewrite bind_run. cbn [modify ret].
      match goal with |- context [play_internal env (S fuel) true ?x] =>
        destruct (play_internal_dummy fuel x) as (w' & new & P & K' & N' & F' & H' & Po' & C' & T' & E');
        [exact K|] end.
      rewrite P. exists w', new. split; [reflexivity|].
      cbn in N', F', H', Po', C', T'.
      repeat split; try assumption.
      rewrite T', <- app_assoc. reflexivity.
    - cbn. exists (with_trace (ECompile sk None) w0), []. cbn.
      repeat split; try assumption; try lia. }
  fold w0. destruct (Nat.eqb (num_plays (renderer w)) 0); cbn [negb]; apply Cm.
Qed.

Lemma run_plays_dummy (fuel : nat) (ps : list PlayCall) :
  forall w,
    kind (renderer w) = DummySlideRenderer ->
    exists w' new,
      run_plays env (S fuel) ps w = (w', Ok tt) /\
      kind (renderer w') = DummySlideRenderer /\
      num_plays (renderer w') = (num_plays (renderer w) + length ps)%nat /\
      frames_made (renderer w') = frames_made (renderer w) /\
      host w' = host w /\ polls w' = polls w /\
      (clock_reads w' <= clock_reads w + 2 * length ps)%nat /\
      trace w' = trace w ++ new /\
      filter (fun e => negb (is_engine_event e)) new
      = dummy_compiles (num_plays (renderer w)) ps.
Proof.
  induction ps as [|p ps IH]; intros w K.
  - exists w, []. cbn. rewrite app_nil_r. repeat split; try assumption; lia.
  - unfold run_plays in *. cbn [for_each]. rewrite bind_run.
    destruct (renderer_play_dummy fuel p w K)
      as (w1 & new1 & P & K1 & N1 & F1 & H1 & Po1 & C1 & T1 & E1).
    unfold scene_play at 1. rewrite P.
    destruct (IH w1 K1) as (w2 & new2 & P2 & K2 & N2 & F2 & H2 & Po2 & C2 & T2 & E2).
    rewrite P2. exists w2, ((ECompile (negb (Nat.eqb (num_plays (renderer w)) 0)) p :: new1) ++ new2).
    split; [reflexivity|]. split; [exact K2|].
    split; [rewrite N2, N1; cbn [length]; lia|].
    split; [congruence|]. split; [congruence|]. split; [congruence|].
    split; [cbn [length]; lia|].
    split; [rewrite T2, T1, <- app_assoc; reflexivity|].
    rewrite filter_app. cbn [filter is_engine_event negb dummy_compiles].
    rewrite E2, N1. f_equal.
    assert (Z : filter (fun e => negb (is_engine_event e)) new1 = []).
    { clear - E1. induction new1 as [|e l IHl]; [reflexivity|].
      cbn in *. apply andb_true_iff in E1 as [-> E1]. cbn. auto. }
    now rewrite Z.
Qed.

Lemma dummy_compiles_later (n : nat) (ps : list PlayCall) :
  dummy_compiles (S n) ps = map (ECompile true) ps.
Proof.
  revert n. induction ps as [|p ps IH]; intro n; [reflexivity|].
  cbn. now rewrite IH.
Qed.

Lemma filter_compile_engine (l : list Event) :
  filter is_compile (filter (fun e => negb (is_engine_event e)) l)
  = filter is_compile l.
Proof.
  induction l as [|e l IH]; [reflexivity|].
  destruct e; cbn; rewrite IH; reflexivity.
Qed.

Lemma filter_compile_dummy (n : nat) (ps : list PlayCall) :
  filter is_compile (dummy_compiles n ps) = dummy_compiles n ps.
Proof.
  revert n. induction ps as [|p ps IH]; intro n; [reflexivity|].
  cbn. now rewrite IH.
Qed.

(** The compilations among the events of headless plays. *)
Lemma run_plays_dummy_compiles (fuel : nat) (ps : list PlayCall) (w : World) :
  kind (renderer w) = DummySlideRenderer ->
  exists w' new,
    run_plays env (S fuel) ps w = (w', Ok tt) /\
    num_plays (renderer w') = (num_plays (renderer w) + length ps)%nat /\
    trace w' = trace w ++ new /\
    filter is_compile new = dummy_compiles (num_plays (renderer w)) ps.
Proof.
  intro K.
  destruct (run_plays_dummy fuel ps w K) as (w' & new & P & _ & N & _ & _ & _ & _ & T & E).
  exists w', new. repeat split; try assumption.
  now rewrite <- filter_compile_engine, E, filter_compile_dummy.
Qed.

(** X10.  [DummySlideRenderer.play] counts the plays and asks for their
    compilation in order, the first play for rendering and every later one
    with [skip_rendering]; with one unit of fuel the plays of a list all
    return.  The playback it then runs, [play_internal] with
    [skip_rendering], returns after at most one iteration of its loop and
    two readings of the clock and never renders: it makes no frame,
    touches neither the host nor the event queue, and only moves the
    objects along, closes the progress display and finishes the
    animations.  (What [compile_animation_data] draws is the engine's
    business and not stated here.) *)
Theorem headless_playback_never_renders
    (fuel : nat) (ps : list PlayCall) (w : World) :
  kind (renderer w) = DummySlideRenderer ->
  num_plays (renderer w) = 0%nat ->
  (0 < fuel)%nat ->
  (exists w' new,
     run_plays env fuel ps w = (w', Ok tt) /\
     num_plays (renderer w') = length ps /\
     trace w' = trace w ++ new /\
     filter is_compile new
     = match ps with
       | [] => []
       | p :: ps' => ECompile false p :: map (ECompile true) ps'
       end) /\
  (exists w' new,
     play_internal env fuel true w = (w', Ok tt) /\
     frames_made (renderer w') = frames_made (renderer w) /\
     host w' = host w /\ polls w' = polls w /\
     (clock_reads w' <= clock_reads w + 2)%nat /\
     trace w' = trace w ++ new /\
     forallb is_engine_event new = true).
Proof.
  intros K N F. destruct fuel as [|fuel]; [lia|]. split.
  - destruct (run_plays_dummy_compiles fuel ps w K) as (w' & new & P & N' & T & E).
    exists w', new. rewrite N in *. repeat split; try assumption.
    rewrite E. destruct ps as [|p ps]; [reflexivity|]. cbn [dummy_compiles].
    now rewrite dummy_compiles_later.
  - destruct (play_internal_dummy fuel w K)
      as (w' & new & P & _ & _ & F' & H' & Po & C & T & E).
    exists w', new. repeat split; assumption.
Qed.

End Headless.

Section Skipping.
Variable env : Env.

Lemma last_run_skipping (w : World) :
  fast_forwarding w ->
  (w0 <- get ;; update_to_time (duration (scene w0)) ;; renderer_render env) w =
  (let w1 := with_trace (EUpdateToTime (duration (scene w)))
               (with_scene (set_last_t (duration (scene w))) w) in
   with_trace (EGetFrame (presentation_state (scene w1)) (frames_made (renderer w1)))
     (with_renderer (set_frames_made (S (frames_made (renderer w1))))
        (with_trace (ECapture (presentation_state (scene w1)) MovingMobjects
                              (static_image (renderer w1))) w1)),
   Ok tt).
Proof.
  intros (K & H & A & F). rewrite bind_run. cbn [get].
  unfold update_to_time. rewrite bind_run. rewrite bind_run. cbn [modify emit].
  rewrite render_while_skipping; [reflexivity|exact K|exact H|exact A|exact F].
Qed.

Lemma play_internal_skipping (fuel : nat) (w : World) :
  fast_forwarding w ->
  exists w' new,
    play_internal env (S fuel) false w = (w', Ok tt) /\
    fast_forwarding w' /\
    host w' = host w /\ polls w' = polls w /\
    (clock_reads w' <= clock_reads w + 2)%nat /\
    trace w' = trace w ++ new /\
    forallb (fun e => negb (is_window_event e)) new = true /\
    (Qlt_bool 0 (duration (scene w)) = true ->
     ~ In ECloseProgression new ->
     last_t (scene w') = duration (scene w)).
Proof.
  intros (K & H & A & F). unfold play_internal. rewrite bind_run. cbn [time_time].
  rewrite bind_run. cbn [play_loop]. rewrite bind_run. cbn [get scene].
  destruct (Qlt_bool 0 (duration (scene w))) eqn:D.
  - rewrite bind_run. cbn [time_time clock_reads]. rewrite bind_run.
    unfold update_to_time at 1. rewrite bind_run. cbn [modify]. cbn [emit modify].
    rewrite bind_run. cbn [negb].
    rewrite render_while_skipping; [|exact K|exact H|exact A|exact F].
    rewrite bind_run. cbn [get]. cbn -[renderer_render skip_animations bind].
    destruct (stop_condition (scene w)).
    + rewrite bind_run. cbn -[renderer_render skip_animations bind].
      destruct (stop_condition_result env (stop_calls w)).
      * cbn. do 2 eexists. split; [reflexivity|]. cbn.
        rewrite <- !app_assoc. cbn.
        split; [repeat split; assumption|].
        repeat split; try lia.
        intros _ N. exfalso. apply N. cbn. auto 10.
      * rewrite bind_run, skip_animations_run.
        cbn -[renderer_render skip_animations bind]. rewrite K, H, A, F.
        cbn -[renderer_render skip_animations bind].
        rewrite bind_run, last_run_skipping by (repeat split; assumption).
        cbn. do 2 eexists. split; [reflexivity|]. cbn.
        rewrite <- !app_assoc. cbn.
        split; [repeat split; assumption|].
        repeat split; try lia.
    + rewrite bind_run. cbn [ret]. rewrite bind_run, skip_animations_run.
      cbn -[renderer_render skip_animations bind]. rewrite K, H, A, F.
      cbn -[renderer_render skip_animations bind].
      rewrite bind_run, last_run_skipping by (repeat split; assumption).
      cbn. do 2 eexists. split; [reflexivity|]. cbn.
      rewrite <- !app_assoc. cbn.
      split; [repeat split; assumption|].
      repeat split; try lia.
  - cbn. do 2 eexists. split; [reflexivity|]. cbn.
    split; [repeat split; assumption|].
    repeat split; try lia.
Qed.

Lemma renderer_play_skipping (fuel : nat) (p : PlayCall) (w : World) :
  fast_forwarding w ->
  exists w' new,
    renderer_play env (S fuel) p w = (w', Ok tt) /\
    fast_forwarding w' /\
    host w' = host w /\ polls w' = polls w /\
    (clock_reads w' <= clock_reads w + 2)%nat /\
    trace w' = trace w ++ new /\
    forallb (fun e => negb (is_window_event e)) new = true.
Proof.
  intros FF. pose proof FF as (K & H & A & F).
  unfold renderer_play. rewrite bind_run. cbn [get]. rewrite K.
  rewrite bind_run. unfold compile_animation_data. rewrite bind_run.
  cbn [emit modify]. destruct p as [g|].
  - rewrite bind_run. cbn [modify ret].
    match goal with |- context [play_internal env (S fuel) false ?x] =>
      destruct (play_internal_skipping fuel x)
        as (w' & new & P & FF' & H' & Po' & C' & T' & E' & _);
      [repeat split; assumption|] end.
    rewrite P. exists w', (ECompile false (Some g) :: new).
    cbn in H', Po', C', T'.
    repeat split; try apply FF'; try assumption.
    rewrite T', <- app_assoc. reflexivity.
  - cbn. exists (with_trace (ECompile false None) w), [ECompile false None].
    cbn. repeat split; try assumption; lia.
Qed.

Lemma run_plays_skipping (fuel : nat) (ps : list PlayCall) :
  forall w,
    fast_forwarding w ->
    exists w' new,
      run_plays env (S fuel) ps w = (w', Ok tt) /\
      fast_forwarding w' /\
      host w' = host w /\ polls w' = polls w /\
      (clock_reads w' <= clock_reads w + 2 * length ps)%nat /\
      trace w' = trace w ++ new /\
      forallb (fun e => negb (is_window_event e)) new = true.
Proof.
  induction ps as [|p ps IH]; intros w FF.
  - exists w, []. cbn. rewrite app_nil_r. repeat split; try apply FF; lia.
  - unfold run_plays in *. cbn [for_each]. rewrite bind_run.
    destruct (renderer_play_skipping fuel p w FF)
      as (w1 & new1 & P & FF1 & H1 & Po1 & C1 & T1 & E1).
    unfold scene_play at 1. rewrite P.
    destruct (IH w1 FF1) as (w2 & new2 & P2 & FF2 & H2 & Po2 & C2 & T2 & E2).
    rewrite P2. exists w2, (new1 ++ new2).
    split; [reflexivity|]. split; [exact FF2|].
    split; [congruence|]. split; [congruence|].
    split; [cbn [length]; lia|].
    split; [rewrite T2, T1, <- app_assoc; reflexivity|].
    now rewrite forallb_app, E1, E2.
Qed.

(** X11.  Once the fast-forward flag is up, the plays of a live scene
    always return (one unit of fuel suffices), keep the flag up, leave the
    host and the event queue untouched, and put nothing on the window or
    the log: no blit, no delay, no message. *)
Theorem fast_forwarded_plays_leave_the_window_alone
    (fuel : nat) (ps : list PlayCall) (w : World) :
  fast_forwarding w ->
  (0 < fuel)%nat ->
  exists w' new,
    run_plays env fuel ps w = (w', Ok tt) /\
    fast_forwarding w' /\
    host w' = host w /\
    polls w' = polls w /\
    (clock_reads w' <= clock_reads w + 2 * length ps)%nat /\
    trace w' = trace w ++ new /\
    forallb (fun e => negb (is_window_event e)) new = true.
Proof.
  intros FF F. destruct fuel as [|fuel]; [lia|].
  exact (run_plays_skipping fuel ps w FF).
Qed.

(** X12.  A play of a live scene entered with the fast-forward flag up
    always returns, after at most one iteration of its loop and two
    readings of the clock.  Unless its stop condition closed it, it leaves
    the objects in their state at the full duration of the group; a group
    without a positive duration is finished at once. *)
Theorem fast_forwarded_play_jumps_to_its_end (fuel : nat) (w : World) :
  fast_forwarding w ->
  (0 < fuel)%nat ->
  exists w' new,
    play_internal env fuel false w = (w', Ok tt) /\
    trace w' = trace w ++ new /\
    (clock_reads w' <= clock_reads w + 2)%nat /\
    (0 < duration (scene w) ->
     ~ In ECloseProgression new ->
     last_t (scene w') = duration (scene w)) /\
    (~ 0 < duration (scene w) -> new = [EFinishAnimations]).
Proof.
  intros FF F. destruct fuel as [|fuel]; [lia|].
  destruct (play_internal_skipping fuel w FF)
    as (w' & new & P & _ & _ & _ & C & T & _ & L).
  exists w', new. split; [exact P|]. split; [exact T|]. split; [exact C|].
  split.
  - intros D N. apply L; [|exact N]. now apply Qlt_bool_iff.
  - intro D.
    assert (B : Qlt_bool 0 (duration (scene w)) = false).
    { destruct (Qlt_bool 0 (duration (scene w))) eqn:E; [|reflexivity].
      apply Qlt_bool_iff in E. now elim D. }
    clear - P T B. unfold play_internal in P. rewrite bind_run in P.
    cbn [time_time] in P. rewrite bind_run in P. cbn [play_loop] in P.
    rewrite bind_run in P. cbn [get scene] in P. rewrite B in P. cbn in P.
    injection P as <-. cbn in T. now apply app_inv_head in T.
Qed.

End Skipping.

Section Errors.
Variable env : Env.

Lemma ozd_ret {A} (a : A) : only_zero_division (ret a).
Proof. intros w R. split; [exact R|discriminate]. Qed.

Lemma ozd_out_of_fuel {A} : only_zero_division (@out_of_fuel A).
Proof. intros w R. split; [exact R|discriminate]. Qed.

Lemma ozd_bind {A B} (m : M A) (k : A -> M B) :
  only_zero_division m -> (forall a, only_zero_division (k a)) ->
  only_zero_division (bind m k).
Proof.
  intros Hm Hk w R. rewrite bind_run. destruct (Hm w R) as [R1 E1].
  destruct (m w) as [w1 [a| |]]; cbn [fst snd] in *.
  - exact (Hk a w1 R1).
  - split; [exact R1|]. intros e0 E. injection E as <-. now apply E1.
  - split; [exact R1|discriminate].
Qed.

Lemma ozd_get {A} (k : World -> M A) :
  (forall w, running w ->
     running (fst (k w w)) /\ forall e, snd (k w w) = Raise e -> e = ZeroDivisionError) ->
  only_zero_division (bind get k).
Proof. intros H w R. rewrite bind_run. cbn [get]. exact (H w R). Qed.

Lemma ozd_if {A} (b : bool) (m1 m2 : M A) :
  only_zero_division m1 -> only_zero_division m2 ->
  only_zero_division (if b then m1 else m2).
Proof. now destruct b. Qed.

Lemma ozd_modify (f : World -> World) :
  (forall w, running w -> running (f w)) -> only_zero_division (modify f).
Proof. intros H w R. split; [exact (H w R)|discriminate]. Qed.

Lemma ozd_emit (e : Event) : only_zero_division (emit e).
Proof. apply ozd_modify. intros w R. exact R. Qed.

Lemma ozd_for_each {A} (l : list A) (body : A -> M unit) :
  (forall x, only_zero_division (body x)) -> only_zero_division (for_each l body).
Proof.
  intro H. induction l as [|x l IH]; cbn [for_each]; [apply ozd_ret|].
  apply ozd_bind; [apply H|]. intros _. exact IH.
Qed.

Lemma play_rel_running (w w' : World) : play_rel w w' -> running w -> running w'.
Proof.
  intros P (K & H & A & G). destruct P.
  repeat split; congruence.
Qed.

(** A computation that respects [play_rel] keeps the slideshow running. *)
Lemma ozd_played {A} (m : M A) :
  respects play_rel m ->
  (forall w, running w -> forall e, snd (m w) = Raise e -> e = ZeroDivisionError) ->
  only_zero_division m.
Proof.
  intros Hr He w R. split; [exact (play_rel_running _ _ (Hr w) R)|exact (He w R)].
Qed.

Lemma ozd_clock : only_zero_division (update_framerate_clock env).
Proof.
  apply ozd_played.
  - apply respects_play_delivery, respects_delivery_clock.
  - intros w _ e E.
    destruct (update_framerate_clock_cases env w) as (h' & n' & r & U & _ & _ & _ & Rr).
    rewrite U in E. cbn in E. subst r.
    destruct (pacing_returns env w).
    + destruct Rr as (dt & Rr & _). discriminate.
    + now injection Rr as <-.
Qed.

Lemma ozd_sieve : only_zero_division (sieve_events env).
Proof.
  apply ozd_played.
  - apply respects_play_delivery, respects_delivery_sieve.
  - intros w _ e E. discriminate.
Qed.

Lemma ozd_skip_animations : only_zero_division skip_animations.
Proof.
  intros w R. rewrite skip_animations_run. split; [exact R|].
  destruct R as (K & H & A & _). cbn. rewrite K, H, A. discriminate.
Qed.

Lemma ozd_update_frame (m : MobjectsArg) : only_zero_division (update_frame m true).
Proof.
  apply ozd_played.
  - apply respects_play_delivery, respects_delivery_update_frame.
  - intros w (K & H & A & _) e. rewrite update_frame_run, skip_animations_run.
    cbn. rewrite K, H, A. discriminate.
Qed.

Lemma ozd_get_frame : only_zero_division get_frame.
Proof.
  apply ozd_played.
  - apply respects_play_delivery, respects_delivery_get_frame.
  - intros w _ e. rewrite get_frame_run. discriminate.
Qed.

Lemma ozd_update_with_rendered_frame (src : Z) (frame : Frame) :
  only_zero_division (update_with_rendered_frame env src frame).
Proof.
  unfold update_with_rendered_frame. apply ozd_get. intros w R.
  apply ozd_if; [apply ozd_emit| |exact R].
  apply ozd_bind; [apply ozd_sieve|]. intro evts.
  apply ozd_bind.
  - apply ozd_for_each. intros [| |].
    + apply ozd_emit.
    + apply ozd_bind; [apply ozd_emit|]. intros _.
      apply ozd_get. intros w1 R1. pose proof R1 as (_ & _ & A & _). rewrite A.
      split; [|discriminate].
      destruct R1 as (K1 & H1 & A1 & G1). repeat split; assumption.
    + apply ozd_ret.
  - intros _. apply ozd_bind; [apply ozd_clock|]. intros _.
    apply ozd_bind; [apply ozd_emit|]. intros _.
    apply ozd_modify. intros w1 R1. exact R1.
Qed.

Lemma ozd_add_frame (frame : Frame) : only_zero_division (add_frame env frame).
Proof.
  unfold add_frame. apply ozd_bind; [apply ozd_skip_animations|]. intro skip.
  apply ozd_if; [apply ozd_ret|].
  apply ozd_get. intros w R. pose proof R as (_ & H & _). rewrite H.
  now apply ozd_update_with_rendered_frame.
Qed.

Lemma ozd_render : only_zero_division (renderer_render env).
Proof.
  unfold renderer_render. apply ozd_get. intros w R.
  pose proof R as (K & _). rewrite K.
  assert (H : only_zero_division
    (update_frame MovingMobjects true ;; f <- get_frame ;; add_frame env f)).
  { apply ozd_bind; [apply ozd_update_frame|]. intros _.
    apply ozd_bind; [apply ozd_get_frame|]. intro f. apply ozd_add_frame. }
  exact (H w R).
Qed.

Lemma ozd_quiet {A} (m : M A) :
  respects play_rel m -> (forall w e, snd (m w) <> Raise e) -> only_zero_division m.
Proof.
  intros Hr Hn. apply ozd_played; [exact Hr|].
  intros w _ e E. now elim (Hn w e).
Qed.

Lemma ozd_time : only_zero_division (time_time env).
Proof. apply ozd_quiet; [apply respects_play_time|discriminate]. Qed.

Lemma ozd_update_to_time (t : Q) : only_zero_division (update_to_time t).
Proof. apply ozd_quiet; [apply respects_play_update_to_time|discriminate]. Qed.

Lemma ozd_stop_condition : only_zero_division (call_stop_condition env).
Proof. apply ozd_quiet; [apply respects_play_stop_condition|discriminate]. Qed.

Lemma ozd_clear_static :
  only_zero_division (modify (with_renderer (set_static_image None))).
Proof. apply ozd_quiet; [apply respects_play_clear_static|discriminate]. Qed.

Lemma ozd_compile (sk : bool) (p : PlayCall) :
  only_zero_division (compile_animation_data sk p).
Proof.
  apply ozd_quiet; [apply respects_play_compile|].
  intros w e. unfold compile_animation_data. destruct p; discriminate.
Qed.

Lemma ozd_play_loop (fuel : nat) (sr : bool) (t_0 : Q) :
  forall t, only_zero_division (play_loop env fuel sr t_0 t).
Proof.
  induction fuel as [|fuel IH]; intro t; cbn [play_loop].
  - apply ozd_get. intros w R. destruct (Qlt_bool t (duration (scene w))).
    + now apply ozd_out_of_fuel.
    + now apply ozd_ret.
  - apply ozd_get. intros w R. destruct (Qlt_bool t (duration (scene w)));
      [|now apply ozd_ret].
    revert w R. 
    apply ozd_bind; [apply ozd_time|]. intro now.
    apply ozd_bind; [apply ozd_update_to_time|]. intros _.
    apply ozd_bind; [apply ozd_if; [apply ozd_render|apply ozd_ret]|]. intros _.
    apply ozd_get. intros w1 R1.
    assert (H : only_zero_division
      (stop <- (if stop_condition (scene w1) then call_stop_condition env else ret false) ;;
       if stop then emit ECloseProgression ;; ret false
       else skip <- skip_animations ;;
            if skip then ret true else play_loop env fuel sr t_0 (now - t_0))).
    { apply ozd_bind; [apply ozd_if; [apply ozd_stop_condition|apply ozd_ret]|].
      intro stop. apply ozd_if.
      - apply ozd_bind; [apply ozd_emit|]. intros _. apply ozd_ret.
      - apply ozd_bind; [apply ozd_skip_animations|]. intro skip.
        apply ozd_if; [apply ozd_ret|apply IH]. }
    exact (H w1 R1).
Qed.

Lemma ozd_play_internal (fuel : nat) (sr : bool) :
  only_zero_division (play_internal env fuel sr).
Proof.
  unfold play_internal.
  apply ozd_bind; [apply ozd_time|]. intro t_0.
  apply ozd_bind; [apply ozd_play_loop|]. intro nlr.
  apply ozd_bind.
  - apply ozd_if; [|apply ozd_ret].
    apply ozd_get. intros w R.
    assert (H : only_zero_division
      (update_to_time (duration (scene w)) ;; renderer_render env)).
    { apply ozd_bind; [apply ozd_update_to_time|]. intros _. apply ozd_render. }
    exact (H w R).
  - intros _. apply ozd_bind; [apply ozd_emit|]. intros _. apply ozd_clear_static.
Qed.

Lemma ozd_renderer_play (fuel : nat) (p : PlayCall) :
  only_zero_division (renderer_play env fuel p).
Proof.
  unfold renderer_play. apply ozd_get. intros w R.
  pose proof R as (K & _). rewrite K.
  assert (H : only_zero_division
    (s <- compile_animation_data false p ;;
     if s then play_internal env fuel false else ret tt)).
  { apply ozd_bind; [apply ozd_compile|]. intro s.
    apply ozd_if; [apply ozd_play_internal|apply ozd_ret]. }
  exact (H w R).
Qed.

Lemma ozd_run_plays (fuel : nat) (ps : list PlayCall) :
  only_zero_division (run_plays env fuel ps).
Proof. apply ozd_for_each. intro p. apply ozd_renderer_play. Qed.

Lemma ozd_generator_frame {A} (m : M A) :
  only_zero_division m -> only_zero_division (generator_frame m).
Proof.
  intros H w R. unfold generator_frame. destruct (H w R) as [R1 E1].
  destruct (m w) as [w1 [a| |]]; cbn [fst snd] in *; try (split; assumption).
  split; [|exact E1].
  destruct R1 as (K1 & H1 & A1 & _). repeat split; try assumption. discriminate.
Qed.

Lemma running_set_generator (g : Generator) (w : World) :
  running w -> running (with_scene (set_anim_generator (Some g)) w).
Proof. intros (K & H & A & _). repeat split; try assumption. discriminate. Qed.

Lemma ozd_gen_next (fuel : nat) : only_zero_division (gen_next env fuel).
Proof.
  unfold gen_next. apply ozd_get. intros w R.
  destruct (anim_generator (scene w)) as [[[|seg segs] rest|]|] eqn:G.
  - assert (H : only_zero_division
      (generator_frame (run_plays env fuel rest) ;;
       modify (with_scene (set_anim_generator (Some Finished))) ;;
       emit EGenStop ;; ret (@None AnimationGroupEndAction))).
    { apply ozd_bind; [apply ozd_generator_frame, ozd_run_plays|]. intros _.
      apply ozd_bind; [apply ozd_modify, running_set_generator|]. intros _.
      apply ozd_bind; [apply ozd_emit|]. intros _. apply ozd_ret. }
    exact (H w R).
  - assert (H : only_zero_division
      (generator_frame (run_plays env fuel (seg_plays seg)) ;;
       modify (with_scene (set_anim_generator (Some (Suspended segs rest)))) ;;
       emit (EGenYield (seg_token seg)) ;; ret (Some (seg_token seg)))).
    { apply ozd_bind; [apply ozd_generator_frame, ozd_run_plays|]. intros _.
      apply ozd_bind; [apply ozd_modify, running_set_generator|]. intros _.
      apply ozd_bind; [apply ozd_emit|]. intros _. apply ozd_ret. }
    exact (H w R).
  - assert (H : only_zero_division
      (emit EGenStop ;; ret (@None AnimationGroupEndAction))).
    { apply ozd_bind; [apply ozd_emit|]. intros _. apply ozd_ret. }
    exact (H w R).
  - destruct R as (_ & _ & _ & N). now elim N.
Qed.

Lemma running_scene_flag (f : SceneState -> SceneState) (w : World) :
  (forall s, anim_generator (f s) = anim_generator s) ->
  running w -> running (with_scene f w).
Proof.
  intros Hf (K & H & A & G). repeat split; try assumption.
  cbn. now rewrite Hf.
Qed.

Lemma ozd_save_static : only_zero_division save_static_frame_data.
Proof.
  unfold save_static_frame_data.
  apply ozd_bind; [apply ozd_update_frame|]. intros _.
  apply ozd_bind; [apply ozd_get_frame|]. intro f.
  apply ozd_bind; [|intros _; apply ozd_ret].
  apply ozd_modify. intros w R. exact R.
Qed.

Lemma ozd_animate (fuel : nat) : only_zero_division (animate_to_next_subslide env fuel).
Proof.
  unfold animate_to_next_subslide.
  apply ozd_bind; [apply ozd_modify; intros w R; now apply running_scene_flag|]. intros _.
  apply ozd_bind; [apply ozd_clear_static|]. intros _.
  apply ozd_bind; [apply ozd_modify; intros w R; now apply running_scene_flag|]. intros _.
  apply ozd_bind; [apply ozd_gen_next|]. intro r.
  apply ozd_bind.
  - destruct r; [apply ozd_ret|].
    apply ozd_get. intros w R. destruct (is_at_end (scene w)); [now apply ozd_ret|].
    assert (H : only_zero_division
      (modify (with_scene (set_is_at_end true)) ;; ret (Some SUBSLIDE))).
    { apply ozd_bind; [|intros _; apply ozd_ret].
      apply ozd_modify. intros w0 R0. now apply running_scene_flag. }
    exact (H w R).
  - intros [code|]; [|apply ozd_ret].
    apply ozd_if; [apply ozd_ret|].
    apply ozd_bind; [apply ozd_modify; intros w R; now apply running_scene_flag|]. intros _.
    apply ozd_bind; [apply ozd_emit|]. intros _.
    apply ozd_bind; [apply ozd_emit|]. intros _.
    apply ozd_bind; [apply ozd_save_static|]. intros _. apply ozd_ret.
Qed.

Lemma ozd_redraw :
  only_zero_division
    (dt <- update_framerate_clock env ;;
     update_mobjects dt ;;
     update_frame MovingMobjects true ;;
     frame <- get_frame ;;
     send_frame_to_window frame ;;
     modify (with_host (set_last_frame_data (Some frame)))).
Proof.
  apply ozd_bind; [apply ozd_clock|]. intro dt.
  apply ozd_bind; [apply ozd_emit|]. intros _.
  apply ozd_bind; [apply ozd_update_frame|]. intros _.
  apply ozd_bind; [apply ozd_get_frame|]. intro f.
  apply ozd_bind; [apply ozd_emit|]. intros _.
  apply ozd_modify. intros w R. exact R.
Qed.

Lemma ozd_render_idle_frame : only_zero_division (render_idle_frame env).
Proof.
  intros w R. pose proof R as (K & H & A & G).
  destruct (last_frame_data (host w)) as [f|] eqn:L.
  - destruct (should_update_mobjects_result env (update_calls w)) eqn:Su.
    + set (wa := mkWorld (scene w) (renderer w) (host w) (clock_reads w) (polls w)
                         (stop_calls w) (S (update_calls w)) (trace w)).
      assert (E : render_idle_frame env w =
              (dt <- update_framerate_clock env ;;
               update_mobjects dt ;;
               update_frame MovingMobjects true ;;
               frame <- get_frame ;;
               send_frame_to_window frame ;;
               modify (with_host (set_last_frame_data (Some frame)))) wa).
      { unfold render_idle_frame. rewrite bind_run. cbn [get]. rewrite L, A.
        rewrite bind_run. unfold should_update_mobjects at 1. rewrite Su.
        reflexivity. }
      rewrite E. apply ozd_redraw. exact R.
    + destruct (render_idle_frame env w) as [wr rr] eqn:E. cbn [fst snd].
      unfold render_idle_frame in E. rewrite bind_run in E. cbn [get] in E.
      rewrite L, A in E. rewrite bind_run in E.
      unfold should_update_mobjects at 1 in E. rewrite Su in E.
      rewrite bind_run in E.
      match type of E with context [update_framerate_clock env ?x] =>
        destruct (update_framerate_clock_cases env x)
          as (hb & nb & rb & Ub & _ & Ab & Db & Rb); rewrite Ub in E end.
      cbn in Ab, Db.
      destruct rb as [dt|e|].
      * rewrite bind_run in E. cbn [get host] in E. rewrite Db, L in E. cbn in E.
        injection E as <- <-.
        split; [|discriminate]. repeat split; try assumption. cbn. now rewrite Ab.
      * injection E as <- <-.
        split; [repeat split; try assumption; cbn; now rewrite Ab|].
        intros e0 E0. injection E0 as <-.
        match type of Rb with (if ?c then _ else _) => destruct c end.
        -- destruct Rb as (dt & Rb & _). discriminate.
        -- now injection Rb as <-.
      * injection E as <- <-.
        split; [repeat split; try assumption; cbn; now rewrite Ab|discriminate].
  - assert (E : render_idle_frame env w =
              (dt <- update_framerate_clock env ;;
               update_mobjects dt ;;
               update_frame MovingMobjects true ;;
               frame <- get_frame ;;
               send_frame_to_window frame ;;
               modify (with_host (set_last_frame_data (Some frame)))) w).
    { unfold render_idle_frame. rewrite bind_run. cbn [get]. rewrite L, A.
      rewrite bind_run. reflexivity. }
    rewrite E. apply ozd_redraw. exact R.
Qed.

(** In a running slideshow a call that returns leaves the scene in the
    state its result tells. *)
Lemma animate_state (fuel : nat) (w w1 : World) (more : bool) :
  running w ->
  animate_to_next_subslide env fuel w = (w1, Ok more) ->
  more = true -> presentation_state (scene w1) = IDLE.
Proof.
  intros (K & H & A & _) E ->.
  destruct (animate_true env fuel w w1) as (wi & -> & _); [|exact E|reflexivity].
  intros _ _. exact A.
Qed.

Lemma handle_events_state (fuel : nat) (evts : list SlideshowEvent) :
  forall w w1,
    running w ->
    presentation_state (scene w) = IDLE ->
    handle_events env fuel evts w = (w1, Ok false) ->
    presentation_state (scene w1) = IDLE.
Proof.
  induction evts as [|[| |] evts IH]; intros w w1 R St E; cbn [handle_events] in E.
  - injection E as <-. exact St.
  - discriminate.
  - rewrite bind_run in E.
    destruct (animate_to_next_subslide env fuel w) as [wa [[|]| |]] eqn:An;
      try discriminate.
    rewrite bind_run in E. cbn [emit modify] in E.
    apply (IH _ w1) in E; [exact E| |].
    + destruct (ozd_animate fuel w R) as [Ra _]. rewrite An in Ra. exact Ra.
    + cbn. exact (animate_state fuel w wa true R An eq_refl).
  - exact (IH w w1 R St E).
Qed.

Lemma ozd_handle_events (fuel : nat) (evts : list SlideshowEvent) :
  only_zero_division (handle_events env fuel evts).
Proof.
  induction evts as [|[| |] evts IH]; cbn [handle_events];
    try apply ozd_ret; try exact IH.
  apply ozd_bind; [apply ozd_animate|]. intro more.
  apply ozd_if; (apply ozd_bind; [apply ozd_emit|]); intros _;
    [exact IH|apply ozd_ret].
Qed.

Lemma idle_loop_errors (rounds fuel : nat) :
  forall w,
    running w ->
    presentation_state (scene w) = IDLE ->
    forall e, snd (idle_loop env rounds fuel w) = Raise e -> e = ZeroDivisionError.
Proof.
  induction rounds as [|rounds IH]; intros w R St e; cbn [idle_loop]; [discriminate|].
  rewrite bind_run. cbn [get]. rewrite St. cbn [PresentationState_eqb].
  rewrite bind_run.
  destruct (ozd_render_idle_frame w R) as [R1 E1].
  destruct (render_idle_frame env w) as [w1 [[]| |]] eqn:Ri; cbn [fst snd] in *;
    [|exact (E1 e)|discriminate].
  assert (St1 : presentation_state (scene w1) = IDLE).
  { destruct (render_idle_frame_step env w w1 Ri) as (Sc & _). now rewrite Sc. }
  rewrite bind_run. cbn [sieve_events].
  rewrite bind_run.
  match goal with |- context [handle_events env fuel ?l ?x] =>
    assert (Rx : running x) by exact R1;
    assert (Sx : presentation_state (scene x) = IDLE) by exact St1;
    destruct (ozd_handle_events fuel l x Rx) as [R2 E2];
    pose proof (handle_events_state fuel l x) as Hs;
    destruct (handle_events env fuel l x) as [w2 [[|]| |]] eqn:He
  end; cbn [fst snd] in *.
  - discriminate.
  - apply IH; [exact R2|]. exact (Hs w2 Rx Sx eq_refl).
  - intro X. injection X as <-. now apply E2.
  - discriminate.
Qed.

End Errors.

Section Run.
Variable env : Env.

Lemma host_run_unfold (rounds fuel : nat) (c : Construct) (i : Z) (w : World) :
  host_run env rounds fuel c i w =
  (start_render env ;;
   more <- animate_to_next_subslide env fuel ;;
   if more then idle_loop env rounds fuel else ret tt) (activated c i w).
Proof. reflexivity. Qed.

Lemma start_render_cases (c : Construct) (i : Z) (w : World) :
  let w0 := activated c i w in
  match c with
  | PlainFunction _ =>
      if instance_has_qualname env
      then running (fst (start_render env w0)) /\ snd (start_render env w0) = Ok tt
      else snd (start_render env w0) = Raise AttributeError
  | GeneratorFunction _ _ =>
      running (fst (start_render env w0)) /\ snd (start_render env w0) = Ok tt
  end.
Proof.
  intro w0. unfold start_render. rewrite bind_run. cbn [emit modify].
  rewrite bind_run. cbn [get]. 
  change (construct (scene (with_trace ESetup w0))) with c.
  destruct c as [segs rest|body].
  - cbn. repeat split; discriminate.
  - destruct (instance_has_qualname env).
    + cbn. repeat split; discriminate.
    + reflexivity.
Qed.

(** The errors of the presentation of the first slide. *)
Lemma host_run_errors (rounds fuel : nat) (c : Construct) (i : Z) (w : World) :
  (forall body, c = PlainFunction body -> instance_has_qualname env = false ->
     snd (host_run env rounds fuel c i w) = Raise AttributeError) /\
  (forall e, snd (host_run env rounds fuel c i w) = Raise e ->
     e = ZeroDivisionError \/
     (e = AttributeError /\ instance_has_qualname env = false /\
      exists body, c = PlainFunction body)).
Proof.
  rewrite host_run_unfold. rewrite bind_run.
  pose proof (start_render_cases c i w) as Sr. cbv zeta in Sr.
  destruct (start_render env (activated c i w)) as [w1 r1]. cbn [fst snd] in Sr.
  assert (Main : running w1 -> forall e,
            snd ((more <- animate_to_next_subslide env fuel ;;
                  if more then idle_loop env rounds fuel else ret tt) w1) = Raise e ->
            e = ZeroDivisionError).
  { intros R e. rewrite bind_run.
    destruct (ozd_animate env fuel w1 R) as [Ra Ea].
    destruct (animate_to_next_subslide env fuel w1) as [wa [[|]| |]] eqn:An;
      cbn [fst snd] in *.
    - apply idle_loop_errors; [exact Ra|].
      exact (animate_state env fuel w1 wa true R An eq_refl).
    - discriminate.
    - intro X. injection X as <-. now apply Ea.
    - discriminate. }
  destruct c as [segs rest|body].
  - destruct Sr as [R ->]. split; [discriminate|].
    intros e E. left. exact (Main R e E).
  - destruct (instance_has_qualname env).
    + destruct Sr as [R ->]. split; [discriminate|].
      intros e E. left. exact (Main R e E).
    + subst r1. split; [reflexivity|].
      intros e E. injection E as <-. right. repeat split. now exists body.
Qed.

(** X13.  The errors of [SlideshowHost.run], as far as the code of these
    files raises them.  Without any slide it shows the window and fails
    with [IndexError] at [self.slides[0]].  A first slide whose [construct]
    is a plain method fails with [AttributeError] in [start_render] when
    the instance has no [__qualname__].  Otherwise the only exception that
    comes out of [run] is the [ZeroDivisionError] of the pacing clock; in
    particular the exit taken on an "invalid slideshow state" is never
    reached. *)
Theorem run_errors (rounds fuel : nat) (slides : list Construct) (i : Z) (w : World) :
  (slides = [] ->
   run env rounds fuel slides i w = (with_trace EWindowShow w, Raise IndexError)) /\
  (forall body others,
     slides = PlainFunction body :: others ->
     instance_has_qualname env = false ->
     snd (run env rounds fuel slides i w) = Raise AttributeError) /\
  (forall e, snd (run env rounds fuel slides i w) = Raise e ->
     (e = IndexError /\ slides = []) \/
     e = ZeroDivisionError \/
     (e = AttributeError /\ instance_has_qualname env = false /\
      exists body others, slides = PlainFunction body :: others)).
Proof.
  destruct slides as [|c others]; cbn [run].
  - split; [reflexivity|]. split; [discriminate|].
    intros e E. cbn in E. injection E as <-. left. now split.
  - destruct (host_run_errors rounds fuel c i w) as [Ha He].
    split; [discriminate|]. split.
    + intros body others' E Q. injection E as -> _. now apply (Ha body).
    + intros e E. right. destruct (He e E) as [Z|(A & Q & body & ->)].
      * now left.
      * right. repeat split; try assumption. now exists body, others.
Qed.

End Run.

Section Video.
Variable env : Env.

Lemma for_each_app {A} (a b : list A) (body : A -> M unit) (w : World) :
  for_each (a ++ b) body w = (for_each a body ;; for_each b body) w.
Proof.
  revert w. induction a as [|x a IH]; intro w; [reflexivity|].
  cbn [app for_each]. rewrite !bind_run.
  destruct (body x w) as [w1 [[]| |]]; try reflexivity.
  rewrite IH. now rewrite bind_run.
Qed.

Lemma render_wrapper_flat (fuel : nat) (segs : list Segment) (rest : list PlayCall) :
  forall w,
    render_wrapper env fuel segs rest w
    = run_plays env fuel (video_plays env segs rest) w.
Proof.
  induction segs as [|seg segs IH]; intro w; cbn [render_wrapper video_plays].
  - unfold run_plays. rewrite for_each_app, !bind_run.
    destruct (for_each rest (scene_play env fuel) w) as [w1 [[]| |]]; try reflexivity.
    cbn [for_each]. unfold scene_wait. rewrite bind_run.
    destruct (scene_play env fuel _ w1) as [w2 [[]| |]]; reflexivity.
  - unfold run_plays in *. rewrite for_each_app, !bind_run.
    destruct (for_each (seg_plays seg) (scene_play env fuel) w) as [w1 [[]| |]];
      try reflexivity.
    destruct (seg_token seg); cbn [AnimationGroupEndAction_eqb for_each].
    + rewrite !bind_run. unfold scene_wait.
      destruct (scene_play env fuel _ w1) as [w2 [[]| |]]; try reflexivity.
      apply IH.
    + reflexivity.
Qed.

(** X14.  The wrapper [SlideScene.render] puts around a generator script
    stops at the first EXIT token: the stretches after it and the plays
    after the last [yield] have no influence on the render. *)
Theorem render_stops_at_the_first_exit
    (fuel : nat) (pre post : list Segment) (ps : list PlayCall)
    (rest rest' : list PlayCall) (w : World) :
  render_wrapper env fuel (pre ++ mkSegment ps EXIT :: post) rest w
  = render_wrapper env fuel (pre ++ [mkSegment ps EXIT]) rest' w.
Proof.
  rewrite !render_wrapper_flat. f_equal.
  induction pre as [|seg pre IH]; cbn [app video_plays seg_token seg_plays];
    [reflexivity|].
  destruct (seg_token seg); [|reflexivity]. now rewrite IH.
Qed.

(** X15.  Rendering a generator script through a fresh
    [DummySlideRenderer] returns, and the compilations it asks for are, in
    order, those of the plays of the script up to its first EXIT with a
    wait of [NON_SLIDESHOW_SUBSLIDE_DELAY] after every SUBSLIDE token and
    after the end of the script: as many waits as the live presentation
    has IDLE phases.  Only the first of them is compiled for rendering.
    (What [compile_animation_data] draws is not stated here.) *)
Theorem prerender_compiles_the_video_plays
    (fuel : nat) (segs : list Segment) (rest : list PlayCall) (w : World) :
  kind (renderer w) = DummySlideRenderer ->
  num_plays (renderer w) = 0%nat ->
  (0 < fuel)%nat ->
  exists w' new,
    render_wrapper env fuel segs rest w = (w', Ok tt) /\
    trace w' = trace w ++ new /\
    filter is_compile new
    = match video_plays env segs rest with
      | [] => []
      | p :: ps' => ECompile false p :: map (ECompile true) ps'
      end /\
    num_plays (renderer w') = length (video_plays env segs rest) /\
    length (video_plays env segs rest)
    = (length (script_plays segs rest)
       + idle_phases_to_come (map seg_token segs) false)%nat.
Proof.
  intros K N F. rewrite render_wrapper_flat. destruct fuel as [|fuel]; [lia|].
  destruct (run_plays_dummy_compiles env fuel (video_plays env segs rest) w K)
    as (w' & new & P & N' & T & E).
  exists w', new. rewrite N in *.
  split; [exact P|]. split; [exact T|]. split.
  { rewrite E. destruct (video_plays env segs rest) as [|p ps]; [reflexivity|].
    cbn [dummy_compiles]. now rewrite dummy_compiles_later. }
  split; [exact N'|].
  clear. induction segs as [|seg segs IH].
  - cbn. rewrite length_app. cbn. lia.
  - cbn [video_plays script_plays map idle_phases_to_come].
    destruct (seg_token seg).
    + rewrite !length_app. cbn [length]. rewrite IH. lia.
    + rewrite !length_app. cbn. lia.
Qed.

End Video.

Section Liveness.
Variable env : Env.

Lemma steady_ret {A} (a : A) : steady (ret a).
Proof. intro w. cbn. repeat split; [lia|discriminate]. Qed.

Lemma steady_raise {A} (e : exn) : steady (@raise A e).
Proof. intro w. cbn. repeat split; [lia|discriminate]. Qed.

Lemma steady_bind {A B} (m : M A) (k : A -> M B) :
  steady m -> (forall a, steady (k a)) -> steady (bind m k).
Proof.
  intros Hm Hk w. rewrite bind_run. destruct (Hm w) as (C1 & D1 & F1).
  destruct (m w) as [w1 [a| |]]; cbn [fst snd] in *.
  - destruct (Hk a w1) as (C2 & D2 & F2). repeat split; [lia|congruence|exact F2].
  - repeat split; [lia|exact D1|discriminate].
  - now elim F1.
Qed.

Lemma steady_get {A} (k : World -> M A) :
  (forall w0, steady (k w0)) -> steady (bind get k).
Proof. intros H w. rewrite bind_run. cbn [get]. apply H. Qed.

Lemma steady_if {A} (b : bool) (m1 m2 : M A) :
  steady m1 -> steady m2 -> steady (if b then m1 else m2).
Proof. now destruct b. Qed.

Lemma steady_modify (f : World -> World) :
  (forall w, (clock_reads w <= clock_reads (f w))%nat /\
             duration (scene (f w)) = duration (scene w)) ->
  steady (modify f).
Proof. intros H w. cbn. destruct (H w). repeat split; [assumption..|discriminate]. Qed.

Lemma steady_emit (e : Event) : steady (emit e).
Proof. apply steady_modify. intro w. cbn. split; [lia|reflexivity]. Qed.

Lemma steady_for_each {A} (l : list A) (body : A -> M unit) :
  (forall x, steady (body x)) -> steady (for_each l body).
Proof.
  intro H. induction l as [|x l IH]; cbn [for_each]; [apply steady_ret|].
  apply steady_bind; [apply H|]. intros _. exact IH.
Qed.

Lemma steady_time : steady (time_time env).
Proof. intro w. cbn. repeat split; [lia|discriminate]. Qed.

Lemma steady_py_div (a b : Q) : steady (py_div a b).
Proof. unfold py_div. apply steady_if; [apply steady_raise|apply steady_ret]. Qed.

Lemma steady_clock : steady (update_framerate_clock env).
Proof.
  unfold update_framerate_clock. apply steady_get. intro w0.
  destruct (last_frame_at (host w0)).
  - apply steady_bind; [apply steady_time|]. intro ct.
    apply steady_bind; [apply steady_py_div|]. intro sample.
    apply steady_bind; [apply steady_modify; intro w; cbn; split; [lia|reflexivity]|].
    intros _. apply steady_bind; [apply steady_emit|]. intros _.
    apply steady_bind; [apply steady_py_div|]. intro period.
    apply steady_bind.
    { apply steady_if; [|apply steady_ret].
      apply steady_bind; [apply steady_py_div|]. intro p'. apply steady_emit. }
    intros _. apply steady_bind; [apply steady_time|]. intro now.
    apply steady_bind; [|intros _; apply steady_ret].
    apply steady_modify. intro w. cbn. split; [lia|reflexivity].
  - apply steady_bind; [apply steady_time|]. intro now.
    apply steady_bind; [|intros _; apply steady_ret].
    apply steady_modify. intro w. cbn. split; [lia|reflexivity].
Qed.

Lemma steady_sieve : steady (sieve_events env).
Proof. intro w. cbn. repeat split; [lia|discriminate]. Qed.

Lemma steady_skip_animations : steady skip_animations.
Proof.
  intro w. rewrite skip_animations_run. cbn. repeat split; [lia|].
  destruct (kind (renderer w)); [discriminate|].
  destruct (slideshow_host (renderer w)); [|discriminate].
  destruct (active_scene (host w)); discriminate.
Qed.

Lemma steady_update_with_rendered_frame (src : Z) (frame : Frame) :
  steady (update_with_rendered_frame env src frame).
Proof.
  unfold update_with_rendered_frame. apply steady_get. intro w0.
  apply steady_if; [apply steady_emit|].
  apply steady_bind; [apply steady_sieve|]. intro evts.
  apply steady_bind.
  - apply steady_for_each. intros [| |].
    + apply steady_emit.
    + apply steady_bind; [apply steady_emit|]. intros _.
      apply steady_get. intro w1.
      apply steady_if; [|apply steady_raise].
      apply steady_modify. intro w. cbn. split; [lia|reflexivity].
    + apply steady_ret.
  - intros _. apply steady_bind; [apply steady_clock|]. intros _.
    apply steady_bind; [apply steady_emit|]. intros _.
    apply steady_modify. intro w. cbn. split; [lia|reflexivity].
Qed.

Lemma steady_update_frame (m : MobjectsArg) (b : bool) : steady (update_frame m b).
Proof.
  unfold update_frame. apply steady_bind; [apply steady_skip_animations|]. intro skip.
  apply steady_get. intro w0.
  apply steady_if; [apply steady_ret|apply steady_emit].
Qed.

Lemma steady_get_frame : steady get_frame.
Proof.
  unfold get_frame. apply steady_get. intro w0.
  apply steady_bind; [apply steady_modify; intro w; cbn; split; [lia|reflexivity]|].
  intros _. apply steady_bind; [apply steady_emit|]. intros _. apply steady_ret.
Qed.

Lemma steady_render : steady (renderer_render env).
Proof.
  unfold renderer_render. apply steady_get. intro w0.
  destruct (kind (renderer w0)); [apply steady_raise|].
  apply steady_bind; [apply steady_update_frame|]. intros _.
  apply steady_bind; [apply steady_get_frame|]. intro f.
  unfold add_frame. apply steady_bind; [apply steady_skip_animations|]. intro skip.
  apply steady_if; [apply steady_ret|].
  apply steady_get. intro w1.
  apply steady_if; [apply steady_update_with_rendered_frame|apply steady_raise].
Qed.

Lemma steady_update_to_time (t : Q) : steady (update_to_time t).
Proof.
  unfold update_to_time.
  apply steady_bind; [apply steady_modify; intro w; cbn; split; [lia|reflexivity]|].
  intros _. apply steady_emit.
Qed.

Lemma steady_stop_condition : steady (call_stop_condition env).
Proof. intro w. cbn. repeat split; [lia|discriminate]. Qed.

Lemma ends_bind {A B} (Pre : World -> Prop) (m : M A) (k : A -> M B) :
  (forall w w', (clock_reads w <= clock_reads w')%nat ->
                duration (scene w') = duration (scene w) -> Pre w -> Pre w') ->
  steady m ->
  (forall a w, Pre w -> snd (k a w) <> OutOfFuel) ->
  forall w, Pre w -> snd (bind m k w) <> OutOfFuel.
Proof.
  intros Mono Hm Hk w P. rewrite bind_run. destruct (Hm w) as (C & D & F).
  destruct (m w) as [w1 [a| |]]; cbn [fst snd] in *.
  - apply Hk. exact (Mono w w1 C D P).
  - discriminate.
  - now elim F.
Qed.

Section Clock.
Variable delta : Q.
Hypothesis delta_pos : 0 < delta.
Hypothesis clock_advances : forall k, clock env k + delta <= clock env (S k).

Lemma clock_later (k j : nat) : (k < j)%nat -> clock env k + delta <= clock env j.
Proof.
  induction 1 as [|j _ IH]; [apply clock_advances|].
  apply Qle_trans with (clock env j); [exact IH|].
  apply Qle_trans with (clock env j + delta); [|apply clock_advances].
  rewrite <- (Qplus_0_r (clock env j)) at 1.
  apply Qplus_le_r. now apply Qlt_le_weak.
Qed.

Lemma play_loop_ends (sr : bool) (t_0 : Q) (fuel : nat) :
  forall t w,
    (forall j, (clock_reads w <= j)%nat -> t + delta <= clock env j - t_0) ->
    duration (scene w) <= t + inject_Z (Z.of_nat fuel) * delta ->
    snd (play_loop env fuel sr t_0 t w) <> OutOfFuel.
Proof.
  induction fuel as [|fuel IH]; intros t w Hj Hd; cbn [play_loop];
    rewrite bind_run; cbn [get].
  - destruct (Qlt_bool t (duration (scene w))) eqn:L; [|discriminate].
    apply Qlt_bool_iff in L. exfalso.
    apply (Qlt_not_le _ _ L). cbn in Hd. 
    apply Qle_trans with (t + 0 * delta); [exact Hd|]. 
    rewrite Qmult_0_l, Qplus_0_r. apply Qle_refl.
  - destruct (Qlt_bool t (duration (scene w))) eqn:L; [|discriminate].
    rewrite bind_run. cbn [time_time].
    set (t' := clock env (clock_reads w) - t_0).
    assert (Ht : t + delta <= t') by (apply Hj; lia).
    set (Pre := fun w0 : World =>
      (forall j, (clock_reads w0 <= j)%nat -> t' + delta <= clock env j - t_0) /\
      duration (scene w0) <= t' + inject_Z (Z.of_nat fuel) * delta).
    assert (Mono : forall w0 w', (clock_reads w0 <= clock_reads w')%nat ->
                duration (scene w') = duration (scene w0) -> Pre w0 -> Pre w').
    { intros w0 w' C D [P1 P2]. split.
      - intros j Hjj. apply P1. lia.
      - now rewrite D. }
    match goal with |- snd (?m ?x) <> OutOfFuel =>
      cut (Pre x); [generalize x|] end.
    + apply (ends_bind Pre); [exact Mono|apply steady_update_to_time|]. intros _.
      apply (ends_bind Pre); [exact Mono| |].
      { apply steady_if; [apply steady_render|apply steady_ret]. }
      intros _ w1 P1. rewrite bind_run. cbn [get]. revert w1 P1.
      intros w1 P1.
      generalize (stop_condition (scene w1)). intro sc. revert w1 P1.
      apply (ends_bind Pre); [exact Mono| |].
      { apply steady_if; [apply steady_stop_condition|apply steady_ret]. }
      intros [|] w2 P2; [discriminate|].
      revert w2 P2.
      apply (ends_bind Pre); [exact Mono|apply steady_skip_animations|].
      intros [|] w3 [P3 P4]; [discriminate|].
      apply IH; assumption.
    + split.
      * intros j Hjj. cbn in Hjj. unfold t'.
        assert (C : clock env (clock_reads w) + delta <= clock env j)
          by (apply clock_later; lia).
        unfold Qminus. rewrite <- Qplus_assoc, (Qplus_comm (- t_0)), Qplus_assoc.
        now apply Qplus_le_l.
      * cbn [scene]. apply Qle_trans with (t + inject_Z (Z.of_nat (S fuel)) * delta);
          [exact Hd|].
        rewrite Nat2Z.inj_succ. unfold Z.succ. rewrite inject_Z_plus.
        rewrite Qmult_plus_distr_l, Qmult_1_l.
        rewrite (Qplus_comm _ delta), Qplus_assoc.
        now apply Qplus_le_l.
Qed.

Lemma play_internal_ends (fuel : nat) (sr : bool) (w : World) :
  duration (scene w) <= inject_Z (Z.of_nat fuel) * delta ->
  snd (play_internal env fuel sr w) <> OutOfFuel.
Proof.
  intro Hd. unfold play_internal. rewrite bind_run. cbn [time_time].
  rewrite bind_run.
  match goal with |- context [play_loop env fuel sr ?t0 0 ?x] =>
    pose proof (play_loop_ends sr t0 fuel 0 x) as L;
    destruct (play_loop env fuel sr t0 0 x) as [w1 [nlr| |]] eqn:E
  end; cbn [fst snd] in *.
  - rewrite bind_run.
    assert (St : steady
      (if nlr && negb sr
       then w0 <- get ;; update_to_time (duration (scene w0)) ;; renderer_render env
       else ret tt)).
    { apply steady_if; [|apply steady_ret].
      apply steady_get. intro w0.
      apply steady_bind; [apply steady_update_to_time|]. intros _. apply steady_render. }
    destruct (St w1) as (_ & _ & F).
    match goal with |- context [(if nlr && negb sr then ?a else ?b) w1] =>
      destruct ((if nlr && negb sr then a else b) w1) as [w2 [[]| |]] end;
      cbn [snd] in *; try discriminate.
    now elim F.
  - discriminate.
  - exfalso. apply L; [|rewrite Qplus_0_l; exact Hd|reflexivity].
    intros j Hj. cbn in Hj. rewrite Qplus_0_l.
    assert (Cl : clock env (clock_reads w) + delta <= clock env j)
      by (apply clock_later; lia).
    apply Qle_trans with (clock env (clock_reads w) + delta - clock env (clock_reads w)).
    + ring_simplify. apply Qle_refl.
    + unfold Qminus. now apply Qplus_le_l.
Qed.

(** X16.  If every reading of the clock is at least [delta] later than
    the reading before it, [play_internal] ends within [duration / delta]
    iterations of its loop: with that much fuel it never runs out. *)
Theorem play_ends_when_the_clock_advances (fuel : nat) (sr : bool) (w : World) :
  duration (scene w) <= inject_Z (Z.of_nat fuel) * delta ->
  snd (play_internal env fuel sr w) <> OutOfFuel.
Proof. apply play_internal_ends. Qed.

End Clock.
End Liveness.


Section ExitToken.
Variable env : Env.

(** A [next] that yields has run the first pending stretch and left the
    generator suspended at the following one. *)
Lemma gen_next_yield (fuel : nat) (w wg : World) (tok : AnimationGroupEndAction)
      (seg : Segment) (segs : list Segment) (rest : list PlayCall) :
  anim_generator (scene w) = Some (Suspended (seg :: segs) rest) ->
  gen_next env fuel w = (wg, Ok (Some tok)) ->
  tok = seg_token seg /\
  anim_generator (scene wg) = Some (Suspended segs rest).
Proof.
  intros G E. unfold gen_next in E. rewrite bind_run in E. cbn [get] in E.
  rewrite G in E. rewrite bind_run in E.
  destruct (generator_frame (run_plays env fuel (seg_plays seg)) w)
    as [wp [[]| |]]; try discriminate.
  cbn in E. injection E as <- <-. split; reflexivity.
Qed.

(** X18.  An EXIT token makes [animate_to_next_subslide] return [False]
    but does not end the script: the generator stays suspended right after
    that [yield], [is_at_end] is untouched and the scene stays ANIMATING.
    A presentation resumed from there goes through the IDLE phases of the
    rest of the script. *)
Theorem exit_token_does_not_end_the_script
    (fuel : nat) (w w1 : World) (ps : list PlayCall)
    (segs : list Segment) (rest : list PlayCall) :
  renderer_wired w ->
  anim_generator (scene w) = Some (Suspended (mkSegment ps EXIT :: segs) rest) ->
  animate_to_next_subslide env fuel w = (w1, Ok false) ->
  anim_generator (scene w1) = Some (Suspended segs rest) /\
  is_at_end (scene w1) = is_at_end (scene w) /\
  presentation_state (scene w1) = ANIMATING /\
  (exists body, trace w1 = trace w ++ body ++ [EGenYield EXIT]) /\
  forall calls w' n,
    present env calls fuel w1 = (w', Ok n) ->
    n = idle_phases_to_come (map seg_token segs) (is_at_end (scene w)).
Proof.
  intros Wd G E. rewrite animate_run in E.
  destruct (gen_next_entering env fuel w) as (Ps & Ae & Wg & body & _ & Tr).
  specialize (Wg Wd).
  destruct (gen_next env fuel (entering_animation w)) as [wg rg] eqn:Gn.
  cbn [fst snd] in *.
  assert (G0 : anim_generator (scene (entering_animation w))
               = Some (Suspended (mkSegment ps EXIT :: segs) rest)) by exact G.
  destruct rg as [[tok|]| |].
  - destruct (gen_next_yield fuel _ wg tok _ _ _ G0 Gn) as [-> G1].
    cbn [seg_token] in E. injection E as <-.
    split; [exact G1|]. split; [exact Ae|]. split; [exact Ps|].
    split; [exists body; exact Tr|].
    intros calls w' n P.
    destruct (present_counts env calls fuel wg w' n _ Wg G1 P) as (new & _ & N & _).
    rewrite N, Ae. reflexivity.
  - exfalso. pose proof (gen_next_progress env fuel _ _ G0) as P.
    rewrite Gn in P. cbn in P. destruct P as [_ P]. discriminate.
  - discriminate.
  - discriminate.
Qed.

End ExitToken.

Section PresentationEnds.
Variable env : Env.
Variable delta : Q.
Hypothesis delta_pos : 0 < delta.
Hypothesis clock_advances : forall k, clock env k + delta <= clock env (S k).
Variable fuel : nat.

Lemma renderer_play_ends (p : PlayCall) (w : World) :
  play_within (inject_Z (Z.of_nat fuel) * delta) p ->
  snd (renderer_play env fuel p w) <> OutOfFuel.
Proof.
  intro B. unfold renderer_play. rewrite bind_run. cbn [get].
  assert (C : forall sk w0,
            snd ((s <- compile_animation_data sk p ;;
                  if s then play_internal env fuel true else ret tt) w0) <> OutOfFuel).
  { intros sk w0. rewrite bind_run. unfold compile_animation_data.
    rewrite bind_run. cbn [emit modify]. destruct p as [g|].
    - rewrite bind_run. cbn [modify ret].
      apply (play_internal_ends env delta delta_pos clock_advances). exact B.
    - discriminate. }
  destruct (kind (renderer w)).
  - rewrite bind_run. cbn [modify]. rewrite bind_run. cbn [get].
    destruct (Nat.eqb _ 1); apply C.
  - rewrite bind_run. unfold compile_animation_data.
    rewrite bind_run. cbn [emit modify]. destruct p as [g|].
    + rewrite bind_run. cbn [modify ret].
      apply (play_internal_ends env delta delta_pos clock_advances). exact B.
    + discriminate.
Qed.

Lemma run_plays_ends (ps : list PlayCall) :
  Forall (play_within (inject_Z (Z.of_nat fuel) * delta)) ps ->
  forall w, snd (run_plays env fuel ps w) <> OutOfFuel.
Proof.
  induction 1 as [|p ps Hp _ IH]; intro w; [discriminate|].
  unfold run_plays in *. cbn [for_each]. rewrite bind_run.
  pose proof (renderer_play_ends p w Hp) as R. unfold scene_play at 1.
  destruct (renderer_play env fuel p w) as [w1 [[]| |]]; cbn [snd] in *.
  - apply IH.
  - discriminate.
  - exact R.
Qed.


Lemma begin_idle_phase_cases (w : World) :
  snd (begin_idle_phase w) <> OutOfFuel /\
  forall w1 b,
    begin_idle_phase w = (w1, Ok b) ->
    b = true /\
    anim_generator (scene w1) = anim_generator (scene w) /\
    is_at_end (scene w1) = is_at_end (scene w).
Proof.
  destruct (begin_idle_phase w) as [wr rr] eqn:E. cbn [snd].
  unfold begin_idle_phase in E. rewrite bind_run in E. cbn [modify] in E.
  unfold update_mobjects in E. rewrite bind_run in E. cbn [emit modify] in E.
  rewrite bind_run in E. cbn [emit modify] in E.
  rewrite bind_run in E. unfold save_static_frame_data in E.
  rewrite bind_run, update_frame_run, skip_animations_run in E. cbn [snd] in E.
  match type of E with context [match ?r with Ok _ => _ | Raise _ => _ | OutOfFuel => _ end] =>
    destruct r as [sk|e|] eqn:Sk end.
  - rewrite bind_run, get_frame_run in E. cbn in E. injection E as <- <-.
    split; [discriminate|]. intros w1 b X. injection X as <- <-. repeat split.
  - cbn in E. injection E as <- <-. split; [discriminate|]. discriminate.
  - exfalso. cbn in Sk.
    destruct (kind (renderer w)); try discriminate.
    destruct (slideshow_host (renderer w)); try discriminate.
    destruct (active_scene (host w)); discriminate.
Qed.

Lemma gen_next_ends (w : World) (g : Generator) :
  anim_generator (scene w) = Some g ->
  generator_within (inject_Z (Z.of_nat fuel) * delta) g ->
  snd (gen_next env fuel w) <> OutOfFuel.
Proof.
  intros G B. unfold gen_next. rewrite bind_run. cbn [get]. rewrite G.
  destruct g as [[|seg segs] rest|].
  - rewrite bind_run. unfold generator_frame.
    pose proof (run_plays_ends rest (proj2 B) w) as R.
    destruct (run_plays env fuel rest w) as [wp [[]| |]]; cbn [snd] in *;
      [discriminate|discriminate|now elim R].
  - rewrite bind_run. unfold generator_frame.
    destruct B as [B _]. apply Forall_inv in B.
    pose proof (run_plays_ends (seg_plays seg) B w) as R.
    destruct (run_plays env fuel (seg_plays seg) w) as [wp [[]| |]]; cbn [snd] in *;
      [discriminate|discriminate|now elim R].
  - discriminate.
Qed.

Lemma animate_progress (w : World) (g : Generator) :
  anim_generator (scene w) = Some g ->
  generator_within (inject_Z (Z.of_nat fuel) * delta) g ->
  snd (animate_to_next_subslide env fuel w) <> OutOfFuel /\
  forall w1,
    animate_to_next_subslide env fuel w = (w1, Ok true) ->
    exists g',
      anim_generator (scene w1) = Some g' /\
      generator_within (inject_Z (Z.of_nat fuel) * delta) g' /\
      (calls_to_come g' (is_at_end (scene w1))
       < calls_to_come g (is_at_end (scene w)))%nat.
Proof.
  intros G B. rewrite animate_run.
  assert (G0 : anim_generator (scene (entering_animation w)) = Some g) by exact G.
  pose proof (gen_next_ends _ g G0 B) as NF.
  pose proof (gen_next_progress env fuel _ g G0) as Pr.
  destruct (gen_next_effect env fuel (entering_animation w)) as (_ & _ & Ae & _).
  change (is_at_end (scene (entering_animation w))) with (is_at_end (scene w)) in Ae.
  destruct (gen_next env fuel (entering_animation w)) as [wg rg] eqn:Gn.
  cbn [fst snd] in *.
  destruct rg as [[tok|]| |].
  - destruct Pr as (g' & Gg & Pt).
    destruct g as [[|seg segs] rest|]; try discriminate.
    destruct (gen_next_yield env fuel _ wg tok seg segs rest G0 Gn) as [-> G1].
    destruct (seg_token seg).
    + destruct (begin_idle_phase_cases wg) as [N C]. split; [exact N|].
      intros w1 E. destruct (C w1 true E) as (_ & Gk & Ak).
      exists (Suspended segs rest). split; [congruence|]. split.
      * destruct B as [B1 B2]. split; [now apply Forall_inv_tail in B1|exact B2].
      * cbn. lia.
    + split; [discriminate|discriminate].
  - destruct Pr as [Gf Pt].
    destruct (is_at_end (scene wg)) eqn:Aw; [split; discriminate|].
    destruct (begin_idle_phase_cases (with_scene (set_is_at_end true) wg)) as [N C].
    split; [exact N|]. intros w1 E. destruct (C w1 true E) as (_ & Gk & Ak).
    exists Finished. split; [rewrite Gk; exact Gf|]. split; [exact I|].
    rewrite Ak. cbn [with_scene scene set_is_at_end is_at_end calls_to_come].
    rewrite <- Ae. destruct g as [segs rest|]; cbn; lia.
  - split; discriminate.
  - now elim NF.
Qed.

Lemma present_ends (calls : nat) :
  forall w g,
    anim_generator (scene w) = Some g ->
    generator_within (inject_Z (Z.of_nat fuel) * delta) g ->
    (calls_to_come g (is_at_end (scene w)) <= calls)%nat ->
    snd (present env calls fuel w) <> OutOfFuel.
Proof.
  induction calls as [|calls IH]; intros w g G B C.
  - exfalso. destruct g; cbn in C; [lia|]. destruct (is_at_end (scene w)); lia.
  - cbn [present]. rewrite bind_run.
    destruct (animate_progress w g G B) as [N P].
    destruct (animate_to_next_subslide env fuel w) as [w1 [[|]| |]] eqn:A;
      cbn [snd] in *; try discriminate.
    + destruct (P w1 eq_refl) as (g' & G' & B' & L).
      rewrite bind_run.
      pose proof (IH w1 g' G' B') as H.
      destruct (present env calls fuel w1) as [w2 [n| |]]; cbn [snd] in *;
        try discriminate.
      apply H. lia.
    + now elim N.
Qed.

(** X20.  If every reading of the clock is at least [delta] later than
    the reading before it, and no group of the script lasts longer than
    [fuel * delta], a presentation never hangs: calling
    [animate_to_next_subslide] until it returns [False] is over (returns or
    raises) within two calls more than the script has [yield]s. *)
Theorem presentation_ends_when_the_clock_advances
    (w : World) (segs : list Segment) (rest : list PlayCall) :
  anim_generator (scene w) = Some (Suspended segs rest) ->
  script_within (inject_Z (Z.of_nat fuel) * delta) segs rest ->
  snd (present env (length segs + 2) fuel w) <> OutOfFuel.
Proof.
  intros G B. apply (present_ends _ w (Suspended segs rest) G B). cbn. lia.
Qed.

End PresentationEnds.

Lemma pacing_times_add_up_witness :
  exists w' dts t1,
    pace quiet_env 2 paced_world = (w', Ok dts) /\
    last_frame_at (host w') = Some t1 /\
    t1 == 0 + Qsum dts.
Proof.
  destruct (pace quiet_env 2 paced_world) as [w' [dts| |]] eqn:P;
    [|exfalso; vm_compute in P; discriminate P..].
  exists w', dts.
  destruct (pacing_times_add_up quiet_env 2 paced_world w' dts P) as (t1 & L & S).
  exists t1. repeat split; assumption.
Defined.

Lemma delivered_frame_forces_redraw_witness :
  exists w1 w2,
    current_slide_source (host active_world) = Some 7%Z /\
    update_with_rendered_frame quiet_env 7 0%nat active_world = (w1, Ok tt) /\
    last_frame_data (host w1) = None /\
    render_idle_frame quiet_env w1 = (w2, Ok tt) /\
    update_calls w2 = update_calls w1 /\
    last_frame_data (host w2) = Some (frames_made (renderer w1)).
Proof.
  destruct (update_with_rendered_frame quiet_env 7 0%nat active_world)
    as [w1 [[]| |]] eqn:U; [|exfalso; vm_compute in U; discriminate U..].
  destruct (render_idle_frame quiet_env w1) as [w2 [[]| |]] eqn:R.
  2,3: exfalso; apply (f_equal fst) in U; cbn [fst] in U; subst w1;
       vm_compute in R; discriminate R.
  exists w1, w2. split; [reflexivity|]. split; [reflexivity|].
  destruct (delivered_frame_forces_redraw quiet_env 7 0%nat active_world w1 eq_refl U)
    as (L & _ & _ & C & H).
  destruct (H w2 R) as (dt & _ & L2).
  rewrite R in C. cbn [fst] in C.
  repeat split; assumption.
Defined.

Lemma idle_frames_paint_over_the_snapshot_witness :
  exists w1 w2 s new,
    animate_to_next_subslide quiet_env 5 (started_world two_group_script) = (w1, Ok true) /\
    idle_frames quiet_env 2 w1 = (w2, Ok tt) /\
    static_image (renderer w1) = Some s /\
    trace w2 = trace w1 ++ new /\
    Forall (painted_over IDLE (Some s)) new.
Proof.
  destruct (animate_to_next_subslide quiet_env 5 (started_world two_group_script))
    as [w1 [[|]| |]] eqn:A; [|exfalso; vm_compute in A; discriminate A..].
  destruct (idle_frames quiet_env 2 w1) as [w2 [[]| |]] eqn:I.
  2,3: exfalso; apply (f_equal fst) in A; cbn [fst] in A; subst w1;
       vm_compute in I; discriminate I.
  destruct (idle_frames_paint_over_the_snapshot quiet_env 5 2
              (started_world two_group_script) w1 w2
              (started_world_wired two_group_script) A I)
    as (s & tr & bg & new & _ & S & T & F & _).
  exists w1, w2, s, new. repeat split; assumption.
Defined.

Lemma quit_during_animation_is_dropped_witness :
  current_slide_source (host active_world) = Some 7%Z /\
  existsb (advancing_key quitting_env) (sdl_events quitting_env (polls active_world)) = false /\
  scene (fst (update_with_rendered_frame quitting_env 7 0%nat active_world))
  = scene active_world /\
  trace (fst (update_with_rendered_frame quitting_env 7 0%nat active_world))
  = trace active_world ++ [ELog LCritical; EBlit 0%nat].
Proof.
  split; [reflexivity|]. split; [reflexivity|].
  destruct (quit_during_animation_is_dropped quitting_env 7 0%nat active_world
              eq_refl eq_refl) as (S & _ & _ & _ & T).
  split; [exact S|exact T].
Defined.


Lemma failed_group_ends_the_script_witness :
  exists w1 w2,
    animate_to_next_subslide frozen_env 5 (started_world one_group_script)
    = (w1, Raise ZeroDivisionError) /\
    anim_generator (scene w1) = Some Finished /\
    animate_to_next_subslide frozen_env 5 w1 = (w2, Ok true).
Proof.
  destruct (animate_to_next_subslide frozen_env 5 (started_world one_group_script))
    as [w1 [b|e|]] eqn:A.
  1,3: exfalso; vm_compute in A; discriminate A.
  assert (E : e = ZeroDivisionError).
  { apply (f_equal snd) in A. vm_compute in A. now injection A as <-. }
  subst e.
  destruct (failed_group_ends_the_script frozen_env 5 (started_world one_group_script)
              w1 ZeroDivisionError _ (started_world_wired one_group_script)
              eq_refl eq_refl A)
    as (F & _ & _ & w2 & A2 & _).
  exists w1, w2. repeat split; assumption.
Defined.

Lemma finished_world_wired : renderer_wired finished_world.
Proof. intros _ _. reflexivity. Qed.

Lemma restarted_script_has_no_closing_idle_phase_witness :
  exists w',
    is_at_end (scene finished_world) = true /\
    present quiet_env 5 5 (fst (start_render quiet_env finished_world)) = (w', Ok 1%nat) /\
    1%nat = subslides_to_come [SUBSLIDE].
Proof.
  destruct (present quiet_env 5 5 (fst (start_render quiet_env finished_world)))
    as [w' [n| |]] eqn:P; [|exfalso; vm_compute in P; discriminate P..].
  assert (N : n = 1%nat).
  { apply (f_equal snd) in P. vm_compute in P. now injection P as <-. }
  subst n. exists w'. split; [reflexivity|]. split; [reflexivity|].
  destruct (restarted_script_has_no_closing_idle_phase quiet_env 5 5 finished_world
              w' 1%nat _ _ finished_world_wired eq_refl eq_refl)
    as (_ & _ & _ & _ & H).
  exact (proj1 (H P)).
Defined.

Lemma headless_playback_never_renders_witness :
  (exists w' new,
     run_plays quiet_env 1
       [Some (mkGroup 1 false); None; Some (mkGroup 2 true)]
       (new_world (GeneratorFunction [] []) DummySlideRenderer 9) = (w', Ok tt) /\
     trace w' = new /\
     filter is_compile new
     = [ECompile false (Some (mkGroup 1 false)); ECompile true None;
        ECompile true (Some (mkGroup 2 true))]) /\
  (exists w',
     play_internal quiet_env 1 true
       (new_world (GeneratorFunction [] []) DummySlideRenderer 9) = (w', Ok tt) /\
     frames_made (renderer w') = 0%nat).
Proof.
  destruct (headless_playback_never_renders quiet_env 1
              [Some (mkGroup 1 false); None; Some (mkGroup 2 true)]
              (new_world (GeneratorFunction [] []) DummySlideRenderer 9)
              eq_refl eq_refl (le_n 1))
    as [(w' & new & P & _ & T & E) (w2 & new2 & P2 & F2 & _)].
  split.
  - exists w', new. repeat split; assumption.
  - exists w2. split; assumption.
Defined.

Lemma skipping_world_fast_forwarding : fast_forwarding skipping_world.
Proof. repeat split. Qed.

Lemma fast_forwarded_plays_leave_the_window_alone_witness :
  exists w' new,
    run_plays quiet_env 1 [Some (mkGroup 10 false); Some (mkGroup 10 false)]
      skipping_world = (w', Ok tt) /\
    polls w' = polls skipping_world /\
    trace w' = trace skipping_world ++ new /\
    forallb (fun e => negb (is_window_event e)) new = true.
Proof.
  destruct (fast_forwarded_plays_leave_the_window_alone quiet_env 1
              [Some (mkGroup 10 false); Some (mkGroup 10 false)] skipping_world
              skipping_world_fast_forwarding (le_n 1))
    as (w' & new & P & _ & _ & Po & _ & T & E).
  exists w', new. repeat split; assumption.
Defined.

Lemma prerender_compiles_the_video_plays_witness :
  exists w' new,
    render_wrapper quiet_env 1 [mkSegment [Some (mkGroup 1 false)] SUBSLIDE]
      [Some (mkGroup 1 false)]
      (new_world two_group_script DummySlideRenderer 9) = (w', Ok tt) /\
    trace w' = new /\
    filter is_compile new
    = [ECompile false (Some (mkGroup 1 false)); ECompile true (Some (mkGroup 2 false));
       ECompile true (Some (mkGroup 1 false)); ECompile true (Some (mkGroup 2 false))].
Proof.
  destruct (prerender_compiles_the_video_plays quiet_env 1
              [mkSegment [Some (mkGroup 1 false)] SUBSLIDE] [Some (mkGroup 1 false)]
              (new_world two_group_script DummySlideRenderer 9)
              eq_refl eq_refl (le_n 1))
    as (w' & new & P & T & E & _).
  exists w', new. repeat split; assumption.
Defined.

Lemma quiet_clock_advances (k : nat) :
  clock quiet_env k + (1 # 2) <= clock quiet_env (S k).
Proof.
  cbn [clock quiet_env]. unfold Qle, Qplus. cbn [Qnum Qden].
  rewrite Nat2Z.inj_succ. lia.
Qed.

Lemma play_ends_when_the_clock_advances_witness :
  duration (scene (playing_world (mkGroup 1 false))) <= inject_Z (Z.of_nat 2) * (1 # 2) /\
  snd (play_internal quiet_env 2 false (playing_world (mkGroup 1 false))) <> OutOfFuel.
Proof.
  assert (D : duration (scene (playing_world (mkGroup 1 false)))
              <= inject_Z (Z.of_nat 2) * (1 # 2)) by (vm_compute; discriminate).
  split; [exact D|].
  exact (play_ends_when_the_clock_advances quiet_env (1 # 2) eq_refl
           quiet_clock_advances 2 false (playing_world (mkGroup 1 false)) D).
Defined.


Lemma exit_token_does_not_end_the_script_witness :
  exists w1 w',
    animate_to_next_subslide quiet_env 5 (started_world leaving_script) = (w1, Ok false) /\
    anim_generator (scene w1) = Some (Suspended [mkSegment [] subslide] []) /\
    present quiet_env 5 5 w1 = (w', Ok 2%nat).
Proof.
  destruct (animate_to_next_subslide quiet_env 5 (started_world leaving_script))
    as [w1 [[|]| |]] eqn:A.
  1,3,4: exfalso; vm_compute in A; discriminate A.
  destruct (exit_token_does_not_end_the_script quiet_env 5
              (started_world leaving_script) w1 [] [mkSegment [] subslide] []
              (started_world_wired leaving_script) eq_refl A)
    as (G & _ & _ & _ & H).
  destruct (present quiet_env 5 5 w1) as [w' [n| |]] eqn:P.
  2,3: exfalso; apply (f_equal fst) in A; cbn [fst] in A; subst w1;
       vm_compute in P; discriminate P.
  exists w1, w'. split; [reflexivity|]. split; [exact G|].
  rewrite P, (H 5%nat w' n P). reflexivity.
Defined.

Lemma run_errors_witness :
  snd (run quiet_env 3 5 [] 7 (new_world still_script CairoLiveSlideshowRenderer 7))
  = Raise IndexError /\
  snd (run bare_env 3 5 [one_group_method; still_script] 7
         (new_world one_group_method CairoLiveSlideshowRenderer 7))
  = Raise AttributeError.
Proof.
  split.
  - exact (f_equal snd
             (proj1 (run_errors quiet_env 3 5 [] 7
                       (new_world still_script CairoLiveSlideshowRenderer 7)) eq_refl)).
  - exact (proj1 (proj2 (run_errors bare_env 3 5 [one_group_method; still_script] 7
                           (new_world one_group_method CairoLiveSlideshowRenderer 7)))
             [Some (mkGroup 1 false)] [still_script] eq_refl eq_refl).
Defined.

Lemma fast_forwarded_play_jumps_to_its_end_witness :
  exists w' new,
    play_internal quiet_env 1 false
      (fst (compile_animation_data false (Some (mkGroup 10 false)) skipping_world))
    = (w', Ok tt) /\
    trace w' = trace (fst (compile_animation_data false (Some (mkGroup 10 false))
                             skipping_world)) ++ new /\
    last_t (scene w') = 10.
Proof.
  destruct (fast_forwarded_play_jumps_to_its_end quiet_env 1
              (fst (compile_animation_data false (Some (mkGroup 10 false)) skipping_world))
              skipping_world_fast_forwarding (le_n 1))
    as (w' & new & P & T & _ & L & _).
  exists w', new. split; [exact P|]. split; [exact T|].
  apply L; [reflexivity|].
  intro N. apply (f_equal fst) in P. cbn [fst] in P. subst w'.
  vm_compute in T. injection T as T. subst new.
  cbn in N. intuition discriminate.
Defined.

Lemma two_group_script_within :
  script_within (inject_Z (Z.of_nat 2) * (1 # 2))
    [mkSegment [Some (mkGroup 1 false)] SUBSLIDE] [Some (mkGroup 1 false)].
Proof.
  split; repeat constructor; vm_compute; discriminate.
Qed.

Lemma presentation_ends_when_the_clock_advances_witness :
  snd (present quiet_env 3 2 (started_world two_group_script)) <> OutOfFuel.
Proof.
  exact (presentation_ends_when_the_clock_advances quiet_env (1 # 2) eq_refl
           quiet_clock_advances 2 (started_world two_group_script)
           [mkSegment [Some (mkGroup 1 false)] SUBSLIDE] [Some (mkGroup 1 false)]
           eq_refl two_group_script_within).
Defined.
